(** * Verification of [lightning_app/_setup_tools.py]

    The packaging helpers of the repository are embedded as total, executable
    functions over Python strings, and the properties of the specification
    are proved (or refuted) against them.

    Conventions of the embedding.
    - A Python [str] is a [list ascii]; a character stands for the code point
      of the same number, so the development covers texts whose code points
      are below 256.
    - The file system is a finite map from path strings to file contents.
    - A Python exception is the [None] of an [option]; in the generator,
      which writes files before it may raise, it is the [Raised] of an
      [outcome], that keeps the files written so far.
    - Paths are compared as texts, and a glob lists the directory whose
      path it is given: that path holds no wildcard character. *)

From Stdlib Require Import List Ascii String Arith Lia Bool.
From stdpp Require Import gmap strings.
Import ListNotations.
Open Scope string_scope.
Open Scope list_scope.

Coercion list_ascii_of_string : string >-> list.

(** ** Python string primitives *)

Module Py.

Definition str := list ascii.

(** [str.isspace] for one character (code points below 256). *)
Definition is_space (c : ascii) : bool :=
  let n := nat_of_ascii c in
  (((9 <=? n) && (n <=? 13)) || ((28 <=? n) && (n <=? 32))
   || (n =? 133) || (n =? 160))%nat.

(** [s.lstrip()], [s.rstrip()], [s.strip()]. *)
Fixpoint lstrip (s : str) : str :=
  match s with
  | [] => []
  | c :: s' => if is_space c then lstrip s' else s
  end.

Definition rstrip (s : str) : str := rev (lstrip (rev s)).

Definition strip (s : str) : str := lstrip (rstrip s).

(** [s.startswith(p)]. *)
Fixpoint startswith (p s : str) : bool :=
  match p, s with
  | [], _ => true
  | _ :: _, [] => false
  | a :: p', b :: s' => Ascii.eqb a b && startswith p' s'
  end.

(** [s.endswith(p)]. *)
Definition endswith (p s : str) : bool := startswith (rev p) (rev s).

(** [s.find(p)]: the least index at which [p] occurs in [s]. *)
Fixpoint find (p s : str) : option nat :=
  if startswith p s then Some 0
  else match s with
       | [] => None
       | _ :: s' => option_map S (find p s')
       end.

(** [p in s]. *)
Definition contains (p s : str) : bool :=
  match find p s with Some _ => true | None => false end.

(** [s.index(p)]; the source calls it under the guard [p in s] only, where
    it agrees with [find].  Without an occurrence Python raises; the model
    returns the length there, a value that no caller reads. *)
Definition index (p s : str) : nat :=
  match find p s with Some i => i | None => length s end.

(** [sep.join(parts)]. *)
Fixpoint join (sep : str) (parts : list str) : str :=
  match parts with
  | [] => []
  | [x] => x
  | x :: rest => x ++ sep ++ join sep rest
  end.

(** Leftmost, non-overlapping rewriting, the scan that [str.replace] and
    [re.sub] share: [m s] is the length of the match that starts at the
    head of [s], if there is one; matched text becomes [new], and the scan
    resumes after it.  [skip] counts the matched characters that are still
    to be passed over. *)
Fixpoint scan (m : str -> option nat) (new : str) (skip : nat) (s : str)
  : str :=
  match s with
  | [] => []
  | c :: s' =>
      match skip with
      | S k => scan m new k s'
      | O => match m s with
             | Some n => new ++ scan m new (n - 1) s'
             | None => c :: scan m new 0 s'
             end
      end
  end.

Definition match_literal (old s : str) : option nat :=
  if startswith old s then Some (length old) else None.

(** [s.replace(old, new)]; with an empty [old], Python puts [new] before
    every character and at the end. *)
Definition replace (old new s : str) : str :=
  match old with
  | [] => new ++ flat_map (fun c => c :: new) s
  | _ :: _ => scan (match_literal old) new 0 s
  end.

(** [s.split(sep)] for a separator of one character. *)
Fixpoint split (sep : ascii) (s : str) : list str :=
  match s with
  | [] => [[]]
  | c :: s' =>
      if Ascii.eqb c sep then [] :: split sep s'
      else match split sep s' with
           | [] => [[c]]
           | p :: ps => (c :: p) :: ps
           end
  end.

(** The longest prefix of [s] made of characters in the class [f], and
    what follows it. *)
Fixpoint span (f : ascii -> bool) (s : str) : str * str :=
  match s with
  | [] => ([], [])
  | c :: s' => if f c then let (a, b) := span f s' in (c :: a, b)
               else ([], s)
  end.

Definition in_range (lo hi : nat) (c : ascii) : bool :=
  ((lo <=? nat_of_ascii c) && (nat_of_ascii c <=? hi))%nat.

(** The regular-expression class [\w] on code points below 256. *)
Definition is_word (c : ascii) : bool :=
  in_range 48 57 c || in_range 65 90 c || in_range 95 95 c
  || in_range 97 122 c || in_range 170 170 c || in_range 178 179 c
  || in_range 181 181 c || in_range 185 186 c || in_range 188 190 c
  || in_range 192 214 c || in_range 216 246 c || in_range 248 255 c.

(** Case folding of [re.IGNORECASE] against a pattern of ASCII characters. *)
Definition lower (c : ascii) : ascii :=
  if in_range 65 90 c then ascii_of_nat (nat_of_ascii c + 32) else c.

Fixpoint startswith_nocase (p s : str) : bool :=
  match p, s with
  | [], _ => true
  | _ :: _, [] => false
  | a :: p', b :: s' => Ascii.eqb (lower a) (lower b) && startswith_nocase p' s'
  end.

Fixpoint find_nocase (p s : str) : option nat :=
  if startswith_nocase p s then Some 0
  else match s with
       | [] => None
       | _ :: s' => option_map S (find_nocase p s')
       end.

(** Text-mode reading translates the line ends CR LF and CR into LF. *)
Fixpoint universal_newlines (s : str) : str :=
  match s with
  | [] => []
  | c :: s' =>
      if Ascii.eqb c "013" then
        match s' with
        | d :: _ => if Ascii.eqb d "010" then universal_newlines s'
                    else "010"%char :: universal_newlines s'
        | [] => ["010"%char]
        end
      else c :: universal_newlines s'
  end.

(** The lines of a translated text, each one with its line end. *)
Fixpoint lines_keepends (s : str) : list str :=
  match s with
  | [] => []
  | c :: s' =>
      if Ascii.eqb c "010" then [c] :: lines_keepends s'
      else match lines_keepends s' with
           | [] => [[c]]
           | l :: ls => (c :: l) :: ls
           end
  end.

(** [fp.readlines()] on the content of a file opened in text mode. *)
Definition readlines (content : str) : list str :=
  lines_keepends (universal_newlines content).

End Py.

Import Py.

(** ** POSIX paths *)

Module OsPath.

Definition sep : str := "/".

(** [os.path.join(a, b)]. *)
Definition join2 (a b : str) : str :=
  if startswith "/" b then b
  else match a with
       | [] => b
       | _ :: _ => if endswith "/" a then a ++ b else a ++ "/" ++ b
       end.

(** [os.path.join(a, *p)]. *)
Definition join (a : str) (p : list str) : str := fold_left join2 p a.

(** [posixpath.split] before it trims the head: the text up to and with
    the last separator, and the text after it. *)
Fixpoint split_last (p : str) : str * str :=
  match p with
  | [] => ([], [])
  | c :: p' =>
      let (h, t) := split_last p' in
      match h with
      | [] => if Ascii.eqb c "/" then ([c], t) else ([], c :: t)
      | _ :: _ => (c :: h, t)
      end
  end.

(** [os.path.basename(p)]. *)
Definition basename (p : str) : str := snd (split_last p).

Fixpoint lstrip_sep (s : str) : str :=
  match s with
  | [] => []
  | c :: s' => if Ascii.eqb c "/" then lstrip_sep s' else s
  end.

(** [os.path.dirname(p)]: the head without its trailing separators, unless
    it is made of separators only. *)
Definition dirname (p : str) : str :=
  let head := fst (split_last p) in
  if forallb (Ascii.eqb "/") head then head
  else rev (lstrip_sep (rev head)).

End OsPath.

(** ** Module constants *)

(** Lines 22 and 23: the two directories above the file of the module,
    [file] being its [__file__]. *)
Definition _PACKAGE_ROOT (file : str) : str := OsPath.dirname file.
Definition _PROJECT_ROOT (file : str) : str :=
  OsPath.dirname (_PACKAGE_ROOT file).

(** ** The file system *)

Abbreviation filesystem := (gmap (list ascii) (list ascii)).

(** ** Requirement loader *)

(** The body of the [for ln in lines] loop of [_load_requirements]. *)
Definition requirement_step (comment_char : str) (reqs : list str) (ln : str)
  : list str :=
  let ln := if contains comment_char ln
            then strip (firstn (index comment_char ln) ln) else ln in
  if startswith "http" ln then reqs
  else if startswith "--extra-index-url" ln then reqs
  else match ln with
       | [] => reqs
       | _ :: _ => reqs ++ [ln]
       end.

(** [_load_requirements] once the file is open: [content] is what the file
    holds. *)
Definition load_requirements_from (content comment_char : str) : list str :=
  let lines := map strip (readlines content) in
  fold_left (requirement_step comment_char) lines [].

(** [_load_requirements(path_dir, file_name, comment_char)]; a missing file
    raises. *)
Definition _load_requirements (fs : filesystem)
    (path_dir file_name comment_char : str) : option (list str) :=
  match fs !! OsPath.join path_dir [file_name] with
  | Some content => Some (load_requirements_from content comment_char)
  | None => None
  end.

(** The requirement loader in the words of the specification: truncate each
    line at the first comment marker, trim it, and keep the lines that are
    neither empty, nor a URL, nor an index-url directive. *)
Definition truncate_at (comment_char ln : str) : str :=
  match find comment_char ln with
  | Some i => firstn i ln
  | None => ln
  end.

Definition spec_requirement_line (comment_char ln : str) : str :=
  strip (truncate_at comment_char ln).

Definition spec_keeps (ln : str) : bool :=
  negb (Nat.eqb (length ln) 0)
  && negb (startswith "http" ln)
  && negb (startswith "--extra-index-url" ln).

Definition spec_requirements (content comment_char : str) : list str :=
  List.filter spec_keeps
    (map (spec_requirement_line comment_char) (readlines content)).

(** ** Description rewriter *)

Definition skip_begin : str :=
  "<!-- following section will be skipped from PyPI description -->".
Definition skip_end : str := "<!-- end skipping PyPI description -->".

(** A match of the pattern [skip_begin .+? skip_end] (flags [IGNORECASE] and
    [DOTALL]) at the head of [s]: the begin marker, the least positive
    number of characters of any kind, the end marker.  The result is the
    length of the matched text. *)
Definition match_skipped (s : str) : option nat :=
  if startswith_nocase skip_begin s then
    match find_nocase skip_end (skipn (length skip_begin + 1) s) with
    | Some k => Some (length skip_begin + 1 + k + length skip_end)
    | None => None
    end
  else None.

(** The replacement text of the substitution. *)
Definition placeholder : str := "<!--  -->".

(** [re.sub(rf"{skip_begin}.+?{skip_end}", "<!--  -->", text, flags=...)]. *)
Definition remove_skipped (text : str) : str :=
  scan match_skipped placeholder 0 text.

(** The five substring substitutions of [_load_readme_description]. *)
Definition substitute_links (homepage ver text : str) : str :=
  let github_source_url := OsPath.join homepage ["raw" : str; ver] in
  let text := replace "docs/source/_static/"
                (OsPath.join github_source_url ["docs/source/_static/" : str])
                text in
  let text := replace "badge/?version=stable" ("badge/?version=" ++ ver) text in
  let text := replace "lightning.readthedocs.io/en/stable/"
                ("lightning.readthedocs.io/en/" ++ ver) text in
  let text := replace "/branch/master/graph/badge.svg"
                ("/release/" ++ ver ++ "/graph/badge.svg") text in
  replace "badge.svg?branch=master&event=push" ("badge.svg?tag=" ++ ver) text.

(** [_load_readme_description] once the README is read: [text] is its
    content. *)
Definition rewrite_description (homepage ver text : str) : str :=
  remove_skipped (substitute_links homepage ver text).

(** [_load_readme_description(path_dir, homepage, ver)]; a missing README
    raises. *)
Definition _load_readme_description (fs : filesystem)
    (path_dir homepage ver : str) : option str :=
  match fs !! OsPath.join path_dir ["README.md" : str] with
  | Some content =>
      Some (rewrite_description homepage ver (universal_newlines content))
  | None => None
  end.

(** ** Meta-package generator *)

Definition KEEP_FILES : list str :=
  ["_logger" : str; "_root_logger" : str; "_console" : str; "formatter" : str;
   "_PACKAGE_ROOT" : str; "_PROJECT_ROOT" : str].

Definition entry_names : list str := ["__init__.py" : str; "__main__.py" : str].

(** [ln[: ln.index("#")] if "#" in ln else ln], then [rstrip]. *)
Definition code_of_line (ln : str) : str :=
  rstrip (if contains "#" ln then firstn (index "#" ln) ln else ln).

(** [re.match(r"^([\w+_]+) =", ln)]: the captured name.  The class holds no
    space, so the name is the whole run of class characters at the start. *)
Definition is_name_char (c : ascii) : bool :=
  is_word c || Ascii.eqb c "+" || Ascii.eqb c "_".

Definition match_assignment (ln : str) : option str :=
  let (name, rest) := span is_name_char ln in
  match name with
  | [] => None
  | _ :: _ => if startswith " =" rest then Some name else None
  end.

(** [f"from {import_path} import {name}  # noqa: F401"]. *)
Definition import_line (import_path name : str) : str :=
  "from " ++ import_path ++ " import " ++ name ++ "  # noqa: F401".

(** [len(ln) - len(ln.lstrip())]. *)
Definition indent (ln : str) : nat := length ln - length (lstrip ln).

(** *** Entry files *)

Definition entry_import_path (pkg_name local_path : str) : str :=
  let dirs := List.filter (fun d => negb (Nat.eqb (length d) 0))
                (split "/" (OsPath.dirname local_path)) in
  join "." (pkg_name :: dirs).

(** The body of the loop over the lines of [__init__.py] or [__main__.py]. *)
Definition entry_step (pkg_name new_pkg local_path : str) (body : list str)
    (raw : str) : list str :=
  let ln := code_of_line raw in
  match match_assignment ln with
  | Some name =>
      if negb (bool_decide (name ∈ KEEP_FILES)) then body
      else if startswith "__" name && negb (bool_decide (name = ("__all__" : str)))
      then body
      else body ++ [import_line (entry_import_path pkg_name local_path) name]
  | None =>
      if contains "import " ln && contains "-" ln then body
      else if negb (contains "__about__" ln)
      then body ++ [replace pkg_name new_pkg ln]
      else body
  end.

Definition entry_body (pkg_name new_pkg local_path : str) (lines : list str)
  : list str :=
  fold_left (entry_step pkg_name new_pkg local_path) lines [].

(** *** Module files *)

(** The variables the loop over the lines of a module file updates. *)
Record scan_state := { body : list str; skip_offset : nat }.

Definition module_import_path (pkg_name local_path : str) : str :=
  pkg_name ++ "." ++ replace "/" "." (replace ".py" "" local_path).

(** The defined name: the text of the line without [def ] and [class ], up
    to the first of the characters [(], [)] and [:]. *)
Definition defined_name (ln : str) : str :=
  strip (replace "class " "" (replace "def " "" ln)).

(** [name.index(s) if s in name else len(name)]. *)
Definition stop_index (s name : str) : nat :=
  if contains s name then index s name else length name.

(** [name[: min(idx)]], for [idx] over the three stop characters. *)
Definition cut_name (name : str) : str :=
  firstn (Nat.min (stop_index "(" name)
            (Nat.min (stop_index ")" name) (stop_index ":" name)))
    name.

(** The loop body from the computation of [import_path] on: what happens
    to a line that the skip watermark lets through. *)
Definition module_line (import_path ln : str) (st : scan_state) : scan_state :=
  if contains "-" import_path then st
  else
    let kept :=
      match match_assignment ln with
      | Some name =>
          if bool_decide (name ∈ KEEP_FILES)
          then Some (body st ++ [import_line import_path name])
          else None
      | None => Some (body st)
      end in
    match kept with
    | None => st
    | Some b =>
        let st := {| body := b; skip_offset := skip_offset st |} in
        if contains "import " ln && contains "-" ln then st
        else if startswith "def" (lstrip ln) || startswith "class" (lstrip ln)
        then
          let name := defined_name ln in
          if contains "on_before_run" name then st
          else
            let name := cut_name name in
            if startswith "__" name || contains "=" name then st
            else {| body := b ++ [import_line import_path name];
                    skip_offset := indent ln + 4 |}
        else st
    end.

(** The whole loop body: the skip watermark first, then the line. *)
Definition module_step (import_path : str) (st : scan_state) (raw : str)
  : scan_state :=
  let ln := code_of_line raw in
  if negb (Nat.eqb (skip_offset st) 0) && negb (Nat.eqb (length ln) 0) then
    let offset := indent ln in
    if Nat.leb (skip_offset st) offset then st
    else module_line import_path ln {| body := body st; skip_offset := offset |}
  else module_line import_path ln st.

Definition module_scan (import_path : str) (lines : list str) : scan_state :=
  fold_left (module_step import_path) lines {| body := []; skip_offset := 0 |}.

Definition module_body (pkg_name local_path : str) (lines : list str)
  : list str :=
  body (module_scan (module_import_path pkg_name local_path) lines).

(** *** Files *)

Inductive exn := FileNotFoundError (path : str) | SameFileError (path : str).

(** What a run has done so far: the files, and the warnings it logged. *)
Record world := { files : filesystem; warnings : list str }.

Inductive outcome := Done (w : world) | Raised (e : exn) (w : world).

(** [fp.writelines([ln + os.linesep for ln in body])]. *)
Definition stub_text (body : list str) : str :=
  concat (map (fun ln => ln ++ ["010"%char]) body).

(** [glob.glob(os.path.join(d, "*.py"))]: the files right under [d] whose
    name ends in [.py] and does not start with a dot. *)
Definition glob_py (fs : filesystem) (d : str) : list str :=
  List.filter
    (fun k => let n := OsPath.basename k in
              bool_decide (k = OsPath.join d [n])
              && endswith ".py" n && negb (startswith "." n))
    (map fst (map_to_list fs)).

(** [shutil.copy(src, dst)] between two files. *)
Definition copy (src dst : str) (w : world) : outcome :=
  match files w !! src with
  | None => Raised (FileNotFoundError src) w
  | Some text =>
      if bool_decide (src = dst) then Raised (SameFileError src) w
      else Done {| files := <[dst := text]> (files w); warnings := warnings w |}
  end.

(** The loop that copies the entry files of the new package one level up. *)
Fixpoint copy_entries (folder new_pkg : str) (py_files : list str) (w : world)
  : outcome :=
  match py_files with
  | [] => Done w
  | py_file :: rest =>
      let fname := OsPath.basename py_file in
      if negb (bool_decide (fname ∈ entry_names))
      then copy_entries folder new_pkg rest w
      else
        match copy py_file
                (OsPath.join folder [hd [] (split "." new_pkg); fname]) w with
        | Done w' => copy_entries folder new_pkg rest w'
        | Raised e w' => Raised e w'
        end
  end.

(** Lines 162 to 172: write the stub, then copy the entry files. *)
Definition write_stub (folder new_pkg local_path : str) (body : list str)
    (w : world) : outcome :=
  let new_dir := replace "." OsPath.sep new_pkg in
  let new_file := OsPath.join folder [new_dir; local_path] in
  let w := {| files := <[new_file := stub_text body]> (files w);
              warnings := warnings w |} in
  copy_entries folder new_pkg (glob_py (files w) (OsPath.join folder [new_dir])) w.

(** The body of the loop over the discovered files. *)
Definition process_file (package_dir folder new_pkg py_file : str) (w : world)
  : outcome :=
  let pkg_name := OsPath.basename package_dir in
  let local_path := replace (package_dir ++ OsPath.sep) "" py_file in
  let fname := OsPath.basename py_file in
  if contains "-" fname then Done w
  else if bool_decide (fname ∈ entry_names) then
    match files w !! py_file with
    | None => Raised (FileNotFoundError py_file) w
    | Some text =>
        write_stub folder new_pkg local_path
          (entry_body pkg_name new_pkg local_path (readlines text)) w
    end
  else if startswith "_" fname
          && negb (bool_decide (fname ∈ ["__main__.py" : str]))
  then Done {| files := files w;
               warnings := warnings w ++ ["unsupported file: " ++ local_path] |}
  else
    match files w !! py_file with
    | None => Raised (FileNotFoundError py_file) w
    | Some text =>
        write_stub folder new_pkg local_path
          (module_body pkg_name local_path (readlines text)) w
    end.

(** [_create_meta_package(package_dir, folder, new_pkg)]; [py_files] is what
    the recursive glob of line 88 found. *)
Fixpoint _create_meta_package (package_dir folder new_pkg : str)
    (py_files : list str) (w : world) : outcome :=
  match py_files with
  | [] => Done w
  | py_file :: rest =>
      match process_file package_dir folder new_pkg py_file w with
      | Done w' => _create_meta_package package_dir folder new_pkg rest w'
      | Raised e w' => Raised e w'
      end
  end.

(** ** Notions used to state the properties *)

(** What one pass of the requirement loop makes of a line, before it decides
    to keep it. *)
Definition cleaned (comment_char ln : str) : str :=
  if contains comment_char ln
  then strip (firstn (index comment_char ln) ln) else ln.

(** A generated re-export statement. *)
Definition is_reexport (import_path s : str) : Prop :=
  exists name, s = import_line import_path name.

(** A line that starts with white space. *)
Definition indented (l : str) : bool :=
  match l with
  | c :: _ => is_space c
  | [] => false
  end.

(** The watermark rule in the words of the specification: a line strictly
    deeper than the watermark is skipped, any other line moves the watermark
    to its own indentation and is processed. *)
Definition watermark_rule_as_stated : Prop :=
  forall ip st raw,
    skip_offset st <> 0 -> code_of_line raw <> [] ->
    (skip_offset st < indent (code_of_line raw) -> module_step ip st raw = st)
    /\ (indent (code_of_line raw) <= skip_offset st ->
        module_step ip st raw
        = module_line ip (code_of_line raw)
            {| body := body st; skip_offset := indent (code_of_line raw) |}).

Definition nl : str := ["010"%char].

(** A requirements file for the examples. *)
Definition requirements_example : str :=
  "numpy>=1.17  # arrays" ++ nl ++ "   " ++ nl ++ "http://x/y.whl" ++ nl
  ++ "--extra-index-url u" ++ ["013"%char; "010"%char]
  ++ "# only a comment" ++ nl ++ "  torch  ".

(** A path component: not empty, and without a separator. *)
Definition component (d : str) : Prop := d <> [] /\ ~ In "/"%char d.

(** The entry-file rule in the words of the specification: the name is
    re-exported from the dotted form of the file's relative path, separators
    turned into dots and extension stripped, which is what line 137 computes
    for module files. *)
Definition entry_rule_as_stated : Prop :=
  forall pkg_name new_pkg local_path body raw name,
    match_assignment (code_of_line raw) = Some name ->
    In name KEEP_FILES ->
    entry_step pkg_name new_pkg local_path body raw
    = body ++ [import_line (module_import_path pkg_name local_path) name].

(** The world a run leaves behind, whether it ends or raises. *)
Definition world_of (o : outcome) : world :=
  match o with
  | Done w => w
  | Raised _ w => w
  end.

(** The rule on private files in the words of the specification: a file
    whose name starts with an underscore and is no entry name gets no stub,
    and a warning is logged. *)
Definition private_rule_as_stated : Prop :=
  forall package_dir folder new_pkg py_file w,
    startswith "_" (OsPath.basename py_file) = true ->
    ~ In (OsPath.basename py_file) entry_names ->
    exists msg,
      process_file package_dir folder new_pkg py_file w
      = Done {| files := files w; warnings := warnings w ++ [msg] |}.


(** Inputs of the examples: four discovered files, and a world that holds
    one of them. *)
Definition helper : str := "src/pkg/sub/_helper.py".
Definition hyphenated : str := "src/pkg/_a-b.py".
Definition source : str := "def foo():" ++ nl ++ "    return 1" ++ nl.
Definition world_with (py_file : str) : world :=
  {| files := {[ py_file := source ]}; warnings := [] |}.

(** ** Notions on occurrences *)

(** [q] occurs in [t]. *)
Definition occurs (q t : str) : Prop := exists a b, t = a ++ q ++ b.

(** The suffixes of a text that are not empty. *)
Fixpoint tails (s : str) : list str :=
  match s with
  | [] => []
  | _ :: s' => s :: tails s'
  end.

(** One of the two texts starts with the other. *)
Definition comparable (a b : str) : bool := startswith a b || startswith b a.

Definition comparable_nocase (a b : str) : bool :=
  startswith_nocase a b || startswith_nocase b a.

(** No occurrence of [q] can overlap one of [p], in any text. *)
Definition apart (q p : str) : bool :=
  forallb (fun w => negb (comparable w p)) (tails q)
  && forallb (fun l => negb (comparable l q)) (tails p).

Definition apart_nocase (q p : str) : bool :=
  forallb (fun w => negb (comparable_nocase w p)) (tails q)
  && forallb (fun l => negb (comparable_nocase l q)) (tails p).

(** A release version number: digits and dots, a digit first. *)
Definition is_digit (c : ascii) : bool := in_range 48 57 c.

Definition is_version (v : str) : bool :=
  match v with
  | d :: _ => is_digit d && forallb (fun c => is_digit c || Ascii.eqb c ".") v
  | [] => false
  end.

(** The checks on a search text [q], when [p] is replaced by
    [rf ++ v ++ rs] for a version number [v]: [q] has no digit and starts
    with neither a digit nor a dot; an end of [q] that starts [rf] starts
    [p] too; [q] starts no end of [rf]; an end of [rs] that overlaps the
    start of [q] ends [p] too. *)
Definition plain (q : str) : bool :=
  match q with
  | c :: _ => negb (is_digit c || Ascii.eqb c ".")
              && forallb (fun x => negb (is_digit x)) q
  | [] => false
  end.

Definition front_safe (q p rf : str) : bool :=
  forallb (fun w => implb (startswith w rf) (startswith w p)) (tails q).

Definition inside_safe (q rf : str) : bool :=
  forallb (fun y => negb (startswith q y)) (tails rf).

Definition back_safe (q p rs : str) : bool :=
  forallb (fun l => implb (comparable l q)
                      (endswith l p && Nat.ltb (length l) (length q)))
    (tails rs).

(** The replacement of [p] by [rf ++ v ++ rs] makes no new occurrence of
    [q]. *)
Definition safe_after (q p rf rs : str) : bool :=
  plain q && front_safe q p rf && inside_safe q rf && back_safe q p rs.

(** The replacement of [p] by [rf ++ v ++ rs] leaves no occurrence of [p]. *)
Definition gone_after (p rf rs : str) : bool :=
  plain p && front_safe p p rf && inside_safe p rf
  && forallb (fun l => negb (comparable l p)) (tails rs).

(** ** Notions on the skipped sections *)

(** Two texts that differ by the case of their letters only. *)
Definition same_nocase (u v : str) : Prop := map lower u = map lower v.

(** The end marker occurs in [x], in any case of its letters. *)
Definition ends_later (x : str) : Prop :=
  exists a b, x = a ++ b /\ startswith_nocase skip_end b = true.

(** Somewhere in [t] the pattern of the skipped sections matches. *)
Definition has_section (t : str) : bool :=
  existsb (fun b => match match_skipped b with Some _ => true | None => false end)
    (tails t).

(** A README for the examples: a link, a badge, a skipped section, and a
    begin marker that no end marker follows. *)
Definition readme_example : str :=
  "[docs](https://lightning.readthedocs.io/en/stable/) "
  ++ "![b](https://readthedocs.org/projects/x/badge/?version=stable)"
  ++ skip_begin ++ "logo" ++ skip_end ++ skip_begin.

(** A document with a badge, and with two markers that delimit nothing. *)
Definition badge_example : str :=
  "<a href=x>![b](https://rtd.org/x/badge/?version=stable)</a>"
  ++ skip_begin ++ skip_end.

(** ** The claims on the description rewriter, as stated *)

(** Idempotence for every text, homepage and version. *)
Definition rewrite_idempotent_as_stated : Prop :=
  forall homepage ver text,
    rewrite_description homepage ver (rewrite_description homepage ver text)
    = rewrite_description homepage ver text.


(** ** Notions used to state the further properties *)

(** What every loaded requirement looks like. *)
Definition well_formed (comment_char r : str) : Prop :=
  r <> [] /\ strip r = r /\ contains comment_char r = false
  /\ startswith "http" r = false /\ startswith "--extra-index-url" r = false
  /\ ~ In "010"%char r /\ ~ In "013"%char r.

(** [p] does not occur in [rf], and no end of [p] starts [rf]: with a
    version number [v], no occurrence of [rf ++ v] overlaps one of [p]. *)
Definition clear_of (rf p : str) : bool :=
  negb (contains p rf) && forallb (fun l => negb (startswith l rf)) (tails p).

(** A README without links to rewrite. *)
Definition plain_readme : str :=
  "# Title" ++ ["013"%char; "010"%char] ++ "See <docs/index.md>." ++ nl.

(** The parts of a module file, as the loop over its lines sees them: a
    definition at column 0 with the lines of its body, an assignment at
    column 0, and any other line. *)
Inductive part :=
| Block (name raw : str) (block : list str)
| Assignment (name raw : str)
| Line (raw : str).

Definition lines_of (p : part) : list str :=
  match p with
  | Block _ raw block => raw :: block
  | Assignment _ raw => [raw]
  | Line raw => [raw]
  end.

(** The names that a part gives to the stub. *)
Definition exports_of (p : part) : list str :=
  match p with
  | Block name _ _ => [name]
  | Assignment name _ =>
      if bool_decide (name ∈ KEEP_FILES) then [name] else []
  | Line _ => []
  end.

(** [raw] defines [name] at column 0: [def name(], [class name(] or
    [class name:], with a name of word characters that does not start with
    two underscores; the line is no import with a hyphen and does not
    mention [on_before_run]. *)
Definition defines (raw name : str) : Prop :=
  exists kw c rest,
    code_of_line raw = kw ++ name ++ c :: rest
    /\ (kw = "def " \/ kw = "class ")
    /\ name <> [] /\ forallb is_word name = true
    /\ (c = "("%char \/ c = ":"%char)
    /\ startswith "__" name = false
    /\ contains "import " (code_of_line raw)
       && contains "-" (code_of_line raw) = false
    /\ contains "on_before_run" (defined_name (code_of_line raw)) = false.

(** A line of the body of a definition at column 0: blank, or indented by
    four columns at least. *)
Definition inside (raw : str) : Prop :=
  code_of_line raw = [] \/ 4 <= indent (code_of_line raw).

(** A line that is neither an assignment to a keep-list name nor the start
    of a definition. *)
Definition neutral (raw : str) : Prop :=
  (forall name, match_assignment (code_of_line raw) = Some name ->
                ~ In name KEEP_FILES)
  /\ startswith "def" (lstrip (code_of_line raw))
     || startswith "class" (lstrip (code_of_line raw)) = false.

Definition well_parted (p : part) : Prop :=
  match p with
  | Block name raw block => defines raw name /\ Forall inside block
  | Assignment name raw => match_assignment (code_of_line raw) = Some name
  | Line raw => neutral raw
  end.

(** A module for the examples. *)
Definition module_example : list part :=
  [Line ("import os  # std" ++ nl);
   Line nl;
   Assignment "_logger" ("_logger = logging.getLogger(__name__)" ++ nl);
   Assignment "VERSION" ("VERSION = 1" ++ nl);
   Block "Trainer" ("class Trainer(Base):" ++ nl)
     ["    def fit(self):" ++ nl; "        return 1" ++ nl; nl];
   Line ("@cached" ++ nl);
   Block "run" ("def run(x):  # entry" ++ nl) ["    return x" ++ nl]].


(** The path to which line 172 copies an entry file of the new package. *)
Definition copy_target (folder new_pkg fname : str) : str :=
  OsPath.join folder [hd [] (split "." new_pkg); fname].

(** A discovered file that lines 118 to 120 pass over with a warning. *)
Definition unsupported (py_file : str) : bool :=
  let fname := OsPath.basename py_file in
  negb (contains "-" fname) && negb (bool_decide (fname ∈ entry_names))
  && startswith "_" fname.

Definition unsupported_message (package_dir py_file : str) : str :=
  "unsupported file: " ++ replace (package_dir ++ OsPath.sep) "" py_file.

(** A file that line 92 lets through. *)
Definition no_hyphen (py_file : str) : bool :=
  negb (contains "-" (OsPath.basename py_file)).

(** A package for the examples: an entry file, a module, a private module
    and a module whose name has a hyphen. *)
Definition init_source : str :=
  "from lightning_app.__about__ import *  # noqa" ++ nl
  ++ "_logger = logging.getLogger(__name__)" ++ nl
  ++ "import lightning_app.core" ++ nl.

Definition package_world : world :=
  {| files := {[ ("src/lightning_app/__init__.py" : str) := init_source;
                 ("src/lightning_app/core.py" : str) := source;
                 ("src/lightning_app/_helper.py" : str) := source;
                 ("src/lightning_app/a-b.py" : str) := source ]};
     warnings := [] |}.

Definition package_files : list str :=
  ["src/lightning_app/a-b.py" : str; "src/lightning_app/__init__.py" : str;
   "src/lightning_app/_helper.py" : str; "src/lightning_app/core.py" : str].

(** ** Tactics *)

(** Closes a goal that says that a body has grown by re-export statements:
    by none, by one or by two. *)
Ltac grows :=
  simpl;
  first
    [ exists []; split; [now rewrite app_nil_r | constructor]
    | eexists [_]; split;
      [reflexivity | repeat constructor; eexists; reflexivity]
    | eexists [_; _]; split;
      [now rewrite <- app_assoc
      | repeat constructor; eexists; reflexivity] ].

(** * Properties *)

(** ** Trimming and searching *)

Section Trimming.

Lemma lstrip_all_space (a : str) :
  forallb is_space a = true -> lstrip a = [].
Proof.
  induction a as [|x a IH]; simpl; [reflexivity|].
  intros H. apply andb_prop in H as [Hx Ha]. rewrite Hx. auto.
Qed.

Lemma lstrip_cases (a : str) :
  (forallb is_space a = true /\ lstrip a = [])
  \/ (exists ws c b, a = ws ++ c :: b /\ forallb is_space ws = true
                     /\ is_space c = false /\ lstrip a = c :: b).
Proof.
  induction a as [|x a IH]; simpl.
  - left. split; reflexivity.
  - destruct (is_space x) eqn:Hx.
    + destruct IH as [[Hall Hl]|(ws & c & b & -> & Hws & Hc & Hl)].
      * left. split; assumption.
      * right. exists (x :: ws), c, b. simpl. rewrite Hx. auto.
    + right. exists [], x, a. auto.
Qed.

Lemma lstrip_app_nonspace (a : str) c (b : str) :
  is_space c = false -> lstrip (a ++ c :: b) = lstrip a ++ c :: b.
Proof.
  intros Hc. induction a as [|x a IH]; simpl.
  - now rewrite Hc.
  - destruct (is_space x); [exact IH | reflexivity].
Qed.

Lemma rstrip_app_nonspace (a : str) c (b : str) :
  is_space c = false -> rstrip (a ++ c :: b) = a ++ c :: rstrip b.
Proof.
  intros Hc. unfold rstrip. rewrite rev_app_distr. simpl.
  rewrite <- app_assoc. simpl. rewrite lstrip_app_nonspace by assumption.
  rewrite rev_app_distr. simpl. rewrite rev_involutive.
  rewrite <- app_assoc. reflexivity.
Qed.

Lemma rstrip_all_space (a : str) :
  forallb is_space a = true -> rstrip a = [].
Proof.
  intros H. unfold rstrip. rewrite lstrip_all_space; [reflexivity|].
  rewrite forallb_forall in H. rewrite forallb_forall. intros x Hx.
  apply H. apply in_rev. exact Hx.
Qed.

Lemma lstrip_idem (a : str) : lstrip (lstrip a) = lstrip a.
Proof.
  induction a as [|x a IH]; simpl; [reflexivity|].
  destruct (is_space x) eqn:Hx; [exact IH|]. simpl. now rewrite Hx.
Qed.

Lemma rstrip_lstrip (a : str) : rstrip (lstrip a) = lstrip (rstrip a).
Proof.
  destruct (lstrip_cases a) as [[Hall Hl]|(ws & c & b & -> & Hws & Hc & Hl)].
  - rewrite Hl. rewrite (rstrip_all_space a) by assumption. reflexivity.
  - rewrite Hl. change (c :: b) with ([] ++ c :: b) at 1.
    rewrite !rstrip_app_nonspace by assumption. simpl.
    rewrite lstrip_app_nonspace by assumption.
    rewrite lstrip_all_space by assumption. reflexivity.
Qed.

Lemma strip_lstrip (a : str) : strip (lstrip a) = strip a.
Proof. unfold strip. rewrite rstrip_lstrip. apply lstrip_idem. Qed.

Lemma in_lstrip x (a : str) : In x (lstrip a) -> In x a.
Proof.
  induction a as [|y a IH]; simpl; [tauto|].
  destruct (is_space y); simpl; tauto.
Qed.

Lemma in_strip x (a : str) : In x (strip a) -> In x a.
Proof.
  unfold strip, rstrip. intros H. apply in_lstrip in H.
  apply in_rev in H. apply in_lstrip in H. now apply in_rev.
Qed.

End Trimming.

(** Searching for a one-character marker. *)
Section FindChar.

Variable c : ascii.

Lemma find_char_none (l : str) : ~ In c l -> find [c] l = None.
Proof.
  induction l as [|x l IH]; simpl; [reflexivity|].
  intros H. destruct (Ascii.eqb_spec c x) as [->|Hne].
  - exfalso. apply H. now left.
  - simpl. rewrite IH; [reflexivity | tauto].
Qed.

Lemma find_char_first (a b : str) :
  ~ In c a -> find [c] (a ++ c :: b) = Some (length a).
Proof.
  induction a as [|x a IH]; simpl.
  - now rewrite Ascii.eqb_refl.
  - intros H. destruct (Ascii.eqb_spec c x) as [->|Hne].
    + exfalso. apply H. now left.
    + simpl. rewrite IH; [reflexivity | tauto].
Qed.

Lemma in_first_split (l : str) :
  In c l -> exists a b, l = a ++ c :: b /\ ~ In c a.
Proof.
  induction l as [|x l IH]; simpl; [tauto|].
  intros H. destruct (Ascii.eqb_spec c x) as [->|Hne].
  - exists [], l. simpl. tauto.
  - destruct H as [H|H]; [congruence|].
    destruct (IH H) as (a & b & -> & Ha).
    exists (x :: a), b. simpl. split; [reflexivity|]. intros [E|E]; auto.
Qed.

End FindChar.

(** ** Requirement loader *)

Section Requirements.

Lemma requirement_step_keeps comment_char reqs ln :
  requirement_step comment_char reqs ln
  = if spec_keeps (cleaned comment_char ln)
    then reqs ++ [cleaned comment_char ln] else reqs.
Proof.
  unfold requirement_step, spec_keeps. fold (cleaned comment_char ln).
  destruct (startswith "http" (cleaned comment_char ln));
    [now rewrite andb_false_r|].
  destruct (startswith "--extra-index-url" (cleaned comment_char ln));
    [now rewrite andb_false_r|].
  destruct (cleaned comment_char ln); reflexivity.
Qed.

Lemma requirement_loop comment_char lines reqs :
  fold_left (requirement_step comment_char) lines reqs
  = reqs ++ List.filter spec_keeps (map (cleaned comment_char) lines).
Proof.
  revert reqs. induction lines as [|ln lines IH]; intros reqs; simpl.
  - now rewrite app_nil_r.
  - rewrite IH, requirement_step_keeps.
    destruct (spec_keeps (cleaned comment_char ln)); [|reflexivity].
    now rewrite <- app_assoc.
Qed.

(** Trimming a raw line first, as the source does, changes nothing when
    the marker is one character that is not white space. *)
Lemma cleaned_strip c (l : str) :
  is_space c = false ->
  cleaned [c] (strip l) = spec_requirement_line [c] l.
Proof.
  intros Hc. unfold cleaned, spec_requirement_line, truncate_at, contains, index.
  destruct (in_dec ascii_dec c l) as [Hin|Hout].
  - destruct (in_first_split c l Hin) as (a & b & -> & Ha).
    rewrite (find_char_first c a b Ha).
    rewrite firstn_app, Nat.sub_diag, firstn_all. simpl. rewrite app_nil_r.
    assert (Hs : strip (a ++ c :: b) = lstrip a ++ c :: rstrip b).
    { unfold strip. rewrite rstrip_app_nonspace by assumption.
      now apply lstrip_app_nonspace. }
    rewrite Hs.
    assert (Hl : ~ In c (lstrip a)) by (intros H; apply Ha; now apply in_lstrip).
    rewrite (find_char_first c _ _ Hl).
    rewrite firstn_app, Nat.sub_diag, firstn_all. simpl. rewrite app_nil_r.
    apply strip_lstrip.
  - rewrite (find_char_none c l Hout).
    assert (Hs : ~ In c (strip l)) by (intros H; apply Hout; now apply in_strip).
    now rewrite (find_char_none c _ Hs).
Qed.

(** C3.  For every content of the requirements file, the loader returns
    exactly the lines that, truncated at the first comment marker and
    trimmed, are not empty and start neither with [http] nor with
    [--extra-index-url], in the order of the file.  The comment marker is
    any one character that is not white space; the default is [#]. *)
Theorem load_requirements_spec (fs : filesystem)
    (path_dir file_name content : str) (c : ascii) :
  fs !! OsPath.join path_dir [file_name] = Some content ->
  is_space c = false ->
  _load_requirements fs path_dir file_name [c]
  = Some (spec_requirements content [c]).
Proof.
  intros Hf Hc. unfold _load_requirements. rewrite Hf. f_equal.
  unfold load_requirements_from, spec_requirements.
  rewrite requirement_loop. simpl. f_equal.
  rewrite map_map. apply map_ext. intros l. now apply cleaned_strip.
Qed.

Lemma load_requirements_spec_witness :
  (({[ ("proj/requirements.txt" : str) := requirements_example ]}
      : filesystem) !! OsPath.join "proj" ["requirements.txt" : str]
   = Some requirements_example
   /\ is_space "#" = false)
  /\ _load_requirements {[ ("proj/requirements.txt" : str)
                             := requirements_example ]}
       "proj" "requirements.txt" "#"
     = Some (spec_requirements requirements_example "#")
  /\ spec_requirements requirements_example "#"
     = ["numpy>=1.17" : str; "torch" : str].
Proof.
  split; [split; vm_compute; reflexivity|]. split.
  - apply (load_requirements_spec _ "proj" "requirements.txt"
             requirements_example "#"%char); vm_compute; reflexivity.
  - vm_compute; reflexivity.
Defined.

End Requirements.

(** ** Module files: the skip watermark and the stub lines *)

Section ModuleFiles.

Lemma module_line_grows ip ln st :
  exists extra, body (module_line ip ln st) = body st ++ extra
                /\ Forall (is_reexport ip) extra.
Proof.
  unfold module_line.
  repeat match goal with
         | |- context [match match_assignment ?l with _ => _ end] =>
             destruct (match_assignment l)
         | |- context [if ?b then _ else _] => destruct b
         end; grows.
Qed.

Lemma module_step_grows ip st raw :
  exists extra, body (module_step ip st raw) = body st ++ extra
                /\ Forall (is_reexport ip) extra.
Proof.
  unfold module_step.
  destruct (negb (Nat.eqb (skip_offset st) 0)
            && negb (Nat.eqb (length (code_of_line raw)) 0)).
  - destruct (Nat.leb (skip_offset st) (indent (code_of_line raw))).
    + exists []. split; [now rewrite app_nil_r | constructor].
    + apply (module_line_grows ip (code_of_line raw)
               {| body := body st;
                  skip_offset := indent (code_of_line raw) |}).
  - apply module_line_grows.
Qed.

Lemma module_loop_grows ip lines st :
  exists extra,
    body (fold_left (module_step ip) lines st) = body st ++ extra
    /\ Forall (is_reexport ip) extra.
Proof.
  revert st. induction lines as [|raw lines IH]; intros st; simpl.
  - exists []. split; [now rewrite app_nil_r | constructor].
  - destruct (IH (module_step ip st raw)) as (e2 & -> & H2).
    destruct (module_step_grows ip st raw) as (e1 & -> & H1).
    exists (e1 ++ e2). split; [now rewrite app_assoc|].
    apply Forall_app. auto.
Qed.

Lemma reexport_not_prefix_of_indented ip s l :
  is_reexport ip s -> indented l = true -> startswith s l = false.
Proof.
  intros [name ->] Hl. destruct l as [|c l]; [discriminate|].
  simpl in Hl. unfold import_line.
  cbn [list_ascii_of_string app startswith].
  destruct (Ascii.eqb_spec "f" c) as [<-|]; [discriminate | reflexivity].
Qed.

(** The watermark rule, as the loop has it. *)
Lemma module_step_watermark ip st raw :
  skip_offset st <> 0 -> code_of_line raw <> [] ->
  module_step ip st raw
  = if Nat.leb (skip_offset st) (indent (code_of_line raw)) then st
    else module_line ip (code_of_line raw)
           {| body := body st; skip_offset := indent (code_of_line raw) |}.
Proof.
  intros Hs Hl. unfold module_step.
  destruct (Nat.eqb_spec (skip_offset st) 0); [contradiction|].
  destruct (code_of_line raw); [contradiction|]. reflexivity.
Qed.

(** How the loop treats a line that defines a function or a class. *)
Lemma module_line_definition ip ln st name :
  contains "-" ip = false ->
  match_assignment ln = None ->
  contains "import " ln && contains "-" ln = false ->
  startswith "def" (lstrip ln) || startswith "class" (lstrip ln) = true ->
  contains "on_before_run" (defined_name ln) = false ->
  cut_name (defined_name ln) = name ->
  startswith "__" name || contains "=" name = false ->
  module_line ip ln st
  = {| body := body st ++ [import_line ip name];
       skip_offset := indent ln + 4 |}.
Proof.
  intros H1 H2 H3 H4 H5 H6 H7. unfold module_line.
  rewrite H1, H2, H3, H4, H5, H6, H7. reflexivity.
Qed.

Lemma module_step_def_foo ip st raw :
  contains "-" ip = false ->
  code_of_line raw = "def foo():" ->
  module_step ip st raw
  = {| body := body st ++ [import_line ip "foo"]; skip_offset := 4 |}.
Proof.
  intros Hip Hraw. unfold module_step. rewrite Hraw.
  assert (Hi : indent "def foo():" = 0) by (vm_compute; reflexivity).
  rewrite Hi.
  assert (E : forall st', body st' = body st ->
            module_line ip "def foo():" st'
            = {| body := body st ++ [import_line ip "foo"];
                 skip_offset := 4 |}).
  { intros st' Hb.
    rewrite (module_line_definition ip "def foo():" st' "foo");
      try (vm_compute; reflexivity); try assumption.
    rewrite Hb, Hi. reflexivity. }
  destruct (negb (Nat.eqb (skip_offset st) 0) && _) eqn:Hc.
  - destruct (Nat.leb (skip_offset st) 0) eqn:Hle.
    + apply Nat.leb_le in Hle. apply andb_prop in Hc as [Hc _].
      apply negb_true_iff, Nat.eqb_neq in Hc. lia.
    + apply E. reflexivity.
  - apply E. reflexivity.
Qed.

End ModuleFiles.

(** ** The claims on module files *)

Section ModuleClaims.

(** C2 (amended).  While the skip watermark is active, a non-blank line
    whose leading white space is at least as wide as the watermark is
    skipped; a non-blank line that is strictly shallower moves the
    watermark to its own indentation and is then processed as any line. *)
Theorem watermark_rule ip st raw :
  skip_offset st <> 0 -> code_of_line raw <> [] ->
  (skip_offset st <= indent (code_of_line raw) -> module_step ip st raw = st)
  /\ (indent (code_of_line raw) < skip_offset st ->
      module_step ip st raw
      = module_line ip (code_of_line raw)
          {| body := body st; skip_offset := indent (code_of_line raw) |}).
Proof.
  intros Hs Hl. rewrite (module_step_watermark ip st raw Hs Hl). split.
  - intros H. apply Nat.leb_le in H. now rewrite H.
  - intros H. apply Nat.leb_gt in H. now rewrite H.
Qed.

Lemma watermark_rule_witness :
  (skip_offset {| body := []; skip_offset := 4 |} <> 0
   /\ code_of_line ("class B:" ++ nl) <> [])
  /\ (4 <= indent (code_of_line ("class B:" ++ nl)) ->
      module_step "pkg.mod" {| body := []; skip_offset := 4 |}
        ("class B:" ++ nl)
      = {| body := []; skip_offset := 4 |})
  /\ (indent (code_of_line ("class B:" ++ nl)) < 4 ->
      module_step "pkg.mod" {| body := []; skip_offset := 4 |}
        ("class B:" ++ nl)
      = module_line "pkg.mod" (code_of_line ("class B:" ++ nl))
          {| body := [];
             skip_offset := indent (code_of_line ("class B:" ++ nl)) |}).
Proof.
  split.
  - split; vm_compute; discriminate.
  - apply (watermark_rule "pkg.mod" {| body := []; skip_offset := 4 |}
             ("class B:" ++ nl)); vm_compute; discriminate.
Defined.

(** C2, as stated, fails: a line indented exactly at the watermark is
    skipped, it is not processed.  With the watermark at 4, the line
    [    def g():] leaves the state as it is, while processing it would
    have emitted the re-export of [g]. *)
Lemma watermark_rule_counterexample :
  indent (code_of_line ("    def g():" ++ nl)) = 4
  /\ module_step "pkg.mod" {| body := []; skip_offset := 4 |}
       ("    def g():" ++ nl)
     = {| body := []; skip_offset := 4 |}
  /\ module_line "pkg.mod" (code_of_line ("    def g():" ++ nl))
       {| body := []; skip_offset := 4 |}
     = {| body := [import_line "pkg.mod" "g"]; skip_offset := 8 |}
  /\ ~ watermark_rule_as_stated.
Proof.
  split; [vm_compute; reflexivity|].
  split; [vm_compute; reflexivity|].
  split; [vm_compute; reflexivity|].
  intros H.
  destruct (H "pkg.mod" {| body := []; skip_offset := 4 |}
              ("    def g():" ++ nl)) as [_ H2];
    [vm_compute; discriminate | vm_compute; discriminate |].
  assert (Hle : indent (code_of_line ("    def g():" ++ nl)) <= 4)
    by (vm_compute; lia).
  specialize (H2 Hle). vm_compute in H2. discriminate.
Qed.

Lemma module_body_reexports pkg_name local_path lines :
  Forall (is_reexport (module_import_path pkg_name local_path))
    (module_body pkg_name local_path lines).
Proof.
  unfold module_body, module_scan.
  destruct (module_loop_grows (module_import_path pkg_name local_path)
              lines {| body := []; skip_offset := 0 |}) as (e & -> & He).
  exact He.
Qed.

Lemma module_body_not_indented pkg_name local_path lines l s :
  indented l = true ->
  In s (module_body pkg_name local_path lines) ->
  s <> l /\ startswith s l = false.
Proof.
  intros Hl Hs.
  pose proof (module_body_reexports pkg_name local_path lines) as H.
  rewrite List.Forall_forall in H.
  pose proof (reexport_not_prefix_of_indented _ s l (H s Hs) Hl) as Hp.
  split; [|exact Hp].
  intros ->. destruct (H l Hs) as [name ->]. discriminate Hl.
Qed.

(** C8.  Every line of the stub of a module file is a generated re-export
    statement [from <import path> import <name>  # noqa: F401]; none of
    them starts with white space, so no indented line of the original, as
    the lines of a function or class body are, is a line of the stub, nor
    does it begin with one. *)
Theorem stub_lines_are_reexports pkg_name local_path lines :
  Forall (is_reexport (module_import_path pkg_name local_path))
    (module_body pkg_name local_path lines)
  /\ (forall l s, indented l = true ->
                  In s (module_body pkg_name local_path lines) ->
                  s <> l /\ startswith s l = false).
Proof.
  split; [apply module_body_reexports|].
  intros l s. apply module_body_not_indented.
Qed.

(** C5, as stated, fails for a module file in a directory whose name has
    a hyphen: every line is dropped, the one that defines [foo] too. *)
Lemma def_foo_stub_counterexample :
  module_body "pkg" "sub-dir/mod.py"
    (readlines ("def foo():" ++ nl ++ "    return 1" ++ nl)) = []
  /\ ~ In (import_line (module_import_path "pkg" "sub-dir/mod.py") "foo")
         (module_body "pkg" "sub-dir/mod.py"
            (readlines ("def foo():" ++ nl ++ "    return 1" ++ nl))).
Proof.
  assert (E : module_body "pkg" "sub-dir/mod.py"
                (readlines ("def foo():" ++ nl ++ "    return 1" ++ nl)) = [])
    by (vm_compute; reflexivity).
  split; [exact E|]. rewrite E. intros [].
Qed.

(** C5 (amended).  For a module file whose dotted import path has no
    hyphen and whose lines hold a top-level [def foo():] followed by
    indented lines, the stub holds the re-export of [foo], and no line of
    the stub is one of the indented lines or the beginning of one. *)
Theorem def_foo_stub pkg_name local_path (before body_lines after : list str)
    (def_line : str) :
  contains "-" (module_import_path pkg_name local_path) = false ->
  code_of_line def_line = "def foo():" ->
  Forall (fun l => indented l = true) body_lines ->
  In (import_line (module_import_path pkg_name local_path) "foo")
    (module_body pkg_name local_path
       (before ++ def_line :: body_lines ++ after))
  /\ (forall l s, In l body_lines ->
        In s (module_body pkg_name local_path
                (before ++ def_line :: body_lines ++ after)) ->
        s <> l /\ startswith s l = false).
Proof.
  intros Hip Hdef Hbody. split.
  - unfold module_body, module_scan. rewrite fold_left_app. simpl.
    rewrite (module_step_def_foo _ _ _ Hip Hdef).
    destruct (module_loop_grows (module_import_path pkg_name local_path)
                (body_lines ++ after)
                {| body := body (fold_left
                                   (module_step
                                      (module_import_path pkg_name local_path))
                                   before {| body := []; skip_offset := 0 |})
                           ++ [import_line
                                 (module_import_path pkg_name local_path)
                                 "foo"];
                   skip_offset := 4 |}) as (e & -> & _).
    simpl. apply in_or_app. left. apply in_or_app. right. now left.
  - intros l s Hl Hs. rewrite List.Forall_forall in Hbody.
    eapply module_body_not_indented; [apply Hbody, Hl | exact Hs].
Qed.

Lemma def_foo_stub_witness :
  (contains "-" (module_import_path "pkg" "sub/mod.py") = false
   /\ code_of_line ("def foo():  # c" ++ nl) = "def foo():"
   /\ Forall (fun l => indented l = true) ["    return 1" ++ nl])
  /\ In (import_line (module_import_path "pkg" "sub/mod.py") "foo")
       (module_body "pkg" "sub/mod.py"
          (["import os" ++ nl] ++ ("def foo():  # c" ++ nl)
           :: ["    return 1" ++ nl] ++ ["x = 1" ++ nl]))
  /\ (forall l s, In l ["    return 1" ++ nl] ->
        In s (module_body "pkg" "sub/mod.py"
                (["import os" ++ nl] ++ ("def foo():  # c" ++ nl)
                 :: ["    return 1" ++ nl] ++ ["x = 1" ++ nl])) ->
        s <> l /\ startswith s l = false).
Proof.
  split.
  - split; [vm_compute; reflexivity|].
    split; [vm_compute; reflexivity|]. repeat constructor.
  - apply (def_foo_stub "pkg" "sub/mod.py" ["import os" ++ nl]
             ["    return 1" ++ nl] ["x = 1" ++ nl]
             ("def foo():  # c" ++ nl)).
    + vm_compute; reflexivity.
    + vm_compute; reflexivity.
    + repeat constructor.
Defined.

End ModuleClaims.

(** ** Entry files *)

Section EntryFiles.

Lemma split_last_no_sep (t : str) :
  ~ In "/"%char t -> OsPath.split_last t = ([], t).
Proof.
  induction t as [|c t IH]; simpl; [reflexivity|].
  intros H. rewrite IH by tauto.
  destruct (Ascii.eqb_spec c "/") as [->|]; [|reflexivity].
  exfalso. apply H. now left.
Qed.

Lemma split_last_sep (a t : str) :
  ~ In "/"%char t -> OsPath.split_last (a ++ "/"%char :: t) = (a ++ ["/"%char], t).
Proof.
  intros H. induction a as [|c a IH]; simpl.
  - now rewrite (split_last_no_sep t H).
  - rewrite IH. destruct a; reflexivity.
Qed.

Lemma lstrip_sep_component (d x : str) :
  component d -> OsPath.lstrip_sep (rev d ++ x) = rev d ++ x.
Proof.
  intros [Hne Hs]. destruct (rev d) as [|c r] eqn:Hr.
  - exfalso. apply Hne. apply (f_equal (@rev ascii)) in Hr.
    now rewrite rev_involutive in Hr.
  - simpl. destruct (Ascii.eqb_spec c "/") as [->|]; [|reflexivity].
    exfalso. apply Hs. apply in_rev. rewrite Hr. now left.
Qed.

Lemma split_no_sep (d : str) : ~ In "/"%char d -> split "/" d = [d].
Proof.
  induction d as [|c d IH]; simpl; [reflexivity|].
  intros H. destruct (Ascii.eqb_spec c "/") as [->|].
  - exfalso. apply H. now left.
  - rewrite IH by tauto. reflexivity.
Qed.

Lemma split_sep (d rest : str) :
  ~ In "/"%char d -> split "/" (d ++ "/"%char :: rest) = d :: split "/" rest.
Proof.
  induction d as [|c d IH]; simpl; [reflexivity|].
  intros H. destruct (Ascii.eqb_spec c "/") as [->|].
  - exfalso. apply H. now left.
  - rewrite IH by tauto. reflexivity.
Qed.

Lemma split_join (dirs : list str) :
  Forall component dirs -> dirs <> [] -> split "/" (join "/" dirs) = dirs.
Proof.
  induction 1 as [|d dirs [_ Hd] Hr IH]; [congruence|].
  intros _. destruct dirs as [|d' dirs].
  - simpl. now apply split_no_sep.
  - change (join "/" (d :: d' :: dirs))
      with (d ++ "/"%char :: join "/" (d' :: dirs)).
    rewrite split_sep by assumption. rewrite IH by discriminate.
    reflexivity.
Qed.

Lemma join_snoc_nonempty (sep : str) (parts : list str) (f : str) :
  parts <> [] -> join sep (parts ++ [f]) = join sep parts ++ sep ++ f.
Proof.
  induction parts as [|d parts IH]; [congruence|]. intros _.
  destruct parts as [|d' parts]; [reflexivity|].
  change (join sep ((d :: d' :: parts) ++ [f]))
    with (d ++ sep ++ join sep ((d' :: parts) ++ [f])).
  rewrite IH by discriminate.
  change (join sep (d :: d' :: parts))
    with (d ++ sep ++ join sep (d' :: parts)).
  now rewrite <- !app_assoc.
Qed.

Lemma join_last_component (ds : list str) (d : str) :
  exists a, join "/" (ds ++ [d]) = a ++ d.
Proof.
  destruct ds as [|d0 ds]; [now exists []|].
  rewrite join_snoc_nonempty by discriminate.
  exists (join "/" (d0 :: ds) ++ "/"). now rewrite <- app_assoc.
Qed.

Lemma rstrip_sep_component (a d : str) :
  component d ->
  rev (OsPath.lstrip_sep (rev ((a ++ d) ++ ["/"%char]))) = a ++ d.
Proof.
  intros Hd. rewrite rev_app_distr. cbn [rev app OsPath.lstrip_sep].
  rewrite Ascii.eqb_refl, rev_app_distr.
  rewrite (lstrip_sep_component d _ Hd).
  now rewrite <- rev_app_distr, rev_involutive.
Qed.

Lemma not_all_sep (a d : str) :
  component d -> forallb (Ascii.eqb "/") ((a ++ d) ++ ["/"%char]) = false.
Proof.
  intros [Hne Hs]. apply not_true_is_false. intros Ht.
  rewrite forallb_forall in Ht. destruct d as [|c d]; [congruence|].
  assert (Hc : Ascii.eqb "/" c = true).
  { apply Ht. rewrite !in_app_iff. left. right. now left. }
  apply Ascii.eqb_eq in Hc. subst c. apply Hs. now left.
Qed.

(** The directory of a relative path made of components. *)
Lemma dirname_join (dirs : list str) (fname : str) :
  Forall component dirs -> ~ In "/"%char fname ->
  OsPath.dirname (join "/" (dirs ++ [fname])) = join "/" dirs.
Proof.
  intros Hd Hf. unfold OsPath.dirname.
  induction dirs as [|d ds _] using rev_ind.
  - change (join "/" ([] ++ [fname])) with fname.
    now rewrite (split_last_no_sep fname Hf).
  - apply Forall_app in Hd as [Hds Hd1]. apply Forall_inv in Hd1 as Hd1.
    rewrite join_snoc_nonempty by (destruct ds; discriminate).
    destruct (join_last_component ds d) as [a Ha]. rewrite Ha.
    change ((a ++ d) ++ "/" ++ fname) with ((a ++ d) ++ "/"%char :: fname).
    rewrite (split_last_sep _ fname Hf). cbn [fst].
    rewrite (not_all_sep a d Hd1). now apply rstrip_sep_component.
Qed.

Lemma filter_components (dirs : list str) :
  Forall component dirs ->
  List.filter (fun d : str => negb (Nat.eqb (length d) 0)) dirs = dirs.
Proof.
  induction 1 as [|d dirs [Hne _] _ IH]; [reflexivity|].
  cbn [List.filter]. rewrite IH. destruct d; [congruence | reflexivity].
Qed.

(** The import path of an entry file: the package name followed by the
    directories of the relative path, the file name left out. *)
Lemma entry_import_path_dirs pkg_name (dirs : list str) (fname : str) :
  Forall component dirs -> ~ In "/"%char fname ->
  entry_import_path pkg_name (join "/" (dirs ++ [fname]))
  = join "." (pkg_name :: dirs).
Proof.
  intros Hd Hf. unfold entry_import_path.
  rewrite (dirname_join dirs fname Hd Hf).
  destruct dirs as [|d dirs]; [reflexivity|].
  rewrite split_join by (assumption || discriminate).
  now rewrite filter_components.
Qed.

Lemma keep_files_not_private name :
  In name KEEP_FILES -> startswith "__" name = false.
Proof.
  unfold KEEP_FILES.
  intros H. repeat (destruct H as [<-|H]; [vm_compute; reflexivity|]).
  destruct H.
Qed.

Lemma entry_step_assignment pkg_name new_pkg local_path body raw name :
  match_assignment (code_of_line raw) = Some name ->
  In name KEEP_FILES ->
  entry_step pkg_name new_pkg local_path body raw
  = body ++ [import_line (entry_import_path pkg_name local_path) name].
Proof.
  intros Hm Hk. unfold entry_step. rewrite Hm.
  rewrite bool_decide_eq_true_2 by (now apply list_elem_of_In).
  rewrite (keep_files_not_private name Hk). reflexivity.
Qed.

(** C6 (amended).  In an entry file, a top-level assignment to a name of
    the keep-list becomes an import statement that re-exports the name
    from the package that holds the file: the package name followed by the
    directories of the file's relative path, joined by dots.  The file
    name is no part of that path. *)
Theorem entry_assignment_reexport pkg_name new_pkg (dirs : list str)
    (fname : str) body raw name :
  Forall component dirs -> ~ In "/"%char fname ->
  match_assignment (code_of_line raw) = Some name ->
  In name KEEP_FILES ->
  entry_step pkg_name new_pkg (join "/" (dirs ++ [fname])) body raw
  = body ++ [import_line (join "." (pkg_name :: dirs)) name].
Proof.
  intros Hd Hf Hm Hk.
  rewrite (entry_step_assignment _ _ _ _ _ name Hm Hk).
  now rewrite entry_import_path_dirs.
Qed.

Lemma entry_assignment_reexport_witness :
  (Forall component ["core" : str; "api" : str]
   /\ ~ In "/"%char ("__init__.py" : str)
   /\ match_assignment (code_of_line ("_logger = get()  # log" ++ nl))
      = Some ("_logger" : str)
   /\ In ("_logger" : str) KEEP_FILES)
  /\ entry_step "lightning_app" "lightning.app"
       (join "/" (["core" : str; "api" : str] ++ ["__init__.py" : str]))
       ["import os" : str] ("_logger = get()  # log" ++ nl)
     = ["import os" : str]
       ++ [import_line (join "." ["lightning_app" : str; "core" : str;
                                  "api" : str]) "_logger"].
Proof.
  assert (Hc : Forall component ["core" : str; "api" : str]).
  { repeat constructor; try discriminate;
      vm_compute; intuition discriminate. }
  assert (Hf : ~ In "/"%char ("__init__.py" : str))
    by (vm_compute; intuition discriminate).
  assert (Hk : In ("_logger" : str) KEEP_FILES) by (now left).
  split.
  - split; [exact Hc|]. split; [exact Hf|].
    split; [vm_compute; reflexivity | exact Hk].
  - apply (entry_assignment_reexport "lightning_app" "lightning.app"
             ["core" : str; "api" : str] "__init__.py"
             ["import os" : str] ("_logger = get()  # log" ++ nl) "_logger");
      [exact Hc | exact Hf | vm_compute; reflexivity | exact Hk].
Defined.

(** C6, as stated, fails: the entry file [__init__.py] of the package
    re-exports [_logger] from [lightning_app], not from the dotted form
    [lightning_app.__init__] of its relative path. *)
Lemma entry_assignment_counterexample :
  entry_step "lightning_app" "lightning.app" "__init__.py" []
    ("_logger = logging.getLogger(__name__)" ++ nl)
  = ["from lightning_app import _logger  # noqa: F401" : str]
  /\ import_line (module_import_path "lightning_app" "__init__.py") "_logger"
     = "from lightning_app.__init__ import _logger  # noqa: F401"
  /\ ~ entry_rule_as_stated.
Proof.
  split; [vm_compute; reflexivity|].
  split; [vm_compute; reflexivity|].
  intros H.
  specialize (H "lightning_app" "lightning.app" "__init__.py" []
                ("_logger = logging.getLogger(__name__)" ++ nl) "_logger").
  assert (Hm : match_assignment
                 (code_of_line ("_logger = logging.getLogger(__name__)" ++ nl))
               = Some ("_logger" : str)) by (vm_compute; reflexivity).
  specialize (H Hm (or_introl eq_refl)).
  vm_compute in H. discriminate.
Qed.

End EntryFiles.

(** ** Prefixes, occurrences and the rewriting scan *)

Section Occurrences.

Lemma startswith_app (p t : str) : startswith p (p ++ t) = true.
Proof.
  induction p as [|a p IH]; simpl; [reflexivity|].
  now rewrite Ascii.eqb_refl.
Qed.

Lemma startswith_split (p s : str) :
  startswith p s = true -> exists t, s = p ++ t.
Proof.
  revert s. induction p as [|a p IH]; intros s H.
  - now exists s.
  - destruct s as [|b s]; [discriminate|]. simpl in H.
    apply andb_prop in H as [Hab Hp]. apply Ascii.eqb_eq in Hab. subst b.
    destruct (IH s Hp) as [t ->]. now exists t.
Qed.

Lemma find_some (p s : str) i :
  find p s = Some i ->
  exists a b, s = a ++ p ++ b /\ length a = i.
Proof.
  revert i. induction s as [|c s IH]; intros i; simpl.
  - destruct (startswith p []) eqn:Hp; [|discriminate].
    intros [= <-]. destruct (startswith_split p [] Hp) as [t Ht].
    exists [], t. now split.
  - destruct (startswith p (c :: s)) eqn:Hp.
    + intros [= <-]. destruct (startswith_split _ _ Hp) as [t Ht].
      exists [], t. now split.
    + destruct (find p s) as [j|]; [|discriminate]. intros [= <-].
      destruct (IH j eq_refl) as (a & b & -> & Ha).
      exists (c :: a), b. simpl. now rewrite Ha.
Qed.

Lemma find_none (p s : str) :
  find p s = None -> forall a b, s <> a ++ p ++ b.
Proof.
  induction s as [|c s IH]; simpl.
  - destruct (startswith p []) eqn:Hp; [discriminate|].
    intros _ a b E. symmetry in E. apply app_eq_nil in E as [-> E].
    apply app_eq_nil in E as [-> _]. discriminate.
  - destruct (startswith p (c :: s)) eqn:Hp; [discriminate|].
    destruct (find p s) eqn:Hf; [discriminate|]. intros _ a b E.
    destruct a as [|x a].
    + simpl in E. rewrite E, startswith_app in Hp. discriminate.
    + simpl in E. injection E as _ E. now apply (IH eq_refl a b).
Qed.

(** [p in s] holds exactly when [p] occurs in [s]. *)
Lemma contains_iff (p s : str) :
  contains p s = true <-> exists a b, s = a ++ p ++ b.
Proof.
  unfold contains. destruct (find p s) as [i|] eqn:Hf.
  - split; [|reflexivity]. intros _.
    destruct (find_some p s i Hf) as (a & b & E & _). now exists a, b.
  - split; [discriminate|]. intros (a & b & E).
    exfalso. now apply (find_none p s Hf a b).
Qed.

Lemma contains_false (p s : str) :
  contains p s = false <-> forall a b, s <> a ++ p ++ b.
Proof.
  rewrite <- not_true_iff_false, contains_iff. split.
  - intros H a b E. apply H. now exists a, b.
  - intros H (a & b & E). now apply (H a b).
Qed.

Lemma contains_char (c : ascii) (s : str) :
  contains [c] s = true <-> In c s.
Proof.
  rewrite contains_iff. split.
  - intros (a & b & ->). apply in_or_app. right. now left.
  - intros H. apply in_split in H as (a & b & ->). now exists a, b.
Qed.

End Occurrences.

Section Scan.

Variable m : str -> option nat.
Variable new : str.

Lemma scan_skipn k (s : str) : scan m new k s = scan m new 0 (skipn k s).
Proof.
  revert k. induction s as [|c s IH]; intros k.
  - now destruct k.
  - destruct k as [|k]; [reflexivity|]. simpl. apply IH.
Qed.

(** The matcher finds matches that are not empty. *)
Hypothesis m_positive : forall s n, m s = Some n -> 0 < n.

Lemma scan_no_match c (s : str) :
  m (c :: s) = None -> scan m new 0 (c :: s) = c :: scan m new 0 s.
Proof. intros H. simpl. now rewrite H. Qed.

Lemma scan_match c (s : str) n :
  m (c :: s) = Some n ->
  scan m new 0 (c :: s) = new ++ scan m new 0 (skipn n (c :: s)).
Proof.
  intros H. simpl. rewrite H. apply m_positive in H as Hn.
  destruct n as [|n]; [lia|]. simpl. rewrite Nat.sub_0_r.
  now rewrite scan_skipn.
Qed.

(** Induction along the scan: a property of a text and its rewriting
    follows from the three ways the scan advances. *)
Lemma scan_ind (P : str -> str -> Prop) :
  P [] [] ->
  (forall c s, m (c :: s) = None ->
               P s (scan m new 0 s) -> P (c :: s) (c :: scan m new 0 s)) ->
  (forall c s n, m (c :: s) = Some n ->
                 P (skipn n (c :: s)) (scan m new 0 (skipn n (c :: s))) ->
                 P (c :: s) (new ++ scan m new 0 (skipn n (c :: s)))) ->
  forall s, P s (scan m new 0 s).
Proof.
  intros Hnil Hno Hyes s.
  induction s as [s IH] using (induction_ltof1 _ (@length ascii)).
  unfold ltof in IH. destruct s as [|c s]; [exact Hnil|].
  destruct (m (c :: s)) as [n|] eqn:Hm.
  - rewrite (scan_match c s n Hm). apply (Hyes c s n Hm). apply IH.
    apply m_positive in Hm. destruct n as [|n]; [lia|]. simpl.
    pose proof (length_skipn n s). lia.
  - rewrite (scan_no_match c s Hm). apply (Hno c s Hm). apply IH. simpl. lia.
Qed.

(** Without a match anywhere, the scan changes nothing. *)
Lemma scan_unchanged (s : str) :
  (forall a b, s = a ++ b -> m b = None) -> scan m new 0 s = s.
Proof.
  induction s as [|c s IH]; intros H; [reflexivity|].
  rewrite scan_no_match by (now apply (H [])).
  f_equal. apply IH. intros a b ->. now apply (H (c :: a)).
Qed.

End Scan.

Section Replace.

Variables old new : str.
Hypothesis old_not_empty : old <> [].

Lemma match_literal_positive (s : str) n :
  match_literal old s = Some n -> 0 < n.
Proof.
  unfold match_literal. destruct (startswith old s); [|discriminate].
  intros [= <-]. destruct old; [congruence | simpl; lia].
Qed.

Lemma replace_scan (s : str) :
  replace old new s = scan (match_literal old) new 0 s.
Proof. unfold replace. destruct old; [congruence | reflexivity]. Qed.

Lemma replace_no_match c (s : str) :
  startswith old (c :: s) = false ->
  replace old new (c :: s) = c :: replace old new s.
Proof.
  intros H. rewrite !replace_scan. apply scan_no_match.
  unfold match_literal. now rewrite H.
Qed.

Lemma replace_match (t : str) :
  replace old new (old ++ t) = new ++ replace old new t.
Proof.
  rewrite !replace_scan. destruct (old ++ t) as [|c s] eqn:E.
  - apply app_eq_nil in E as [E _]. congruence.
  - rewrite (scan_match _ _ match_literal_positive c s (length old)).
    + rewrite <- E. now rewrite skipn_app, Nat.sub_diag, skipn_all.
    + unfold match_literal. now rewrite <- E, startswith_app.
Qed.

(** Induction along a replacement. *)
Lemma replace_ind (P : str -> str -> Prop) :
  P [] [] ->
  (forall c s, startswith old (c :: s) = false ->
               P s (replace old new s) ->
               P (c :: s) (c :: replace old new s)) ->
  (forall t, P t (replace old new t) ->
             P (old ++ t) (new ++ replace old new t)) ->
  forall s, P s (replace old new s).
Proof.
  intros Hnil Hno Hyes s. rewrite replace_scan.
  apply (scan_ind _ _ match_literal_positive); [exact Hnil | |].
  - intros c t Hm. rewrite <- replace_scan. apply Hno.
    unfold match_literal in Hm.
    destruct (startswith old (c :: t)); [discriminate | reflexivity].
  - intros c t n Hm. unfold match_literal in Hm.
    destruct (startswith old (c :: t)) eqn:Hs; [|discriminate].
    injection Hm as <-. destruct (startswith_split _ _ Hs) as [t' Ht'].
    rewrite Ht', skipn_app, Nat.sub_diag, skipn_all. simpl.
    rewrite <- replace_scan. apply Hyes.
Qed.

(** Without an occurrence, a replacement changes nothing. *)
Lemma replace_absent (s : str) :
  contains old s = false -> replace old new s = s.
Proof.
  intros H. rewrite replace_scan. apply scan_unchanged.
  intros a b ->. unfold match_literal.
  destruct (startswith old b) eqn:Hs; [|reflexivity].
  destruct (startswith_split _ _ Hs) as [t ->].
  rewrite contains_false in H. now destruct (H a t).
Qed.


(** An occurrence of [old] becomes one of [new]. *)
Lemma replace_puts_new (s : str) :
  contains old s = true -> contains new (replace old new s) = true.
Proof.
  apply (replace_ind (fun s o => contains old s = true ->
                                 contains new o = true)).
  - intros H. apply contains_iff in H as (a & b & E).
    symmetry in E. apply app_eq_nil in E as [_ E].
    apply app_eq_nil in E as [E _]. congruence.
  - intros c t Hs IH H. apply contains_iff in H as (a & b & E).
    destruct a as [|x a].
    + simpl in E. rewrite E, startswith_app in Hs. discriminate.
    + simpl in E. injection E as _ E.
      assert (Ht : contains old t = true)
        by (apply contains_iff; now exists a, b).
      apply IH, contains_iff in Ht as (a' & b' & ->).
      apply contains_iff. now exists (c :: a'), b'.
  - intros t _ _. apply contains_iff. exists [], (replace old new t).
    reflexivity.
Qed.

End Replace.

(** ** The loop over the files *)

Section Files.

Variables package_dir folder new_pkg : str.

(** C7 (amended).  A discovered file whose name starts with an underscore,
    has no hyphen and is no entry name gets no stub: the files are left as
    they are, the warning [unsupported file: <relative path>] is logged,
    and the loop goes on with the remaining files. *)
Theorem private_module_skipped py_file rest w :
  startswith "_" (OsPath.basename py_file) = true ->
  ~ In (OsPath.basename py_file) entry_names ->
  contains "-" (OsPath.basename py_file) = false ->
  process_file package_dir folder new_pkg py_file w
  = Done {| files := files w;
            warnings := warnings w
                        ++ ["unsupported file: "
                            ++ replace (package_dir ++ OsPath.sep) "" py_file] |}
  /\ _create_meta_package package_dir folder new_pkg (py_file :: rest) w
     = _create_meta_package package_dir folder new_pkg rest
         {| files := files w;
            warnings := warnings w
                        ++ ["unsupported file: "
                            ++ replace (package_dir ++ OsPath.sep) "" py_file] |}.
Proof.
  intros Hu He Hh.
  assert (E : process_file package_dir folder new_pkg py_file w
              = Done {| files := files w;
                        warnings := warnings w
                          ++ ["unsupported file: "
                              ++ replace (package_dir ++ OsPath.sep) "" py_file] |}).
  { unfold process_file. rewrite Hh, Hu.
    rewrite bool_decide_eq_false_2
      by (intros H; apply He; now apply list_elem_of_In).
    rewrite bool_decide_eq_false_2; [reflexivity|].
    intros H. apply He. apply list_elem_of_In in H as [<-|[]].
    right. now left. }
  split; [exact E|]. simpl. now rewrite E.
Qed.





Lemma split_last_head_of_sep (a b : str) :
  fst (OsPath.split_last (a ++ "/"%char :: b)) <> [].
Proof.
  induction a as [|c a IH]; simpl.
  - destruct (OsPath.split_last b) as [h t]. destruct h; discriminate.
  - destruct (OsPath.split_last (a ++ "/"%char :: b)) as [h t].
    simpl in IH. destruct h; [congruence | discriminate].
Qed.

Lemma basename_after_sep (a b : str) :
  OsPath.basename (a ++ "/"%char :: b) = OsPath.basename b.
Proof.
  unfold OsPath.basename. induction a as [|c a IH]; simpl.
  - destruct (OsPath.split_last b) as [h t]. now destruct h.
  - pose proof (split_last_head_of_sep a b) as Hne.
    destruct (OsPath.split_last (a ++ "/"%char :: b)) as [h t].
    simpl in *. destruct h; [congruence | exact IH].
Qed.

Lemma endswith_sep (a : str) :
  endswith "/" a = true -> exists a', a = a' ++ ["/"%char].
Proof.
  unfold endswith. intros H. apply startswith_split in H as [t Ht].
  exists (rev t). apply (f_equal (@rev ascii)) in Ht.
  rewrite rev_involutive in Ht. rewrite Ht.
  now rewrite rev_app_distr.
Qed.

Lemma basename_join2 (a b : str) :
  OsPath.basename (OsPath.join2 a b) = OsPath.basename b.
Proof.
  unfold OsPath.join2. destruct (startswith "/" b); [reflexivity|].
  destruct a as [|c a]; [reflexivity|].
  destruct (endswith "/" (c :: a)) eqn:He.
  - destruct (endswith_sep _ He) as [a' ->].
    rewrite <- app_assoc. apply basename_after_sep.
  - apply (basename_after_sep (c :: a) b).
Qed.

Lemma join_two (a x y : str) :
  OsPath.join a [x; y] = OsPath.join2 (OsPath.join2 a x) y.
Proof. reflexivity. Qed.

Lemma world_of_copy src dst w k :
  OsPath.basename k <> OsPath.basename dst ->
  files (world_of (copy src dst w)) !! k = files w !! k.
Proof.
  intros H. unfold copy. destruct (files w !! src); [|reflexivity].
  destruct (bool_decide (src = dst)); [reflexivity|]. simpl.
  apply lookup_insert_ne. intros ->. now apply H.
Qed.

Lemma warnings_of_copy src dst w :
  warnings (world_of (copy src dst w)) = warnings w.
Proof.
  unfold copy. destruct (files w !! src); [|reflexivity].
  now destruct (bool_decide (src = dst)).
Qed.

(** Copying the entry files leaves every file alone whose name is no
    entry name, and logs nothing. *)
Lemma copy_entries_keeps py_files w k :
  ~ In (OsPath.basename k) entry_names ->
  files (world_of (copy_entries folder new_pkg py_files w)) !! k
  = files w !! k
  /\ warnings (world_of (copy_entries folder new_pkg py_files w))
     = warnings w.
Proof.
  intros Hk. revert w. induction py_files as [|f rest IH]; intros w.
  - split; reflexivity.
  - simpl. destruct (bool_decide (OsPath.basename f ∈ entry_names)) eqn:Hf;
      simpl; [|apply IH].
    apply bool_decide_eq_true_1, list_elem_of_In in Hf.
    pose proof (world_of_copy f
                  (OsPath.join folder
                     [hd [] (split "." new_pkg); OsPath.basename f]) w k)
      as Hc.
    pose proof (warnings_of_copy f
                  (OsPath.join folder
                     [hd [] (split "." new_pkg); OsPath.basename f]) w)
      as Hw.
    assert (Hb : OsPath.basename k
                 <> OsPath.basename
                      (OsPath.join folder
                         [hd [] (split "." new_pkg); OsPath.basename f])).
    { rewrite join_two, basename_join2.
      assert (Hbb : OsPath.basename (OsPath.basename f) = OsPath.basename f).
      { destruct Hf as [<-|[<-|[]]]; vm_compute; reflexivity. }
      rewrite Hbb. intros E. apply Hk. now rewrite E. }
    specialize (Hc Hb).
    destruct (copy f _ w) as [w'|e w']; simpl in *.
    + destruct (IH w') as [H1 H2]. split; congruence.
    + split; assumption.
Qed.







End Files.

Section FilesExamples.

Lemma private_module_skipped_witness :
  (startswith "_" (OsPath.basename helper) = true
   /\ ~ In (OsPath.basename helper) entry_names
   /\ contains "-" (OsPath.basename helper) = false)
  /\ process_file "src/pkg" "out" "lightning.app" helper (world_with helper)
     = Done {| files := files (world_with helper);
               warnings := warnings (world_with helper)
                           ++ ["unsupported file: "
                               ++ replace ("src/pkg" ++ OsPath.sep) "" helper] |}
  /\ _create_meta_package "src/pkg" "out" "lightning.app" [helper]
       (world_with helper)
     = _create_meta_package "src/pkg" "out" "lightning.app" []
         {| files := files (world_with helper);
            warnings := warnings (world_with helper)
                        ++ ["unsupported file: "
                            ++ replace ("src/pkg" ++ OsPath.sep) "" helper] |}.
Proof.
  assert (He : ~ In (OsPath.basename helper) entry_names)
    by (vm_compute; intuition discriminate).
  split.
  - split; [vm_compute; reflexivity|]. split; [exact He|].
    vm_compute; reflexivity.
  - apply (private_module_skipped "src/pkg" "out" "lightning.app" helper []
             (world_with helper));
      [vm_compute; reflexivity | exact He | vm_compute; reflexivity].
Defined.

(** C7, as stated, fails for a private file whose name has a hyphen: the
    loop passes over it before it looks at the underscore, and logs
    nothing. *)
Lemma private_module_counterexample :
  startswith "_" (OsPath.basename hyphenated) = true
  /\ ~ In (OsPath.basename hyphenated) entry_names
  /\ process_file "src/pkg" "out" "lightning.app" hyphenated
       (world_with hyphenated)
     = Done (world_with hyphenated)
  /\ ~ private_rule_as_stated.
Proof.
  assert (He : ~ In (OsPath.basename hyphenated) entry_names)
    by (vm_compute; intuition discriminate).
  assert (E : process_file "src/pkg" "out" "lightning.app" hyphenated
                (world_with hyphenated) = Done (world_with hyphenated))
    by (vm_compute; reflexivity).
  split; [vm_compute; reflexivity|]. split; [exact He|].
  split; [exact E|]. intros H.
  destruct (H "src/pkg" "out" "lightning.app" hyphenated
              (world_with hyphenated)) as [msg Hm];
    [vm_compute; reflexivity | exact He |].
  rewrite E in Hm. injection Hm as Hm. discriminate Hm.
Qed.



End FilesExamples.

(** ** Occurrences through a replacement *)

Section Tails.

Lemma in_tails (w q : str) :
  In w (tails q) <-> w <> [] /\ exists u, q = u ++ w.
Proof.
  induction q as [|c q IH]; simpl.
  - split; [tauto|]. intros [Hw [u Hu]]. symmetry in Hu.
    apply app_eq_nil in Hu as [_ ->]. congruence.
  - split.
    + intros [<-|H].
      * split; [discriminate | now exists []].
      * apply IH in H as [Hw [u ->]]. split; [exact Hw|].
        now exists (c :: u).
    + intros [Hw [u Hu]]. destruct u as [|x u].
      * left. exact Hu.
      * right. apply IH. split; [exact Hw|]. injection Hu as _ ->.
        now exists u.
Qed.

Lemma tails_self (q : str) : q <> [] -> In q (tails q).
Proof. intros H. apply in_tails. split; [exact H | now exists []]. Qed.

Lemma tails_tail a (w q : str) :
  In (a :: w) (tails q) -> w <> [] -> In w (tails q).
Proof.
  intros H Hw. apply in_tails in H as [_ [u ->]]. apply in_tails.
  split; [exact Hw|]. exists (u ++ [a]). now rewrite <- app_assoc.
Qed.

Lemma tails_app (u w : str) : w <> [] -> In w (tails (u ++ w)).
Proof. intros H. apply in_tails. split; [exact H | now exists u]. Qed.

Lemma comparable_app (w r o : str) :
  startswith w (r ++ o) = true -> comparable w r = true.
Proof.
  intros H. apply startswith_split in H as [x Hx].
  apply app_eq_app in Hx as [l [[-> _]|[-> _]]]; unfold comparable.
  - now rewrite (startswith_app w l).
  - rewrite (startswith_app r l). apply orb_true_r.
Qed.

Lemma startswith_weaken (w p t : str) :
  startswith w p = true -> startswith w (p ++ t) = true.
Proof.
  intros H. apply startswith_split in H as [x ->].
  rewrite <- app_assoc. apply startswith_app.
Qed.

Lemma occurs_cons q c (t : str) : occurs q t -> occurs q (c :: t).
Proof. intros (a & b & ->). now exists (c :: a), b. Qed.

Lemma occurs_app q (x t : str) : occurs q t -> occurs q (x ++ t).
Proof.
  intros (a & b & ->). exists (x ++ a), b. now rewrite <- app_assoc.
Qed.

Lemma occurs_prefix q (t : str) : startswith q t = true -> occurs q t.
Proof. intros H. apply startswith_split in H as [x ->]. now exists [], x. Qed.

Lemma contains_occurs q (t : str) : contains q t = true <-> occurs q t.
Proof. apply contains_iff. Qed.

Lemma not_contains_occurs q (t : str) :
  contains q t = false <-> ~ occurs q t.
Proof. rewrite <- contains_occurs. symmetry. apply not_true_iff_false. Qed.

End Tails.

(** Prefixes of the result, read back in the argument. *)
Section PrefixReflected.

Variables q p r : str.
Hypothesis p_not_empty : p <> [].
Hypothesis front :
  forall w, In w (tails q) -> comparable w r = true -> startswith w p = true.

Lemma prefix_reflected (t w : str) :
  In w (tails q) ->
  startswith w (replace p r t) = true -> startswith w t = true.
Proof.
  revert w.
  apply (replace_ind p r p_not_empty
           (fun t o => forall w, In w (tails q) ->
                                 startswith w o = true ->
                                 startswith w t = true)).
  - intros w Hw H. apply in_tails in Hw as [Hne _].
    destruct w; [congruence | discriminate].
  - intros c s _ IH w Hw H. destruct w as [|a w]; [reflexivity|].
    simpl in H |- *. apply andb_prop in H as [Ha H]. rewrite Ha. simpl.
    destruct w as [|b w]; [reflexivity|].
    apply IH; [|exact H]. apply (tails_tail a); [exact Hw | discriminate].
  - intros t' _ w Hw H. apply startswith_weaken.
    apply front; [exact Hw|]. now apply (comparable_app w r (replace p r t')).
Qed.

End PrefixReflected.

(** A replacement that makes no new occurrence of [q]. *)
Section NoNewOccurrence.

Variables q p r : str.
Hypothesis p_not_empty : p <> [].
Hypothesis q_not_empty : q <> [].
Hypothesis front :
  forall w, In w (tails q) -> comparable w r = true -> startswith w p = true.
Hypothesis back :
  forall a l, r = a ++ l -> a <> [] -> l <> [] -> comparable l q = true ->
              (exists z, p = z ++ l) /\ length l < length q.

Lemma occurrence_reflected (t : str) :
  occurs q (replace p r t) -> occurs q t.
Proof.
  apply (replace_ind p r p_not_empty (fun t o => occurs q o -> occurs q t)).
  - tauto.
  - intros c s Hs IH (a & b & E). destruct a as [|x a].
    + apply occurs_prefix.
      apply (prefix_reflected q p r p_not_empty front);
        [now apply tails_self|].
      rewrite (replace_no_match p r p_not_empty c s Hs). simpl in E.
      rewrite E. apply startswith_app.
    + simpl in E. injection E as _ E. apply occurs_cons, IH.
      now exists a, b.
  - intros t' IH (a & b & E).
    apply app_eq_app in E as [l [[Hr E]|[_ E]]].
    2: { apply occurs_app, IH. now exists l, b. }
    destruct l as [|y l].
    { simpl in E. apply occurs_app, IH. exists [], b. now rewrite <- E. }
    destruct a as [|x a].
    { apply occurs_prefix.
      apply (prefix_reflected q p r p_not_empty front);
        [now apply tails_self|].
      rewrite (replace_match p r p_not_empty). simpl in Hr.
      rewrite <- Hr in E. rewrite <- E. apply startswith_app. }
    assert (Hc : comparable (y :: l) q = true).
    { symmetry in E. unfold comparable.
      apply app_eq_app in E as [k [[-> _]|[-> _]]].
      - rewrite (startswith_app q k). apply orb_true_r.
      - now rewrite (startswith_app (y :: l) k). }
    destruct (back (x :: a) (y :: l) Hr) as [[z Hz] Hlen];
      [discriminate | discriminate | exact Hc |].
    symmetry in E. apply app_eq_app in E as [k [[Hl _]|[Hq Ho]]].
    { rewrite Hl, length_app in Hlen. lia. }
    destruct k as [|c k].
    { rewrite app_nil_r in Hq. rewrite Hq in Hlen. lia. }
    assert (Hk : startswith (c :: k) t' = true).
    { apply (prefix_reflected q p r p_not_empty front).
      - rewrite Hq. now apply tails_app.
      - rewrite Ho. apply startswith_app. }
    apply startswith_split in Hk as [y' ->].
    exists z, y'. rewrite Hz, Hq. now rewrite <- !app_assoc.
Qed.

Lemma no_new_occurrence (t : str) :
  contains q t = false -> contains q (replace p r t) = false.
Proof.
  rewrite !not_contains_occurs. intros H Ho. apply H.
  now apply occurrence_reflected.
Qed.

End NoNewOccurrence.

(** A replacement that leaves no occurrence of what it replaces. *)
Section Removed.

Variables p r : str.
Hypothesis p_not_empty : p <> [].
Hypothesis front :
  forall w, In w (tails p) -> comparable w r = true -> startswith w p = true.
Hypothesis back :
  forall l, In l (tails r) -> comparable l p = false.

Lemma replaced_is_gone (t : str) : contains p (replace p r t) = false.
Proof.
  apply not_contains_occurs.
  apply (replace_ind p r p_not_empty (fun t o => ~ occurs p o)).
  - intros (a & b & E). symmetry in E. apply app_eq_nil in E as [_ E].
    apply app_eq_nil in E as [E _]. congruence.
  - intros c s Hs IH (a & b & E). destruct a as [|x a].
    + assert (H : startswith p (c :: s) = true).
      { apply (prefix_reflected p p r p_not_empty front);
          [now apply tails_self|].
        rewrite (replace_no_match p r p_not_empty c s Hs). simpl in E.
        rewrite E. apply startswith_app. }
      congruence.
    + simpl in E. injection E as _ E. apply IH. now exists a, b.
  - intros t' IH (a & b & E).
    apply app_eq_app in E as [l [[Hr E]|[_ E]]].
    2: { apply IH. now exists l, b. }
    destruct l as [|y l].
    { simpl in E. apply IH. exists [], b. now rewrite <- E. }
    assert (Hc : comparable (y :: l) p = true).
    { symmetry in E. unfold comparable.
      apply app_eq_app in E as [k [[-> _]|[-> _]]].
      - rewrite (startswith_app p k). apply orb_true_r.
      - now rewrite (startswith_app (y :: l) k). }
    rewrite back in Hc; [discriminate|]. rewrite Hr. now apply tails_app.
Qed.

End Removed.

(** A replacement that keeps the occurrences of [q]. *)
Section Preserved.

Variables q p r : str.
Hypothesis p_not_empty : p <> [].
Hypothesis q_not_empty : q <> [].
Hypothesis are_apart : apart q p = true.

Lemma apart_front (w : str) : In w (tails q) -> comparable w p = false.
Proof.
  intros Hw. unfold apart in are_apart.
  apply andb_prop in are_apart as [H _]. rewrite forallb_forall in H.
  now apply negb_true_iff, H.
Qed.

Lemma apart_back (l : str) : In l (tails p) -> comparable l q = false.
Proof.
  intros Hl. unfold apart in are_apart.
  apply andb_prop in are_apart as [_ H]. rewrite forallb_forall in H.
  now apply negb_true_iff, H.
Qed.

Lemma prefix_preserved (t w : str) :
  In w (tails q) ->
  startswith w t = true -> startswith w (replace p r t) = true.
Proof.
  revert w.
  apply (replace_ind p r p_not_empty
           (fun t o => forall w, In w (tails q) ->
                                 startswith w t = true ->
                                 startswith w o = true)).
  - tauto.
  - intros c s _ IH w Hw H. destruct w as [|a w]; [reflexivity|].
    simpl in H |- *. apply andb_prop in H as [Ha H]. rewrite Ha. simpl.
    destruct w as [|b w]; [reflexivity|].
    apply IH; [|exact H]. apply (tails_tail a); [exact Hw | discriminate].
  - intros t' _ w Hw H. apply comparable_app in H.
    rewrite (apart_front w Hw) in H. discriminate.
Qed.

Lemma occurrence_preserved (t : str) :
  contains q t = true -> contains q (replace p r t) = true.
Proof.
  rewrite !contains_occurs.
  apply (replace_ind p r p_not_empty (fun t o => occurs q t -> occurs q o)).
  - tauto.
  - intros c s Hs IH (a & b & E). destruct a as [|x a].
    + apply occurs_prefix.
      rewrite <- (replace_no_match p r p_not_empty c s Hs).
      apply prefix_preserved; [now apply tails_self|].
      simpl in E. rewrite E. apply startswith_app.
    + simpl in E. injection E as _ E. apply occurs_cons, IH.
      now exists a, b.
  - intros t' IH (a & b & E).
    apply app_eq_app in E as [l [[Hp E]|[_ E]]].
    2: { apply occurs_app, IH. now exists l, b. }
    destruct l as [|y l].
    { simpl in E. apply occurs_app, IH. exists [], b. now rewrite <- E. }
    assert (Hc : comparable (y :: l) q = true).
    { symmetry in E. unfold comparable.
      apply app_eq_app in E as [k [[-> _]|[-> _]]].
      - rewrite (startswith_app q k). apply orb_true_r.
      - now rewrite (startswith_app (y :: l) k). }
    rewrite apart_back in Hc; [discriminate|].
    rewrite Hp. now apply tails_app.
Qed.

End Preserved.

(** Replacements whose new text is built around a version number. *)
Section Template.

Variables q rf v rs : str.
Hypothesis v_version : is_version v = true.
Hypothesis q_plain : plain q = true.

Lemma version_head : exists d v', v = d :: v' /\ is_digit d = true.
Proof.
  unfold is_version in v_version. destruct v as [|d v']; [discriminate|].
  apply andb_prop in v_version as [Hd _]. now exists d, v'.
Qed.

Lemma version_chars y :
  In y v -> is_digit y || Ascii.eqb y "." = true.
Proof.
  unfold is_version in v_version. destruct v as [|d v']; [discriminate|].
  apply andb_prop in v_version as [_ H]. rewrite forallb_forall in H.
  apply H.
Qed.

Lemma plain_not_empty : q <> [].
Proof. unfold plain in q_plain. destruct q; [discriminate | discriminate]. Qed.

Lemma plain_no_digit x : In x q -> is_digit x = false.
Proof.
  unfold plain in q_plain. destruct q as [|c q']; [discriminate|].
  apply andb_prop in q_plain as [_ H]. rewrite forallb_forall in H.
  intros Hx. now apply negb_true_iff, H.
Qed.

Lemma plain_head c q' :
  q = c :: q' -> is_digit c || Ascii.eqb c "." = false.
Proof.
  intros E. unfold plain in q_plain. rewrite E in q_plain.
  apply andb_prop in q_plain as [H _]. now apply negb_true_iff.
Qed.

(** A text that holds the first digit of the version is no part of [q]. *)
Lemma version_not_in_part (a b x : str) : q <> a ++ (x ++ v ++ rs) ++ b.
Proof.
  destruct version_head as (d & v' & Hv & Hd). intros E.
  assert (Hin : In d q).
  { rewrite E, Hv. rewrite !in_app_iff. right. left. right. left. now left. }
  apply plain_no_digit in Hin. congruence.
Qed.

Lemma comparable_heads x (a : str) y (b : str) :
  comparable (x :: a) (y :: b) = true -> x = y.
Proof.
  unfold comparable. simpl. intros H. apply orb_prop in H as [H|H];
    apply andb_prop in H as [H _]; apply Ascii.eqb_eq in H; congruence.
Qed.

Lemma startswith_refl (a : str) : startswith a a = true.
Proof. rewrite <- (app_nil_r a) at 2. apply startswith_app. Qed.

(** An end of [q] that is comparable with the new text starts [rf]. *)
Lemma template_front (w : str) :
  In w (tails q) -> comparable w (rf ++ v ++ rs) = true ->
  startswith w rf = true.
Proof.
  intros Hw Hc. apply in_tails in Hw as [Hne [u Hq]].
  destruct version_head as (d & v' & Hv & Hd).
  unfold comparable in Hc. apply orb_prop in Hc as [H|H];
    apply startswith_split in H as [x Hx].
  - apply app_eq_app in Hx as [l [[-> _]|[Hw Hl]]].
    + apply startswith_app.
    + destruct l as [|y l].
      * rewrite app_nil_r in Hw. rewrite Hw. apply startswith_refl.
      * exfalso. rewrite Hv in Hl. simpl in Hl. injection Hl as <- _.
        assert (Hin : In d q).
        { rewrite Hq, Hw. rewrite !in_app_iff. right. right. now left. }
        apply plain_no_digit in Hin. congruence.
  - exfalso. apply (version_not_in_part u x rf).
    rewrite Hq, Hx. now rewrite <- !app_assoc.
Qed.

(** How an end of the new text lies in it. *)
Lemma template_suffix (a l : str) :
  rf ++ v ++ rs = a ++ l -> l <> [] ->
  (exists k, l = k ++ v ++ rs /\ (k = [] \/ In k (tails rf)))
  \/ (exists y m, l = (y :: m) ++ rs /\ In y v)
  \/ In l (tails rs).
Proof.
  intros E Hl. apply app_eq_app in E as [k [[Hrf E]|[_ E]]].
  - left. exists k. split; [exact E|]. destruct k as [|c k]; [now left|].
    right. rewrite Hrf. now apply tails_app.
  - apply app_eq_app in E as [m [[Hv E]|[_ E]]].
    + destruct m as [|y m].
      * right. right. simpl in E. apply in_tails. split; [exact Hl|].
        exists []. now rewrite E.
      * right. left. exists y, m. split; [exact E|]. rewrite Hv.
        apply in_or_app. right. now left.
    + right. right. rewrite E. now apply tails_app.
Qed.

Hypothesis q_inside : inside_safe q rf = true.

Lemma not_comparable_through_version (k : str) :
  k = [] \/ In k (tails rf) -> comparable (k ++ v ++ rs) q = false.
Proof.
  intros Hk. apply not_true_is_false. intros Hc.
  assert (Hq : forall k', In k' (tails rf) -> startswith q k' = false).
  { intros k' Hk'. unfold inside_safe in q_inside.
    rewrite forallb_forall in q_inside. now apply negb_true_iff, q_inside. }
  destruct version_head as (d & v' & Hv & Hd).
  unfold comparable in Hc. apply orb_prop in Hc as [H|H];
    apply startswith_split in H as [x Hx].
  - apply (version_not_in_part [] x k). rewrite Hx. reflexivity.
  - symmetry in Hx. apply app_eq_app in Hx as [m [[Hqm Hl]|[Hkm _]]].
    + destruct m as [|y m].
      * rewrite app_nil_r in Hqm. destruct Hk as [->|Hk].
        -- apply plain_not_empty. exact Hqm.
        -- specialize (Hq k Hk). rewrite Hqm, startswith_refl in Hq.
           discriminate.
      * rewrite Hv in Hl. simpl in Hl. injection Hl as <- _.
        assert (Hin : In d q).
        { rewrite Hqm. apply in_or_app. right. now left. }
        apply plain_no_digit in Hin. congruence.
    + destruct Hk as [->|Hk].
      * symmetry in Hkm. apply app_eq_nil in Hkm as [Hkm _].
        now apply plain_not_empty.
      * specialize (Hq k Hk). rewrite Hkm, startswith_app in Hq.
        discriminate.
Qed.

Lemma not_comparable_in_version y (m : str) :
  In y v -> comparable ((y :: m) ++ rs) q = false.
Proof.
  intros Hy. apply not_true_is_false. intros Hc.
  pose proof plain_not_empty as Hne. pose proof plain_head as Hh.
  pose proof (version_chars y Hy) as Hd.
  destruct q as [|c q']; [congruence|].
  simpl in Hc. apply comparable_heads in Hc. subst c.
  rewrite (Hh y q' eq_refl) in Hd. discriminate.
Qed.

End Template.

Section TemplateChecks.

Lemma endswith_split (l p : str) :
  endswith l p = true -> exists z, p = z ++ l.
Proof.
  unfold endswith. intros H. apply startswith_split in H as [t Ht].
  exists (rev t). apply (f_equal (@rev ascii)) in Ht.
  rewrite rev_involutive, rev_app_distr, rev_involutive in Ht. exact Ht.
Qed.

(** The checks of [safe_after] are enough: the replacement of [p] by
    [rf ++ v ++ rs] makes no occurrence of [q]. *)
Lemma safe_after_no_new (q p rf v rs t : str) :
  is_version v = true -> p <> [] -> safe_after q p rf rs = true ->
  contains q t = false ->
  contains q (replace p (rf ++ v ++ rs) t) = false.
Proof.
  intros Hv Hp Hs. unfold safe_after in Hs.
  apply andb_prop in Hs as [Hs Hback]. apply andb_prop in Hs as [Hs Hin].
  apply andb_prop in Hs as [Hplain Hfront].
  apply no_new_occurrence.
  - exact Hp.
  - exact (plain_not_empty q Hplain).
  - intros w Hw Hc.
    apply (template_front q rf v rs Hv Hplain w Hw) in Hc.
    unfold front_safe in Hfront. rewrite forallb_forall in Hfront.
    specialize (Hfront w Hw). now rewrite Hc in Hfront.
  - intros a l E Ha Hl Hc.
    destruct (template_suffix rf v rs a l E Hl)
      as [(k & -> & Hk)|[(y & m & -> & Hy)|Hl']].
    + rewrite (not_comparable_through_version q rf v rs Hv Hplain Hin k Hk)
        in Hc. discriminate.
    + rewrite (not_comparable_in_version q rf v rs Hv Hplain Hin y m Hy)
        in Hc. discriminate.
    + unfold back_safe in Hback. rewrite forallb_forall in Hback.
      specialize (Hback l Hl'). rewrite Hc in Hback. simpl in Hback.
      apply andb_prop in Hback as [He Hlt]. split.
      * now apply endswith_split.
      * now apply Nat.ltb_lt.
Qed.

(** The checks of [gone_after] are enough: the replacement of [p] by
    [rf ++ v ++ rs] leaves no occurrence of [p]. *)
Lemma gone_after_removed (p rf v rs t : str) :
  is_version v = true -> gone_after p rf rs = true ->
  contains p (replace p (rf ++ v ++ rs) t) = false.
Proof.
  intros Hv Hs. unfold gone_after in Hs.
  apply andb_prop in Hs as [Hs Hback]. apply andb_prop in Hs as [Hs Hin].
  apply andb_prop in Hs as [Hplain Hfront].
  apply replaced_is_gone.
  - exact (plain_not_empty p Hplain).
  - intros w Hw Hc.
    apply (template_front p rf v rs Hv Hplain w Hw) in Hc.
    unfold front_safe in Hfront. rewrite forallb_forall in Hfront.
    specialize (Hfront w Hw). now rewrite Hc in Hfront.
  - intros l Hl. apply in_tails in Hl as [Hl [a E]].
    destruct (template_suffix rf v rs a l E Hl)
      as [(k & -> & Hk)|[(y & m & -> & Hy)|Hl']].
    + exact (not_comparable_through_version p rf v rs Hv Hplain Hin k Hk).
    + exact (not_comparable_in_version p rf v rs Hv Hplain Hin y m Hy).
    + rewrite forallb_forall in Hback. now apply negb_true_iff, Hback.
Qed.

End TemplateChecks.

(** ** The removal of the skipped sections *)

Section NoCase.

Lemma startswith_nocase_empty (w : str) :
  startswith_nocase w [] = true -> w = [].
Proof. destruct w; [reflexivity | discriminate]. Qed.

Lemma comparable_nocase_sym (a b : str) :
  comparable_nocase a b = comparable_nocase b a.
Proof. unfold comparable_nocase. apply orb_comm. Qed.

Lemma comparable_nocase_app (w l o : str) :
  startswith_nocase w (l ++ o) = true -> comparable_nocase w l = true.
Proof.
  unfold comparable_nocase. revert l.
  induction w as [|a w IH]; intros l H; [reflexivity|].
  destruct l as [|b l]; [apply orb_true_r|].
  simpl in H |- *. apply andb_prop in H as [Hab H].
  rewrite Hab. apply Ascii.eqb_eq in Hab. rewrite Hab, Ascii.eqb_refl.
  simpl. now apply IH.
Qed.

Lemma startswith_nocase_split (p s : str) :
  startswith_nocase p s = true <->
  exists p' rest, s = p' ++ rest /\ same_nocase p' p.
Proof.
  unfold same_nocase. revert s. induction p as [|a p IH]; intros s.
  - split; [|reflexivity]. intros _. now exists [], s.
  - destruct s as [|b s].
    + split; [discriminate|]. intros (p' & rest & E & H).
      symmetry in E. apply app_eq_nil in E as [-> _]. discriminate.
    + simpl. rewrite andb_true_iff, IH, Ascii.eqb_eq. split.
      * intros [Hab (p' & rest & -> & H)].
        exists (b :: p'), rest. simpl. split; [reflexivity|]. congruence.
      * intros (p' & rest & E & H). destruct p' as [|x p']; [discriminate|].
        simpl in E, H. injection E as <- ->. injection H as Hx H.
        split; [congruence|]. now exists p', rest.
Qed.

Lemma find_nocase_some (p s : str) k :
  find_nocase p s = Some k ->
  exists a b, s = a ++ b /\ length a = k /\ startswith_nocase p b = true.
Proof.
  revert k. induction s as [|c s IH]; intros k; simpl.
  - destruct (startswith_nocase p []) eqn:Hp; [|discriminate].
    intros [= <-]. now exists [], [].
  - destruct (startswith_nocase p (c :: s)) eqn:Hp.
    + intros [= <-]. now exists [], (c :: s).
    + destruct (find_nocase p s) as [j|]; [|discriminate]. intros [= <-].
      destruct (IH j eq_refl) as (a & b & -> & Ha & Hb).
      exists (c :: a), b. simpl. now rewrite Ha.
Qed.

Lemma find_nocase_none (p s : str) :
  find_nocase p s = None ->
  forall a b, s = a ++ b -> startswith_nocase p b = false.
Proof.
  induction s as [|c s IH]; simpl.
  - destruct (startswith_nocase p []) eqn:Hp; [discriminate|].
    intros _ a b E. symmetry in E. apply app_eq_nil in E as [_ ->].
    exact Hp.
  - destruct (startswith_nocase p (c :: s)) eqn:Hp; [discriminate|].
    destruct (find_nocase p s) eqn:Hf; [discriminate|]. intros _ a b E.
    destruct a as [|x a].
    + simpl in E. now rewrite <- E.
    + simpl in E. injection E as _ E. now apply (IH eq_refl a b).
Qed.

Lemma ends_later_iff (x : str) :
  ends_later x <-> find_nocase skip_end x <> None.
Proof.
  split.
  - intros (a & b & E & H) Hf.
    rewrite (find_nocase_none _ _ Hf a b E) in H. discriminate.
  - intros H. destruct (find_nocase skip_end x) as [k|] eqn:Hf; [|congruence].
    destruct (find_nocase_some _ _ _ Hf) as (a & b & E & _ & Hb).
    now exists a, b.
Qed.

Lemma ends_later_app (y x : str) : ends_later x -> ends_later (y ++ x).
Proof.
  intros (a & b & -> & H). exists (y ++ a), b.
  now rewrite <- app_assoc.
Qed.

Lemma ends_later_skipn i j (x : str) :
  i <= j -> ends_later (skipn j x) -> ends_later (skipn i x).
Proof.
  intros Hij H. replace j with ((j - i) + i) in H by lia.
  rewrite <- skipn_skipn in H.
  rewrite <- (firstn_skipn (j - i) (skipn i x)). now apply ends_later_app.
Qed.

(** What a match of the pattern is. *)
Lemma match_skipped_some (s : str) :
  match_skipped s <> None <->
  startswith_nocase skip_begin s = true
  /\ ends_later (skipn (length skip_begin + 1) s).
Proof.
  unfold match_skipped. rewrite ends_later_iff.
  destruct (startswith_nocase skip_begin s).
  - destruct (find_nocase skip_end _); split; try tauto; try discriminate.
    intros _. split; [reflexivity | discriminate].
  - split; [congruence | intros [H _]; discriminate].
Qed.

Lemma match_skipped_positive (s : str) n : match_skipped s = Some n -> 0 < n.
Proof.
  unfold match_skipped. destruct (startswith_nocase skip_begin s); [|discriminate].
  destruct (find_nocase skip_end _); [|discriminate]. intros [= <-]. lia.
Qed.

Lemma match_skipped_long (s : str) n :
  match_skipped s = Some n -> length placeholder <= n.
Proof.
  unfold match_skipped. destruct (startswith_nocase skip_begin s); [|discriminate].
  destruct (find_nocase skip_end _); [|discriminate]. intros [= <-].
  simpl. lia.
Qed.

End NoCase.

(** Marker prefixes of the result, read back in the argument. *)
Section MarkerReflected.

Variable marker : str.
Hypothesis marker_apart : apart_nocase marker placeholder = true.

Lemma marker_front (w : str) :
  In w (tails marker) -> comparable_nocase w placeholder = false.
Proof.
  intros Hw. unfold apart_nocase in marker_apart.
  apply andb_prop in marker_apart as [H _]. rewrite forallb_forall in H.
  now apply negb_true_iff, H.
Qed.

Lemma marker_back (l : str) :
  In l (tails placeholder) -> comparable_nocase marker l = false.
Proof.
  intros Hl. unfold apart_nocase in marker_apart.
  apply andb_prop in marker_apart as [_ H]. rewrite forallb_forall in H.
  rewrite comparable_nocase_sym. now apply negb_true_iff, H.
Qed.

Lemma marker_prefix_reflected (t w : str) :
  In w (tails marker) ->
  startswith_nocase w (remove_skipped t) = true ->
  startswith_nocase w t = true.
Proof.
  revert w. unfold remove_skipped.
  apply (scan_ind match_skipped placeholder match_skipped_positive
           (fun t o => forall w, In w (tails marker) ->
                                 startswith_nocase w o = true ->
                                 startswith_nocase w t = true)).
  - intros w Hw H. apply startswith_nocase_empty in H. subst w.
    apply in_tails in Hw as [Hw _]. congruence.
  - intros c s _ IH w Hw H. destruct w as [|a w]; [reflexivity|].
    simpl in H |- *. apply andb_prop in H as [Ha H]. rewrite Ha. simpl.
    destruct w as [|b w]; [reflexivity|].
    apply IH; [|exact H]. apply (tails_tail a); [exact Hw | discriminate].
  - intros c s n _ _ w Hw H. apply comparable_nocase_app in H.
    rewrite (marker_front w Hw) in H. discriminate.
Qed.

(** The marker does not start on the replacement text. *)
Lemma marker_not_on_placeholder (l o : str) :
  In l (tails placeholder) -> startswith_nocase marker (l ++ o) = false.
Proof.
  intros Hl. apply not_true_is_false. intros H.
  apply comparable_nocase_app in H. rewrite (marker_back l Hl) in H.
  discriminate.
Qed.

End MarkerReflected.

Section Sections.

Lemma begin_apart : apart_nocase skip_begin placeholder = true.
Proof. vm_compute. reflexivity. Qed.

Lemma end_apart : apart_nocase skip_end placeholder = true.
Proof. vm_compute. reflexivity. Qed.

Lemma skip_end_not_empty : skip_end <> [].
Proof. discriminate. Qed.

Lemma skip_begin_not_empty : skip_begin <> [].
Proof. discriminate. Qed.

(** An end marker of the result, at least [k] characters in, comes from one
    of the argument, at least [k] characters in. *)
Lemma ends_later_reflected (t : str) k :
  ends_later (skipn k (remove_skipped t)) -> ends_later (skipn k t).
Proof.
  revert k. unfold remove_skipped.
  apply (scan_ind match_skipped placeholder match_skipped_positive
           (fun t o => forall k, ends_later (skipn k o) ->
                                 ends_later (skipn k t))).
  - intros k. now rewrite !skipn_nil.
  - intros c s Hm IH [|k]; [|apply IH]. simpl.
    intros (a & b & E & H). destruct a as [|x a].
    + exists [], (c :: s). split; [reflexivity|].
      apply (marker_prefix_reflected skip_end end_apart);
        [apply tails_self, skip_end_not_empty|].
      unfold remove_skipped. rewrite (scan_no_match _ _ c s Hm).
      simpl in E. now rewrite E.
    + simpl in E. injection E as _ E.
      apply (ends_later_app [c]). apply (IH 0). now exists a, b.
  - intros c s n Hm IH k (a & b & E & H).
    rewrite skipn_app in E.
    assert (Hin : ends_later (skipn (k - length placeholder)
                                (scan match_skipped placeholder 0
                                   (skipn n (c :: s))))).
    { apply app_eq_app in E as [l [[Hp E]|[_ E]]].
      - destruct l as [|y l].
        + exists [], b. simpl in E. now rewrite app_nil_r in *.
        + exfalso. rewrite E in H.
          rewrite (marker_not_on_placeholder skip_end end_apart) in H;
            [discriminate|].
          apply in_tails. split; [discriminate|].
          exists (firstn k placeholder ++ a).
          rewrite <- app_assoc, <- Hp. now rewrite firstn_skipn.
      - now exists l, b. }
    apply IH in Hin. rewrite skipn_skipn in Hin.
    apply (ends_later_skipn k _ (c :: s)) in Hin; [exact Hin|].
    apply match_skipped_long in Hm. lia.
Qed.

(** The result holds no match of the pattern. *)
Lemma no_section_left (t a b : str) :
  remove_skipped t = a ++ b -> match_skipped b = None.
Proof.
  revert a b. unfold remove_skipped.
  apply (scan_ind match_skipped placeholder match_skipped_positive
           (fun t o => forall a b, o = a ++ b -> match_skipped b = None)).
  - intros a b E. symmetry in E. apply app_eq_nil in E as [_ ->].
    reflexivity.
  - intros c s Hm IH a b E. destruct a as [|x a].
    + simpl in E. subst b.
      destruct (match_skipped (c :: scan match_skipped placeholder 0 s))
        eqn:Hb; [|reflexivity].
      exfalso. assert (Hs : match_skipped (c :: s) <> None).
      { apply match_skipped_some.
        assert (Hb' : match_skipped
                        (c :: scan match_skipped placeholder 0 s) <> None)
          by congruence.
        apply match_skipped_some in Hb' as [H1 H2].
        rewrite <- (scan_no_match _ _ c s Hm) in H1, H2. split.
        - apply (marker_prefix_reflected skip_begin begin_apart);
            [apply tails_self, skip_begin_not_empty | exact H1].
        - now apply ends_later_reflected. }
      congruence.
    + simpl in E. injection E as _ E. now apply (IH a b).
  - intros c s n Hm IH a b E.
    apply app_eq_app in E as [l [[Hp E]|[_ E]]].
    + destruct l as [|y l].
      * simpl in E. now apply (IH [] b).
      * destruct (match_skipped b) eqn:Hb; [|reflexivity]. exfalso.
        assert (Hb' : match_skipped b <> None) by congruence.
        apply match_skipped_some in Hb' as [H1 _]. rewrite E in H1.
        rewrite (marker_not_on_placeholder skip_begin begin_apart) in H1;
          [discriminate|].
        rewrite Hp. now apply tails_app.
    + now apply (IH l b).
Qed.

(** The removal of the skipped sections is idempotent. *)
Lemma remove_skipped_idempotent (t : str) :
  remove_skipped (remove_skipped t) = remove_skipped t.
Proof.
  unfold remove_skipped at 1. apply scan_unchanged.
  intros a b E. now apply (no_section_left t a b).
Qed.

Lemma has_section_false (t : str) :
  has_section t = false <-> forall a b, t = a ++ b -> match_skipped b = None.
Proof.
  unfold has_section. split.
  - intros H a b E. destruct b as [|c b]; [reflexivity|].
    destruct (match_skipped (c :: b)) eqn:Hm; [|reflexivity].
    assert (Ht : existsb
                   (fun b0 => match match_skipped b0 with
                              | Some _ => true
                              | None => false
                              end) (tails t) = true).
    { apply existsb_exists. exists (c :: b). split.
      - rewrite E. now apply tails_app.
      - now rewrite Hm. }
    congruence.
  - intros H. apply not_true_is_false. intros Ht.
    apply existsb_exists in Ht as (b & Hb & Hm).
    apply in_tails in Hb as [_ [a E]]. now rewrite (H a b E) in Hm.
Qed.

(** Without a match, the removal changes nothing. *)
Lemma remove_skipped_unchanged (t : str) :
  has_section t = false -> remove_skipped t = t.
Proof.
  intros H. apply scan_unchanged. now apply has_section_false.
Qed.

End Sections.

(** The removal makes no occurrence of a text that is apart from the
    replacement text. *)
Section RemovalNoNew.

Variable q : str.
Hypothesis q_not_empty : q <> [].
Hypothesis q_apart : apart q placeholder = true.

Lemma removal_prefix_reflected (t w : str) :
  In w (tails q) ->
  startswith w (remove_skipped t) = true -> startswith w t = true.
Proof.
  revert w. unfold remove_skipped.
  apply (scan_ind match_skipped placeholder match_skipped_positive
           (fun t o => forall w, In w (tails q) ->
                                 startswith w o = true ->
                                 startswith w t = true)).
  - intros w Hw H. apply in_tails in Hw as [Hne _].
    destruct w; [congruence | discriminate].
  - intros c s _ IH w Hw H. destruct w as [|a w]; [reflexivity|].
    simpl in H |- *. apply andb_prop in H as [Ha H]. rewrite Ha. simpl.
    destruct w as [|b w]; [reflexivity|].
    apply IH; [|exact H]. apply (tails_tail a); [exact Hw | discriminate].
  - intros c s n _ _ w Hw H. apply comparable_app in H.
    rewrite (apart_front q placeholder q_apart w Hw) in H. discriminate.
Qed.

Lemma removal_occurrence_reflected (t : str) :
  occurs q (remove_skipped t) -> occurs q t.
Proof.
  unfold remove_skipped.
  apply (scan_ind match_skipped placeholder match_skipped_positive
           (fun t o => occurs q o -> occurs q t)).
  - tauto.
  - intros c s Hm IH (a & b & E). destruct a as [|x a].
    + apply occurs_prefix. apply removal_prefix_reflected;
        [now apply tails_self|].
      unfold remove_skipped. rewrite (scan_no_match _ _ c s Hm).
      simpl in E. rewrite E. apply startswith_app.
    + simpl in E. injection E as _ E. apply occurs_cons, IH.
      now exists a, b.
  - intros c s n Hm IH (a & b & E).
    assert (Ho : occurs q (skipn n (c :: s)) -> occurs q (c :: s)).
    { intros H. rewrite <- (firstn_skipn n (c :: s)). now apply occurs_app. }
    apply app_eq_app in E as [l [[Hp E]|[_ E]]].
    2: { apply Ho, IH. now exists l, b. }
    destruct l as [|y l].
    { simpl in E. apply Ho, IH. exists [], b. now rewrite <- E. }
    exfalso.
    assert (Hc : comparable (y :: l) q = true).
    { symmetry in E. unfold comparable.
      apply app_eq_app in E as [k [[-> _]|[-> _]]].
      - rewrite (startswith_app q k). apply orb_true_r.
      - now rewrite (startswith_app (y :: l) k). }
    rewrite (apart_back q placeholder q_apart) in Hc; [discriminate|].
    rewrite Hp. now apply tails_app.
Qed.

Lemma removal_no_new (t : str) :
  contains q t = false -> contains q (remove_skipped t) = false.
Proof.
  rewrite !not_contains_occurs. intros H Ho. apply H.
  now apply removal_occurrence_reflected.
Qed.

End RemovalNoNew.

(** ** The description rewriter *)

Section Description.

Lemma safe_after_no_new_end (q p rf v t : str) :
  is_version v = true -> p <> [] -> safe_after q p rf [] = true ->
  contains q t = false -> contains q (replace p (rf ++ v) t) = false.
Proof.
  intros Hv Hp Hs H. rewrite <- (app_nil_r v).
  now apply safe_after_no_new.
Qed.

Lemma gone_after_removed_end (p rf v t : str) :
  is_version v = true -> gone_after p rf [] = true ->
  contains p (replace p (rf ++ v) t) = false.
Proof.
  intros Hv Hs. rewrite <- (app_nil_r v). now apply gone_after_removed.
Qed.

(** After the five substitutions, with a version number, none of the last
    four search texts is left, and the first one is not left either if the
    text had none. *)
Lemma links_substituted homepage ver text :
  is_version ver = true ->
  (contains "docs/source/_static/" text = false ->
   contains "docs/source/_static/" (substitute_links homepage ver text) = false)
  /\ contains "badge/?version=stable" (substitute_links homepage ver text)
     = false
  /\ contains "lightning.readthedocs.io/en/stable/"
       (substitute_links homepage ver text) = false
  /\ contains "/branch/master/graph/badge.svg"
       (substitute_links homepage ver text) = false
  /\ contains "badge.svg?branch=master&event=push"
       (substitute_links homepage ver text) = false.
Proof.
  intros Hv. unfold substitute_links.
  set (r1 := OsPath.join (OsPath.join homepage ["raw" : str; ver])
               ["docs/source/_static/" : str]).
  set (t1 := replace "docs/source/_static/" r1 text).
  set (t2 := replace "badge/?version=stable" ("badge/?version=" ++ ver) t1).
  set (t3 := replace "lightning.readthedocs.io/en/stable/"
               ("lightning.readthedocs.io/en/" ++ ver) t2).
  set (t4 := replace "/branch/master/graph/badge.svg"
               ("/release/" ++ ver ++ "/graph/badge.svg") t3).
  assert (H2 : contains "badge/?version=stable" t2 = false)
    by (apply gone_after_removed_end; [exact Hv | vm_compute; reflexivity]).
  assert (H3 : contains "lightning.readthedocs.io/en/stable/" t3 = false)
    by (apply gone_after_removed_end; [exact Hv | vm_compute; reflexivity]).
  assert (H4 : contains "/branch/master/graph/badge.svg" t4 = false)
    by (apply gone_after_removed; [exact Hv | vm_compute; reflexivity]).
  repeat split.
  - intros H1.
    assert (H1' : contains "docs/source/_static/" t1 = false).
    { unfold t1. rewrite replace_absent; [exact H1 | discriminate | exact H1]. }
    apply safe_after_no_new_end;
      [exact Hv | discriminate | vm_compute; reflexivity |].
    apply safe_after_no_new;
      [exact Hv | discriminate | vm_compute; reflexivity |].
    apply safe_after_no_new_end;
      [exact Hv | discriminate | vm_compute; reflexivity |].
    apply safe_after_no_new_end;
      [exact Hv | discriminate | vm_compute; reflexivity | exact H1'].
  - apply safe_after_no_new_end;
      [exact Hv | discriminate | vm_compute; reflexivity |].
    apply safe_after_no_new;
      [exact Hv | discriminate | vm_compute; reflexivity |].
    apply safe_after_no_new_end;
      [exact Hv | discriminate | vm_compute; reflexivity | exact H2].
  - apply safe_after_no_new_end;
      [exact Hv | discriminate | vm_compute; reflexivity |].
    apply safe_after_no_new;
      [exact Hv | discriminate | vm_compute; reflexivity | exact H3].
  - apply safe_after_no_new_end;
      [exact Hv | discriminate | vm_compute; reflexivity | exact H4].
  - apply gone_after_removed_end; [exact Hv | vm_compute; reflexivity].
Qed.

(** The same for the finished description: the removal of the skipped
    sections brings none of the search texts back. *)
Lemma description_clean homepage ver text :
  is_version ver = true ->
  (contains "docs/source/_static/" text = false ->
   contains "docs/source/_static/" (rewrite_description homepage ver text)
   = false)
  /\ contains "badge/?version=stable" (rewrite_description homepage ver text)
     = false
  /\ contains "lightning.readthedocs.io/en/stable/"
       (rewrite_description homepage ver text) = false
  /\ contains "/branch/master/graph/badge.svg"
       (rewrite_description homepage ver text) = false
  /\ contains "badge.svg?branch=master&event=push"
       (rewrite_description homepage ver text) = false.
Proof.
  intros Hv. unfold rewrite_description.
  destruct (links_substituted homepage ver text Hv)
    as (H1 & H2 & H3 & H4 & H5).
  repeat split.
  - intros H. apply removal_no_new;
      [discriminate | vm_compute; reflexivity | now apply H1].
  - apply removal_no_new; [discriminate | vm_compute; reflexivity | exact H2].
  - apply removal_no_new; [discriminate | vm_compute; reflexivity | exact H3].
  - apply removal_no_new; [discriminate | vm_compute; reflexivity | exact H4].
  - apply removal_no_new; [discriminate | vm_compute; reflexivity | exact H5].
Qed.

Lemma rewrite_twice homepage ver text :
  is_version ver = true ->
  contains "docs/source/_static/" text = false ->
  rewrite_description homepage ver (rewrite_description homepage ver text)
  = rewrite_description homepage ver text.
Proof.
  intros Hv Hs.
  destruct (description_clean homepage ver text Hv)
    as (H1 & H2 & H3 & H4 & H5).
  specialize (H1 Hs).
  set (out := rewrite_description homepage ver text) in *.
  unfold rewrite_description at 1. unfold substitute_links.
  rewrite (replace_absent "docs/source/_static/" _ ltac:(discriminate)
             out H1).
  rewrite (replace_absent "badge/?version=stable" _ ltac:(discriminate)
             out H2).
  rewrite (replace_absent "lightning.readthedocs.io/en/stable/" _
             ltac:(discriminate) out H3).
  rewrite (replace_absent "/branch/master/graph/badge.svg" _
             ltac:(discriminate) out H4).
  rewrite (replace_absent "badge.svg?branch=master&event=push" _
             ltac:(discriminate) out H5).
  unfold out, rewrite_description. apply remove_skipped_idempotent.
Qed.

(** C1 (amended).  With a version number (digits and dots, a digit first),
    for every README text and every homepage: on the rewritten text, the
    four badge and link substitutions that follow the first one are no-ops,
    and so is the removal of the skipped sections; and when the text has no
    [docs/source/_static/], the description rewriter applied twice gives
    what it gives applied once. *)
Theorem rewrite_idempotent homepage ver text :
  is_version ver = true ->
  replace "badge/?version=stable" ("badge/?version=" ++ ver)
    (rewrite_description homepage ver text)
  = rewrite_description homepage ver text
  /\ replace "lightning.readthedocs.io/en/stable/"
       ("lightning.readthedocs.io/en/" ++ ver)
       (rewrite_description homepage ver text)
     = rewrite_description homepage ver text
  /\ replace "/branch/master/graph/badge.svg"
       ("/release/" ++ ver ++ "/graph/badge.svg")
       (rewrite_description homepage ver text)
     = rewrite_description homepage ver text
  /\ replace "badge.svg?branch=master&event=push" ("badge.svg?tag=" ++ ver)
       (rewrite_description homepage ver text)
     = rewrite_description homepage ver text
  /\ remove_skipped (rewrite_description homepage ver text)
     = rewrite_description homepage ver text
  /\ (contains "docs/source/_static/" text = false ->
      rewrite_description homepage ver (rewrite_description homepage ver text)
      = rewrite_description homepage ver text).
Proof.
  intros Hv.
  destruct (description_clean homepage ver text Hv)
    as (_ & H2 & H3 & H4 & H5).
  split; [apply replace_absent; [discriminate | exact H2]|].
  split; [apply replace_absent; [discriminate | exact H3]|].
  split; [apply replace_absent; [discriminate | exact H4]|].
  split; [apply replace_absent; [discriminate | exact H5]|].
  split; [apply remove_skipped_idempotent|].
  now apply rewrite_twice.
Qed.

Lemma rewrite_idempotent_witness :
  (is_version "1.2.3" = true
   /\ contains "docs/source/_static/" readme_example = false)
  /\ rewrite_description "https://github.com/o/r" "1.2.3"
       (rewrite_description "https://github.com/o/r" "1.2.3" readme_example)
     = rewrite_description "https://github.com/o/r" "1.2.3" readme_example
  /\ rewrite_description "https://github.com/o/r" "1.2.3" readme_example
     = "[docs](https://lightning.readthedocs.io/en/1.2.3) "
       ++ "![b](https://readthedocs.org/projects/x/badge/?version=1.2.3)"
       ++ placeholder ++ skip_begin.
Proof.
  split; [split; vm_compute; reflexivity|]. split.
  - apply (rewrite_idempotent "https://github.com/o/r" "1.2.3" readme_example);
      vm_compute; reflexivity.
  - vm_compute; reflexivity.
Defined.

(** C1, as stated, fails: the new text of the first substitution ends in
    the text it replaces, so a second pass rewrites the link again; and a
    begin marker without an end marker stays in the text. *)
Lemma rewrite_idempotent_counterexample :
  rewrite_description "https://h" "1.2.3" "docs/source/_static/"
  = "https://h/raw/1.2.3/docs/source/_static/"
  /\ rewrite_description "https://h" "1.2.3"
       (rewrite_description "https://h" "1.2.3" "docs/source/_static/")
     = "https://h/raw/1.2.3/https://h/raw/1.2.3/docs/source/_static/"
  /\ rewrite_description "https://h" "1.2.3" skip_begin = skip_begin
  /\ ~ rewrite_idempotent_as_stated.
Proof.
  split; [vm_compute; reflexivity|]. split; [vm_compute; reflexivity|].
  split; [vm_compute; reflexivity|]. intros H.
  specialize (H "https://h" "1.2.3" "docs/source/_static/").
  vm_compute in H. discriminate.
Qed.





Lemma in_replace c (old new s : str) :
  old <> [] -> In c (replace old new s) -> In c s \/ In c new.
Proof.
  intros Ho.
  apply (replace_ind old new Ho (fun s o => In c o -> In c s \/ In c new)).
  - tauto.
  - intros x t _ IH [->|H]; [left; now left|].
    destruct (IH H) as [H'|H']; [left; now right | now right].
  - intros t IH H. apply in_app_or in H as [H|H]; [now right|].
    destruct (IH H) as [H'|H']; [|now right].
    left. apply in_or_app. now right.
Qed.







Lemma same_nocase_length (u v : str) : same_nocase u v -> length u = length v.
Proof.
  unfold same_nocase. intros H. apply (f_equal (@length ascii)) in H.
  now rewrite !length_map in H.
Qed.

(** A match of the pattern, spelled out: a begin marker, at least one
    character, an end marker. *)
Lemma match_skipped_section (s : str) :
  match_skipped s <> None <->
  exists B x E rest,
    s = B ++ x ++ E ++ rest /\ same_nocase B skip_begin
    /\ same_nocase E skip_end /\ x <> [].
Proof.
  rewrite match_skipped_some. split.
  - intros [Hb (a & b & E & He)].
    apply startswith_nocase_split in Hb as (B & rest0 & -> & HB).
    apply startswith_nocase_split in He as (E' & rest & -> & HE).
    pose proof (same_nocase_length _ _ HB) as HlB.
    rewrite skipn_app in E. rewrite skipn_all2 in E by lia.
    replace (length skip_begin + 1 - length B) with 1 in E by lia.
    destruct rest0 as [|c rest0].
    + simpl in E. symmetry in E. apply app_eq_nil in E as [_ E].
      apply app_eq_nil in E as [-> _].
      apply same_nocase_length in HE. discriminate.
    + simpl in E. change (rest0 = a ++ E' ++ rest) in E. subst rest0.
      exists B, (c :: a), E', rest.
      split; [reflexivity|]. split; [exact HB|]. split; [exact HE|].
      discriminate.
  - intros (B & x & E & rest & -> & HB & HE & Hx). split.
    + apply startswith_nocase_split. now exists B, (x ++ E ++ rest).
    + pose proof (same_nocase_length _ _ HB) as HlB.
      rewrite skipn_app. rewrite skipn_all2 by lia.
      replace (length skip_begin + 1 - length B) with 1 by lia.
      destruct x as [|c x]; [congruence|].
      exists x, (E ++ rest). split; [reflexivity|].
      apply startswith_nocase_split. now exists E, rest.
Qed.

Lemma startswith_nocase_length (p s : str) :
  startswith_nocase p s = true -> length p <= length s.
Proof.
  revert s. induction p as [|a p IH]; intros s H; simpl; [lia|].
  destruct s as [|b s]; [discriminate|]. simpl in H |- *.
  apply andb_prop in H as [_ H]. apply IH in H. lia.
Qed.

(** The removal never makes a text longer, and it makes a text with a
    section shorter. *)
Lemma remove_skipped_shorter (t : str) :
  length (remove_skipped t) <= length t
  /\ (has_section t = true -> length (remove_skipped t) < length t).
Proof.
  unfold remove_skipped.
  apply (scan_ind match_skipped placeholder match_skipped_positive
           (fun t o => length o <= length t
                       /\ (has_section t = true -> length o < length t))).
  - split; [reflexivity | discriminate].
  - intros c s Hm [IH1 IH2]. split; [simpl; lia|].
    unfold has_section. cbn [tails existsb]. rewrite Hm. simpl.
    intros H. apply IH2 in H. lia.
  - intros c s n Hm [IH1 _].
    assert (Hlt : length (placeholder
                          ++ scan match_skipped placeholder 0 (skipn n (c :: s)))
                  < length (c :: s)).
    { rewrite length_app. pose proof (length_skipn n (c :: s)) as Hk.
      assert (Hb : length skip_begin <= length (c :: s)).
      { apply startswith_nocase_length. unfold match_skipped in Hm.
        destruct (startswith_nocase skip_begin (c :: s));
          [reflexivity | discriminate]. }
      assert (Hn : length skip_begin + 1 + length skip_end <= n).
      { unfold match_skipped in Hm.
        destruct (startswith_nocase skip_begin (c :: s)); [|discriminate].
        destruct (find_nocase skip_end _); [|discriminate].
        injection Hm as Hm. change (length skip_begin) with 64.
        change (length skip_end) with 38. lia. }
      change (length skip_begin) with 64 in *.
      change (length skip_end) with 38 in *.
      change (length placeholder) with 9. lia. }
    split; [lia | intros _; exact Hlt].
Qed.

(** C9.  The removal changes a text only when the text holds a begin
    marker, then at least one character, then an end marker (the markers
    in any case of their letters), and it does change such a text; a text
    in which no begin marker is followed by an end marker with something
    between, because no end marker follows or because the two are adjacent,
    is left as it is. *)
Theorem skipped_section_rule (t : str) :
  (remove_skipped t <> t <->
   exists a B x E b,
     t = a ++ B ++ x ++ E ++ b /\ same_nocase B skip_begin
     /\ same_nocase E skip_end /\ x <> [])
  /\ ((forall a B x E b,
         t = a ++ B ++ x ++ E ++ b -> same_nocase B skip_begin ->
         same_nocase E skip_end -> x = []) ->
      remove_skipped t = t).
Proof.
  destruct (has_section t) eqn:Hs.
  - assert (Hne : remove_skipped t <> t).
    { intros E. pose proof (proj2 (remove_skipped_shorter t) Hs) as H.
      rewrite E in H. lia. }
    unfold has_section in Hs. apply existsb_exists in Hs as (s & Hin & Hm).
    apply in_tails in Hin as [_ [a Ht]].
    assert (Hm' : match_skipped s <> None)
      by (destruct (match_skipped s); [discriminate | discriminate]).
    apply match_skipped_section in Hm'
      as (B & x & E & rest & -> & HB & HE & Hx).
    split.
    + split; [|intros _; exact Hne]. intros _. now exists a, B, x, E, rest.
    + intros H. exfalso. apply Hx. now apply (H a B x E rest).
  - pose proof (remove_skipped_unchanged t Hs) as Hu. split; [|now intros _].
    split; [intros H; now destruct H|].
    intros (a & B & x & E & b & Ht & HB & HE & Hx). exfalso.
    rewrite has_section_false in Hs. specialize (Hs a _ Ht).
    revert Hs. apply match_skipped_section. now exists B, x, E, b.
Qed.

Lemma skipped_section_rule_witness :
  (remove_skipped ("a" ++ skip_begin ++ "x" ++ skip_end ++ "b")
   <> "a" ++ skip_begin ++ "x" ++ skip_end ++ "b"
   /\ exists a B x E b,
        "a" ++ skip_begin ++ "x" ++ skip_end ++ "b" = a ++ B ++ x ++ E ++ b
        /\ same_nocase B skip_begin /\ same_nocase E skip_end /\ x <> [])
  /\ ((forall a B x E b,
         "intro " ++ skip_begin ++ skip_end ++ " outro" = a ++ B ++ x ++ E ++ b ->
         same_nocase B skip_begin -> same_nocase E skip_end -> x = [])
      /\ remove_skipped ("intro " ++ skip_begin ++ skip_end ++ " outro")
         = "intro " ++ skip_begin ++ skip_end ++ " outro")
  /\ remove_skipped ("a" ++ skip_begin ++ "x" ++ skip_end ++ "b")
     = "a" ++ placeholder ++ "b"
  /\ remove_skipped ("intro " ++ skip_begin ++ " no end marker")
     = "intro " ++ skip_begin ++ " no end marker".
Proof.
  assert (H1 : remove_skipped ("a" ++ skip_begin ++ "x" ++ skip_end ++ "b")
               <> "a" ++ skip_begin ++ "x" ++ skip_end ++ "b")
    by (vm_compute; discriminate).
  assert (H2 : forall a B x E b,
             "intro " ++ skip_begin ++ skip_end ++ " outro"
             = a ++ B ++ x ++ E ++ b ->
             same_nocase B skip_begin -> same_nocase E skip_end -> x = []).
  { intros a B x E b Ht HB HE. destruct x as [|c x]; [reflexivity|].
    exfalso.
    assert (Hs : has_section ("intro " ++ skip_begin ++ skip_end ++ " outro")
                 = false) by (vm_compute; reflexivity).
    rewrite has_section_false in Hs. specialize (Hs a _ Ht).
    revert Hs. apply match_skipped_section.
    exists B, (c :: x), E, b. split; [reflexivity|]. split; [exact HB|].
    split; [exact HE | discriminate]. }
  split; [|split; [|split; vm_compute; reflexivity]].
  - split; [exact H1|].
    exact (proj1 (proj1 (skipped_section_rule _)) H1).
  - split; [exact H2|].
    exact (proj2 (skipped_section_rule _) H2).
Defined.

End Description.

(** * Further properties *)

(** ** Requirement loader: the shape of the result *)

Section Lines.

Lemma rstrip_idem (a : str) : rstrip (rstrip a) = rstrip a.
Proof. unfold rstrip. now rewrite rev_involutive, lstrip_idem. Qed.

Lemma strip_idem (a : str) : strip (strip a) = strip a.
Proof.
  unfold strip. rewrite rstrip_lstrip, rstrip_idem. apply lstrip_idem.
Qed.

Lemma lstrip_suffix (a : str) : exists ws, a = ws ++ lstrip a.
Proof.
  induction a as [|x a [ws IH]]; simpl.
  - now exists [].
  - destruct (is_space x); [|now exists []].
    exists (x :: ws). simpl. now rewrite <- IH.
Qed.

Lemma rstrip_prefix (a : str) : exists ws, a = rstrip a ++ ws.
Proof.
  unfold rstrip. destruct (lstrip_suffix (rev a)) as [ws H].
  exists (rev ws). rewrite <- rev_app_distr, <- H. now rewrite rev_involutive.
Qed.

Lemma strip_inside (a : str) : exists u v, a = u ++ strip a ++ v.
Proof.
  unfold strip. destruct (rstrip_prefix a) as [v Hv].
  destruct (lstrip_suffix (rstrip a)) as [u Hu].
  exists u, v. rewrite app_assoc, <- Hu. exact Hv.
Qed.

Lemma rstrip_app_space (a : str) c :
  is_space c = true -> rstrip (a ++ [c]) = rstrip a.
Proof.
  intros Hc. unfold rstrip. rewrite rev_app_distr. simpl. now rewrite Hc.
Qed.

Lemma in_rstrip x (a : str) : In x (rstrip a) -> In x a.
Proof.
  unfold rstrip. intros H. apply in_rev in H. apply in_lstrip in H.
  now apply in_rev.
Qed.

Lemma no_return_left (s : str) : ~ In "013"%char (universal_newlines s).
Proof.
  induction s as [|c s IH]; simpl; [tauto|].
  destruct (Ascii.eqb_spec c "013") as [->|Hc].
  - destruct s as [|d s]; [simpl; intuition discriminate|].
    destruct (Ascii.eqb d "010"); [exact IH|].
    simpl in *. intuition discriminate.
  - simpl. intros [E|E]; [now apply Hc | now apply IH].
Qed.

Lemma universal_newlines_plain (s : str) :
  ~ In "013"%char s -> universal_newlines s = s.
Proof.
  induction s as [|c s IH]; simpl; [reflexivity|]. intros H.
  destruct (Ascii.eqb_spec c "013") as [->|Hc]; [tauto|].
  f_equal. apply IH. tauto.
Qed.

(** Every line ends at its first line feed, if it has one. *)
Lemma lines_shape (s : str) :
  Forall (fun l => exists b, (l = b ++ ["010"%char] \/ l = b)
                             /\ ~ In "010"%char b /\ forall x, In x b -> In x s)
    (lines_keepends s).
Proof.
  induction s as [|c s IH]; simpl; [constructor|].
  destruct (Ascii.eqb_spec c "010") as [->|Hc].
  - constructor.
    + exists []. split; [now left|]. split; simpl; tauto.
    + eapply List.Forall_impl; [|exact IH]. simpl.
      intros l (b & Hl & Hb & Hs). exists b. repeat split; auto.
  - destruct (lines_keepends s) as [|l ls]; simpl.
    + constructor; [|constructor]. exists [c]. split; [now right|].
      split; simpl; [intuition congruence | tauto].
    + inversion IH as [|? ? (b & Hl & Hb & Hs) Hls]; subst.
      constructor.
      * exists (c :: b). split; [destruct Hl as [->| ->]; auto|].
        split; simpl; [intuition congruence|]. intros x [E|E]; auto.
      * eapply List.Forall_impl; [|exact Hls]. simpl.
        intros l' (b' & Hl' & Hb' & Hs'). exists b'. repeat split; auto.
Qed.

Lemma strip_line (l : str) :
  (exists b, (l = b ++ ["010"%char] \/ l = b) /\ ~ In "010"%char b
             /\ forall x, In x b -> ~ x = "013"%char) ->
  ~ In "010"%char (strip l) /\ ~ In "013"%char (strip l).
Proof.
  intros (b & Hl & Hb & Hr).
  assert (E : strip l = strip b).
  { destruct Hl as [->| ->]; [|reflexivity]. unfold strip.
    now rewrite rstrip_app_space. }
  rewrite E. split; intros H; apply in_strip in H; [tauto|].
  now apply (Hr _ H).
Qed.

Lemma readlines_stripped (content : str) :
  Forall (fun l => ~ In "010"%char l /\ ~ In "013"%char l)
    (map strip (readlines content)).
Proof.
  unfold readlines. apply Forall_map.
  eapply List.Forall_impl; [|apply lines_shape]. simpl.
  intros l (b & Hl & Hb & Hs). apply strip_line. exists b.
  repeat split; auto. intros x Hx ->.
  now apply (no_return_left content), Hs.
Qed.

End Lines.

Section Leftmost.

Variable p : str.
Hypothesis p_not_empty : p <> [].

Lemma startswith_firstn k (s : str) :
  startswith p (firstn k s) = true -> startswith p s = true.
Proof.
  revert k s. induction p as [|a q IH]; intros k s; [reflexivity|].
  destruct k, s; simpl; try discriminate.
  intros H. apply andb_prop in H as [H1 H2]. rewrite H1. simpl.
  destruct q as [|b q']; [reflexivity|].
  apply (IH ltac:(discriminate) k s H2).
Qed.

Lemma find_empty : find p [] = None.
Proof. destruct p; [contradiction | reflexivity]. Qed.

(** The text before the first occurrence holds no occurrence. *)
Lemma find_leftmost (s : str) i :
  find p s = Some i -> find p (firstn i s) = None.
Proof.
  revert i. induction s as [|c s IH]; intros i.
  - rewrite firstn_nil. intros _. apply find_empty.
  - simpl. destruct (startswith p (c :: s)) eqn:Hs.
    + intros [= <-]. simpl. apply find_empty.
    + destruct (find p s) as [j|] eqn:Hf; [|discriminate].
      intros [= <-]. simpl.
      destruct (startswith p (c :: firstn j s)) eqn:Hs'.
      * apply (startswith_firstn (S j) (c :: s)) in Hs'. congruence.
      * now rewrite (IH j eq_refl).
Qed.

Lemma contains_inside (a s b : str) :
  contains p (a ++ s ++ b) = false -> contains p s = false.
Proof.
  rewrite !contains_false. intros H u v ->. apply (H (a ++ u) (v ++ b)).
  now rewrite <- !app_assoc.
Qed.

End Leftmost.

Section RequirementsShape.

Variable comment_char : str.

Lemma cleaned_empty_marker (l : str) : cleaned [] l = [].
Proof. destruct l; reflexivity. Qed.

Lemma cleaned_no_marker (l : str) :
  comment_char <> [] -> contains comment_char (cleaned comment_char l) = false.
Proof.
  intros Hne. unfold cleaned.
  destruct (contains comment_char l) eqn:Hc; [|exact Hc].
  unfold contains, index in *.
  destruct (find comment_char l) as [i|] eqn:Hf; [|discriminate].
  pose proof (find_leftmost comment_char Hne l i Hf) as Hl.
  destruct (strip_inside (firstn i l)) as (u & v & E).
  assert (Hn : contains comment_char (firstn i l) = false)
    by (unfold contains; now rewrite Hl).
  rewrite E in Hn. apply (contains_inside comment_char) in Hn.
  unfold contains in Hn. exact Hn.
Qed.

Lemma cleaned_stripped (l : str) :
  strip (cleaned comment_char (strip l)) = cleaned comment_char (strip l).
Proof.
  unfold cleaned. destruct (contains comment_char (strip l));
    apply strip_idem.
Qed.

Lemma in_cleaned x (l : str) : In x (cleaned comment_char l) -> In x l.
Proof.
  unfold cleaned. destruct (contains comment_char l); [|tauto].
  intros H. apply in_strip in H.
  rewrite <- (firstn_skipn (index comment_char l) l).
  apply in_or_app. now left.
Qed.

Lemma spec_keeps_true (r : str) :
  spec_keeps r = true ->
  r <> [] /\ startswith "http" r = false
  /\ startswith "--extra-index-url" r = false.
Proof.
  unfold spec_keeps. intros H.
  apply andb_prop in H as [H H3]. apply andb_prop in H as [H1 H2].
  apply negb_true_iff in H1, H2, H3. repeat split; try assumption.
  intros ->. discriminate.
Qed.

Lemma loaded_well_formed (content : str) :
  Forall (well_formed comment_char)
    (load_requirements_from content comment_char).
Proof.
  unfold load_requirements_from. rewrite requirement_loop. simpl.
  apply List.Forall_forall. intros r Hr.
  apply filter_In in Hr as [Hr Hk]. apply in_map_iff in Hr as (l & <- & Hl).
  apply spec_keeps_true in Hk as (Hne & Hh & Hx).
  pose proof (readlines_stripped content) as Hs.
  rewrite List.Forall_forall in Hs. destruct (Hs l Hl) as [Hn Hc].
  apply in_map_iff in Hl as (raw & <- & _).
  assert (Hm : comment_char <> []).
  { intros E. apply Hne. rewrite E. apply cleaned_empty_marker. }
  repeat split; auto.
  - apply cleaned_stripped.
  - now apply cleaned_no_marker.
  - intros H. apply Hn. now apply in_cleaned in H.
  - intros H. apply Hc. now apply in_cleaned in H.
Qed.

(** Reading back requirements that were written one per line. *)
Lemma lines_keepends_line (r rest : str) :
  ~ In "010"%char r ->
  lines_keepends (r ++ nl ++ rest) = (r ++ nl) :: lines_keepends rest.
Proof.
  induction r as [|c r IH]; intros Hn; [reflexivity|].
  change ((c :: r) ++ nl ++ rest) with (c :: (r ++ nl ++ rest)).
  cbn [lines_keepends].
  destruct (Ascii.eqb_spec c "010") as [->|Hc];
    [exfalso; apply Hn; now left|].
  rewrite IH by (intros H; apply Hn; now right). reflexivity.
Qed.

Lemma lines_keepends_single (r : str) :
  r <> [] -> ~ In "010"%char r -> lines_keepends r = [r].
Proof.
  induction r as [|c r IH]; intros Hne Hn; [contradiction|].
  cbn [lines_keepends].
  destruct (Ascii.eqb_spec c "010") as [->|Hc];
    [exfalso; apply Hn; now left|].
  destruct r as [|d r]; [reflexivity|].
  rewrite IH; [reflexivity | discriminate | intros H; apply Hn; now right].
Qed.

Lemma strip_line_end (r : str) : strip (r ++ nl) = strip r.
Proof. unfold strip, nl. now rewrite rstrip_app_space. Qed.

Lemma lines_of_join (rs : list str) :
  Forall (fun x => x <> [] /\ strip x = x /\ ~ In "010"%char x) rs ->
  map strip (lines_keepends (join nl rs)) = rs.
Proof.
  induction rs as [|r rs IH]; intros H; [reflexivity|].
  inversion H as [|? ? (Hne & Hs & Hn) Hrest]; subst.
  destruct rs as [|r' rs].
  - simpl. rewrite lines_keepends_single by assumption. simpl. now rewrite Hs.
  - change (join nl (r :: r' :: rs)) with (r ++ nl ++ join nl (r' :: rs)).
    rewrite lines_keepends_line by assumption. cbn [map].
    rewrite strip_line_end, Hs, (IH Hrest). reflexivity.
Qed.

Lemma in_join x (sep : str) (rs : list str) :
  In x (join sep rs) -> In x sep \/ exists r, In r rs /\ In x r.
Proof.
  induction rs as [|r rs IH]; [intros []|].
  destruct rs as [|r' rs].
  - simpl. intros H. right. exists r. split; [now left | exact H].
  - change (join sep (r :: r' :: rs)) with (r ++ sep ++ join sep (r' :: rs)).
    intros H. apply in_app_or in H as [H|H].
    + right. exists r. split; [now left | exact H].
    + apply in_app_or in H as [H|H]; [now left|].
      destruct (IH H) as [H'|(r0 & Hr0 & Hx)]; [now left|].
      right. exists r0. split; [now right | exact Hx].
Qed.

Lemma cleaned_absent (r : str) :
  contains comment_char r = false -> cleaned comment_char r = r.
Proof. unfold cleaned. now intros ->. Qed.

Lemma well_formed_kept (r : str) :
  well_formed comment_char r -> spec_keeps r = true.
Proof.
  intros (Hne & _ & _ & Hh & Hx & _). unfold spec_keeps.
  rewrite Hh, Hx. destruct r; [contradiction | reflexivity].
Qed.

(** Requirements written one per line are loaded as they are. *)
Lemma load_written (rs : list str) :
  Forall (well_formed comment_char) rs ->
  load_requirements_from (join nl rs) comment_char = rs.
Proof.
  intros H. unfold load_requirements_from, readlines.
  rewrite requirement_loop. cbn [app].
  rewrite universal_newlines_plain.
  - rewrite lines_of_join.
    + induction H as [|r rs Hr Hrs IH]; [reflexivity|]. cbn [map List.filter].
      destruct Hr as (Hne & Hs & Hc & Hh & Hx & Hn & Hcr).
      rewrite (cleaned_absent r Hc).
      rewrite (well_formed_kept r); [now rewrite IH|].
      repeat split; assumption.
    + eapply List.Forall_impl; [|exact H]. simpl.
      intros r (Hne & Hs & _ & _ & _ & Hn & _). auto.
  - intros Hin. apply in_join in Hin as [Hin|(r & Hr & Hin)].
    + destruct Hin as [E|[]]. discriminate E.
    + rewrite List.Forall_forall in H.
      destruct (H r Hr) as (_ & _ & _ & _ & _ & _ & Hcr). now apply Hcr.
Qed.

End RequirementsShape.

(** X1.  Every requirement that the loader returns is one trimmed line:
    it is not empty, has no white space at either end and no line end
    inside, does not hold the comment marker, and starts neither with
    [http] nor with [--extra-index-url].  This holds for every content of
    the file and for every comment marker. *)
Theorem requirements_well_formed (fs : filesystem)
    (path_dir file_name comment_char : str) (reqs : list str) :
  _load_requirements fs path_dir file_name comment_char = Some reqs ->
  Forall (well_formed comment_char) reqs.
Proof.
  unfold _load_requirements.
  destruct (fs !! OsPath.join path_dir [file_name]) as [content|];
    [|discriminate].
  intros [= <-]. apply loaded_well_formed.
Qed.

Lemma requirements_well_formed_witness :
  _load_requirements {[ ("proj/requirements.txt" : str)
                          := requirements_example ]}
    "proj" "requirements.txt" "#"
  = Some ["numpy>=1.17" : str; "torch" : str]
  /\ Forall (well_formed "#") ["numpy>=1.17" : str; "torch" : str].
Proof.
  assert (E : _load_requirements {[ ("proj/requirements.txt" : str)
                                      := requirements_example ]}
                "proj" "requirements.txt" "#"
              = Some ["numpy>=1.17" : str; "torch" : str])
    by (vm_compute; reflexivity).
  split; [exact E|].
  exact (requirements_well_formed _ _ _ _ _ E).
Defined.

(** X2.  Loading is idempotent on its own result: when the requirements
    that were loaded are written back to the file, one per line, the loader
    returns the same list again. *)
Theorem requirements_reloaded (fs : filesystem)
    (path_dir file_name comment_char : str) (reqs : list str) :
  _load_requirements fs path_dir file_name comment_char = Some reqs ->
  _load_requirements
    (<[OsPath.join path_dir [file_name] := join nl reqs]> fs)
    path_dir file_name comment_char
  = Some reqs.
Proof.
  unfold _load_requirements. rewrite lookup_insert_eq.
  destruct (fs !! OsPath.join path_dir [file_name]) as [content|];
    [|discriminate].
  intros [= <-]. f_equal. apply load_written, loaded_well_formed.
Qed.

Lemma requirements_reloaded_witness :
  _load_requirements {[ ("proj/requirements.txt" : str)
                          := requirements_example ]}
    "proj" "requirements.txt" "#"
  = Some ["numpy>=1.17" : str; "torch" : str]
  /\ join nl ["numpy>=1.17" : str; "torch" : str]
     = "numpy>=1.17" ++ nl ++ "torch"
  /\ _load_requirements
       (<[OsPath.join "proj" ["requirements.txt" : str]
          := join nl ["numpy>=1.17" : str; "torch" : str]]>
          {[ ("proj/requirements.txt" : str) := requirements_example ]})
       "proj" "requirements.txt" "#"
     = Some ["numpy>=1.17" : str; "torch" : str].
Proof.
  assert (E : _load_requirements {[ ("proj/requirements.txt" : str)
                                      := requirements_example ]}
                "proj" "requirements.txt" "#"
              = Some ["numpy>=1.17" : str; "torch" : str])
    by (vm_compute; reflexivity).
  split; [exact E|]. split; [reflexivity|].
  exact (requirements_reloaded _ _ _ _ _ E).
Defined.

(** X3.  With the empty string as comment marker the loader returns the
    empty list, whatever the file holds: the empty string is found in every
    line, at index 0, so every line is cut down to nothing. *)
Theorem empty_comment_marker (fs : filesystem)
    (path_dir file_name content : str) :
  fs !! OsPath.join path_dir [file_name] = Some content ->
  _load_requirements fs path_dir file_name [] = Some [].
Proof.
  intros Hf. unfold _load_requirements. rewrite Hf. f_equal.
  unfold load_requirements_from. rewrite requirement_loop. cbn [app].
  induction (map strip (readlines content)) as [|l ls IH]; [reflexivity|].
  cbn [map List.filter]. rewrite cleaned_empty_marker. exact IH.
Qed.

Lemma empty_comment_marker_witness :
  ({[ ("proj/requirements.txt" : str) := requirements_example ]} : filesystem)
    !! OsPath.join "proj" ["requirements.txt" : str]
  = Some requirements_example
  /\ _load_requirements {[ ("proj/requirements.txt" : str)
                             := requirements_example ]}
       "proj" "requirements.txt" []
     = Some [].
Proof.
  assert (E : ({[ ("proj/requirements.txt" : str) := requirements_example ]}
                 : filesystem)
                !! OsPath.join "proj" ["requirements.txt" : str]
              = Some requirements_example) by (vm_compute; reflexivity).
  split; [exact E|].
  exact (empty_comment_marker _ "proj" "requirements.txt" _ E).
Defined.


(** ** Description rewriter: sections by search, links for every version *)

Section SectionsBySearch.

Lemma find_nocase_least (p s : str) i :
  find_nocase p s = Some i ->
  forall a b, s = a ++ b -> startswith_nocase p b = true -> i <= length a.
Proof.
  revert i. induction s as [|c s IH]; intros i Hf a b E Hb.
  - simpl in Hf. destruct (startswith_nocase p []); [|discriminate].
    injection Hf as <-. lia.
  - simpl in Hf. destruct (startswith_nocase p (c :: s)) eqn:Hs.
    + injection Hf as <-. lia.
    + destruct (find_nocase p s) as [j|] eqn:Hj; [|discriminate].
      injection Hf as <-. destruct a as [|x a].
      * simpl in E. subst b. congruence.
      * injection E as _ E. simpl. apply le_n_S. now apply (IH j eq_refl a b).
Qed.

Lemma find_nocase_suffix (p s : str) k :
  find_nocase p s = None -> find_nocase p (skipn k s) = None.
Proof.
  intros H. destruct (find_nocase p (skipn k s)) as [j|] eqn:Hj;
    [|reflexivity].
  apply find_nocase_some in Hj as (a & b & E & _ & Hb).
  rewrite (find_nocase_none p s H (firstn k s ++ a) b) in Hb; [discriminate|].
  rewrite <- app_assoc, <- E. symmetry. apply firstn_skipn.
Qed.

Lemma match_skipped_begins (s : str) :
  startswith_nocase skip_begin s = false -> match_skipped s = None.
Proof. unfold match_skipped. now intros ->. Qed.

Lemma remove_skipped_no_begin (a rest : str) :
  (forall u v, a = u ++ v -> v <> [] ->
               startswith_nocase skip_begin (v ++ rest) = false) ->
  remove_skipped (a ++ rest) = a ++ remove_skipped rest.
Proof.
  unfold remove_skipped. induction a as [|c a IH]; intros H; [reflexivity|].
  simpl app. rewrite scan_no_match.
  - f_equal. apply IH. intros u v -> Hv. apply (H (c :: u) v); auto.
  - apply match_skipped_begins. apply (H [] (c :: a)); [reflexivity|].
    discriminate.
Qed.

Lemma skipn_skipn_add {A} i j (l : list A) :
  skipn i (skipn j l) = skipn (j + i) l.
Proof.
  revert l. induction j as [|j IH]; intros l; [reflexivity|].
  destruct l as [|x l]; [now rewrite !skipn_nil|]. simpl. apply IH.
Qed.

(** X4.  The removal of the skipped sections, told by searching: the
    text before the first begin marker is kept; that marker, one character
    at least, and the text up to and with the first end marker after that
    character become the placeholder; what follows is treated in the same
    way.  A text without a begin marker, or without an end marker behind
    the first begin marker, is left as it is.  The markers are found in any
    case of their letters. *)
Theorem skipped_sections_by_search (t : str) :
  remove_skipped t
  = match find_nocase skip_begin t with
    | None => t
    | Some i =>
        match find_nocase skip_end (skipn (i + (length skip_begin + 1)) t) with
        | None => t
        | Some k =>
            firstn i t ++ placeholder
            ++ remove_skipped
                 (skipn (i + (length skip_begin + 1 + k + length skip_end)) t)
        end
    end.
Proof.
  destruct (find_nocase skip_begin t) as [i|] eqn:Hb.
  - destruct (find_nocase skip_end (skipn (i + (length skip_begin + 1)) t))
      as [k|] eqn:He.
    + pose proof (find_nocase_least _ _ _ Hb) as Hleast.
      destruct (find_nocase_some _ _ _ Hb) as (a & b & E & Hlen & Hs).
      subst t. subst i.
      rewrite firstn_app, Nat.sub_diag, firstn_all. simpl firstn.
      rewrite app_nil_r.
      rewrite remove_skipped_no_begin.
      * f_equal.
        assert (Hm : match_skipped b
                     = Some (length skip_begin + 1 + k + length skip_end)).
        { unfold match_skipped. rewrite Hs.
          rewrite <- (skipn_skipn_add _ (length a) (a ++ b)) in He.
          rewrite skipn_app, Nat.sub_diag, skipn_all in He.
          simpl app in He. simpl skipn in He at 2.
          change (skipn 0 b) with b in He. now rewrite He. }
        destruct b as [|c b]; [discriminate Hs|].
        unfold remove_skipped at 1.
        rewrite (scan_match match_skipped placeholder match_skipped_positive
                   c b _ Hm).
        f_equal. unfold remove_skipped. f_equal.
        rewrite <- (skipn_skipn_add _ (length a) (a ++ c :: b)).
        rewrite skipn_app, Nat.sub_diag, skipn_all. reflexivity.
      * intros u v -> Hv.
        destruct (startswith_nocase skip_begin (v ++ b)) eqn:Hv';
          [|reflexivity].
        specialize (Hleast u (v ++ b)). rewrite <- app_assoc in Hleast.
        specialize (Hleast eq_refl Hv'). rewrite length_app in Hleast.
        destruct v; [contradiction|]. simpl in Hleast. lia.
    + apply scan_unchanged. intros a b -> .
      unfold match_skipped.
      destruct (startswith_nocase skip_begin b) eqn:Hs; [|reflexivity].
      pose proof (find_nocase_least _ _ _ Hb a b eq_refl Hs) as Hle.
      apply (find_nocase_suffix _ _ (length a - i)) in He.
      rewrite skipn_skipn_add in He.
      replace (i + (length skip_begin + 1) + (length a - i))
        with (length a + (length skip_begin + 1)) in He by lia.
      rewrite <- (skipn_skipn_add _ (length a) (a ++ b)) in He.
      rewrite skipn_app, Nat.sub_diag, skipn_all in He.
      simpl app in He. change (skipn 0 b) with b in He. now rewrite He.
  - apply scan_unchanged. intros a b E. apply match_skipped_begins.
    now apply (find_nocase_none _ _ Hb a b).
Qed.

Lemma no_begin_no_section (t : str) :
  find_nocase skip_begin t = None -> has_section t = false.
Proof.
  intros H. apply has_section_false. intros a b E.
  apply match_skipped_begins. now apply (find_nocase_none _ _ H a b).
Qed.

End SectionsBySearch.

Section VersionedLinks.

Variables rf v p : str.
Hypothesis v_version : is_version v = true.
Hypothesis p_plain : plain p = true.
Hypothesis rf_clear : clear_of rf p = true.

Lemma clear_not_inside (a b : str) : rf <> a ++ p ++ b.
Proof.
  apply andb_prop in rf_clear as [H _]. apply negb_true_iff in H.
  now apply contains_false.
Qed.

Lemma clear_no_end (l : str) : In l (tails p) -> startswith l rf = false.
Proof.
  apply andb_prop in rf_clear as [_ H]. rewrite forallb_forall in H.
  intros Hl. apply negb_true_iff. now apply H.
Qed.

Lemma digit_not_in_plain d (x y : str) :
  is_digit d = true -> p <> x ++ d :: y.
Proof.
  intros Hd E. pose proof (plain_no_digit p p_plain d) as H.
  rewrite H in Hd; [discriminate|]. rewrite E. apply in_elt.
Qed.

Lemma versioned_apart : apart (rf ++ v) p = true.
Proof.
  destruct (version_head v v_version) as (d & v' & Ev & Hd).
  pose proof (plain_not_empty p p_plain) as Hp.
  unfold apart. apply andb_true_intro. split; apply forallb_forall.
  - intros w Hw. apply negb_true_iff.
    apply in_tails in Hw as [Hne [u Hu]].
    destruct (comparable w p) eqn:Hc; [exfalso|reflexivity].
    apply app_eq_app in Hu as [m [[E1 E2]|[E1 E2]]].
    + (* [w] starts inside [rf] *)
      subst w. unfold comparable in Hc. apply orb_prop in Hc as [Hc|Hc].
      * apply startswith_split in Hc as [t Ht].
        apply (digit_not_in_plain d m (v' ++ t) Hd).
        rewrite Ht, Ev, <- !app_assoc. reflexivity.
      * apply startswith_split in Hc as [t Ht].
        apply app_eq_app in Ht as [x [[E3 E4]|[E3 E4]]].
        -- apply (clear_not_inside u x). now rewrite E1, E3.
        -- destruct x as [|c x].
           ++ apply (clear_not_inside u []). rewrite E1, E3.
              now rewrite !app_nil_r.
           ++ rewrite Ev in E4. simpl in E4. injection E4 as <- _.
              apply (digit_not_in_plain d m x Hd). exact E3.
    + (* [w] is an end of [v] *)
      destruct w as [|y w]; [contradiction|].
      destruct p as [|c p'] eqn:Ep; [contradiction|].
      apply comparable_heads in Hc. subst c.
      pose proof (plain_head _ p_plain y p' eq_refl) as Hy.
      rewrite (version_chars v v_version y) in Hy; [discriminate|].
      rewrite E2. apply in_elt.
  - intros l Hl. apply negb_true_iff.
    pose proof (clear_no_end l Hl) as Hn.
    apply in_tails in Hl as [Hne [u Hu]].
    destruct (comparable l (rf ++ v)) eqn:Hc; [exfalso|reflexivity].
    unfold comparable in Hc. apply orb_prop in Hc as [Hc|Hc].
    + apply startswith_split in Hc as [t Ht].
      apply app_eq_app in Ht as [x [[E3 E4]|[E3 E4]]].
      * rewrite E3, startswith_app in Hn. discriminate.
      * destruct x as [|c x].
        -- rewrite app_nil_r in E3. subst l.
           assert (Hr : startswith rf rf = true).
           { rewrite <- (app_nil_r rf) at 2. apply startswith_app. }
           congruence.
        -- rewrite Ev in E4. simpl in E4. injection E4 as <- _.
           apply (digit_not_in_plain d (u ++ rf) x Hd).
           rewrite Hu, E3, <- app_assoc. reflexivity.
    + apply startswith_split in Hc as [t Ht].
      apply (digit_not_in_plain d (u ++ rf) (v' ++ t) Hd).
      rewrite Hu, Ht, Ev, <- !app_assoc. reflexivity.
Qed.

Lemma versioned_not_empty : rf ++ v <> [].
Proof.
  destruct (version_head v v_version) as (d & v' & -> & _).
  intros E. apply app_eq_nil in E as [_ E]. discriminate.
Qed.

Lemma versioned_preserved (r t : str) :
  contains (rf ++ v) t = true -> contains (rf ++ v) (replace p r t) = true.
Proof.
  apply occurrence_preserved;
    [apply (plain_not_empty p p_plain) | apply versioned_not_empty
    | apply versioned_apart].
Qed.

End VersionedLinks.

Section DescriptionExtras.

(** X5.  A README that holds none of the five search texts, and no begin
    marker in any case of its letters, is returned as it was read, for
    every homepage and every version. *)
Theorem description_unchanged (fs : filesystem)
    (path_dir homepage ver content : str) :
  fs !! OsPath.join path_dir ["README.md" : str] = Some content ->
  contains "docs/source/_static/" (universal_newlines content) = false ->
  contains "badge/?version=stable" (universal_newlines content) = false ->
  contains "lightning.readthedocs.io/en/stable/" (universal_newlines content)
  = false ->
  contains "/branch/master/graph/badge.svg" (universal_newlines content)
  = false ->
  contains "badge.svg?branch=master&event=push" (universal_newlines content)
  = false ->
  find_nocase skip_begin (universal_newlines content) = None ->
  _load_readme_description fs path_dir homepage ver
  = Some (universal_newlines content).
Proof.
  intros Hf H1 H2 H3 H4 H5 Hb. unfold _load_readme_description.
  rewrite Hf. f_equal. unfold rewrite_description, substitute_links.
  rewrite (replace_absent "docs/source/_static/" _ ltac:(discriminate) _ H1).
  rewrite (replace_absent "badge/?version=stable" _ ltac:(discriminate) _ H2).
  rewrite (replace_absent "lightning.readthedocs.io/en/stable/" _
             ltac:(discriminate) _ H3).
  rewrite (replace_absent "/branch/master/graph/badge.svg" _
             ltac:(discriminate) _ H4).
  rewrite (replace_absent "badge.svg?branch=master&event=push" _
             ltac:(discriminate) _ H5).
  apply remove_skipped_unchanged. now apply no_begin_no_section.
Qed.

Lemma description_unchanged_witness :
  (({[ ("proj/README.md" : str) := plain_readme ]} : filesystem)
     !! OsPath.join "proj" ["README.md" : str] = Some plain_readme
   /\ contains "docs/source/_static/" (universal_newlines plain_readme) = false
   /\ contains "badge/?version=stable" (universal_newlines plain_readme)
      = false
   /\ contains "lightning.readthedocs.io/en/stable/"
        (universal_newlines plain_readme) = false
   /\ contains "/branch/master/graph/badge.svg"
        (universal_newlines plain_readme) = false
   /\ contains "badge.svg?branch=master&event=push"
        (universal_newlines plain_readme) = false
   /\ find_nocase skip_begin (universal_newlines plain_readme) = None)
  /\ _load_readme_description {[ ("proj/README.md" : str) := plain_readme ]}
       "proj" "https://github.com/o/r" "1.2.3"
     = Some (universal_newlines plain_readme)
  /\ universal_newlines plain_readme
     = "# Title" ++ nl ++ "See <docs/index.md>." ++ nl.
Proof.
  split; [repeat split; vm_compute; reflexivity|]. split.
  - apply (description_unchanged _ "proj" "https://github.com/o/r" "1.2.3"
             plain_readme); vm_compute; reflexivity.
  - vm_compute; reflexivity.
Defined.

(** X6.  With a version number (digits and dots, a digit first), for
    every README text and homepage: none of the four search texts with
    [stable] or [master] is left in the description; and when no section is
    removed, a documentation badge of the README is in the description with
    the version, and so is a link to the documentation. *)
Theorem links_released homepage ver text :
  is_version ver = true ->
  (contains "badge/?version=stable" (rewrite_description homepage ver text)
   = false
   /\ contains "lightning.readthedocs.io/en/stable/"
        (rewrite_description homepage ver text) = false
   /\ contains "/branch/master/graph/badge.svg"
        (rewrite_description homepage ver text) = false
   /\ contains "badge.svg?branch=master&event=push"
        (rewrite_description homepage ver text) = false)
  /\ (has_section (substitute_links homepage ver text) = false ->
      (contains "badge/?version=stable" text = true ->
       contains ("badge/?version=" ++ ver)
         (rewrite_description homepage ver text) = true)
      /\ (contains "lightning.readthedocs.io/en/stable/" text = true ->
          contains ("lightning.readthedocs.io/en/" ++ ver)
            (rewrite_description homepage ver text) = true)).
Proof.
  intros Hv. split.
  - destruct (description_clean homepage ver text Hv)
      as (_ & H2 & H3 & H4 & H5). auto.
  - intros Hs. unfold rewrite_description.
    rewrite (remove_skipped_unchanged _ Hs). unfold substitute_links. split.
    + intros H.
      apply versioned_preserved;
        [exact Hv | vm_compute; reflexivity | vm_compute; reflexivity |].
      apply versioned_preserved;
        [exact Hv | vm_compute; reflexivity | vm_compute; reflexivity |].
      apply versioned_preserved;
        [exact Hv | vm_compute; reflexivity | vm_compute; reflexivity |].
      apply replace_puts_new; [discriminate|].
      apply occurrence_preserved;
        [discriminate | discriminate | vm_compute; reflexivity | exact H].
    + intros H.
      apply versioned_preserved;
        [exact Hv | vm_compute; reflexivity | vm_compute; reflexivity |].
      apply versioned_preserved;
        [exact Hv | vm_compute; reflexivity | vm_compute; reflexivity |].
      apply replace_puts_new; [discriminate|].
      apply occurrence_preserved;
        [discriminate | discriminate | vm_compute; reflexivity |].
      apply occurrence_preserved;
        [discriminate | discriminate | vm_compute; reflexivity | exact H].
Qed.

Lemma links_released_witness :
  (is_version "2.0.1" = true
   /\ has_section (substitute_links "https://github.com/o/r" "2.0.1"
                     badge_example) = false
   /\ contains "badge/?version=stable" badge_example = true)
  /\ contains "badge/?version=stable"
       (rewrite_description "https://github.com/o/r" "2.0.1" badge_example)
     = false
  /\ contains ("badge/?version=" ++ "2.0.1")
       (rewrite_description "https://github.com/o/r" "2.0.1" badge_example)
     = true.
Proof.
  pose proof (links_released "https://github.com/o/r" "2.0.1" badge_example
                ltac:(vm_compute; reflexivity)) as [(H2 & _) Hb].
  split; [repeat split; vm_compute; reflexivity|].
  split; [exact H2|].
  apply Hb; vm_compute; reflexivity.
Defined.

End DescriptionExtras.


(** ** Module files: assignments, definitions and skipped blocks *)

Section NameChars.

Lemma name_char_not_space c : is_name_char c = true -> is_space c = false.
Proof.
  destruct c as [b0 b1 b2 b3 b4 b5 b6 b7].
  destruct b0, b1, b2, b3, b4, b5, b6, b7; vm_compute; congruence.
Qed.

Lemma word_is_name_char c : is_word c = true -> is_name_char c = true.
Proof. unfold is_name_char. now intros ->. Qed.

Lemma word_not_stop c :
  is_word c = true ->
  c <> "("%char /\ c <> ")"%char /\ c <> ":"%char /\ c <> "="%char
  /\ c <> " "%char.
Proof.
  intros H. repeat split; intros ->; vm_compute in H; discriminate.
Qed.

Lemma span_all (f : ascii -> bool) (a : str) c (b : str) :
  forallb f a = true -> f c = false -> span f (a ++ c :: b) = (a, c :: b).
Proof.
  intros Ha Hc. induction a as [|x a IH]; simpl.
  - now rewrite Hc.
  - simpl in Ha. apply andb_prop in Ha as [Hx Ha]. rewrite Hx.
    now rewrite (IH Ha).
Qed.

Lemma span_whole (f : ascii -> bool) (s : str) :
  fst (span f s) ++ snd (span f s) = s /\ forallb f (fst (span f s)) = true.
Proof.
  induction s as [|c s [IH1 IH2]]; simpl; [auto|].
  destruct (f c) eqn:Hc; [|auto].
  destruct (span f s) as [a b]. simpl in *. rewrite Hc, IH1. auto.
Qed.

(** What a match of the assignment pattern says about the line. *)
Lemma match_assignment_some (ln name : str) :
  match_assignment ln = Some name ->
  exists rest, ln = name ++ " =" ++ rest /\ name <> []
               /\ forallb is_name_char name = true.
Proof.
  unfold match_assignment. intros H.
  destruct (span_whole is_name_char ln) as [E Hall].
  destruct (span is_name_char ln) as [a b]. cbn [fst snd] in *.
  destruct a as [|x a]; [discriminate|].
  destruct (startswith " =" b) eqn:Hb; [|discriminate].
  injection H as <-. apply startswith_split in Hb as [rest ->].
  exists rest. split; [now rewrite <- E|]. split; [discriminate | exact Hall].
Qed.

Lemma indent_of_name (ln name : str) :
  match_assignment ln = Some name ->
  indent ln = 0 /\ lstrip ln = ln /\ ln <> [].
Proof.
  intros H. apply match_assignment_some in H as (rest & -> & Hne & Hall).
  destruct name as [|x name]; [contradiction|].
  simpl in Hall. apply andb_prop in Hall as [Hx _].
  apply name_char_not_space in Hx. unfold indent. simpl. rewrite Hx.
  simpl. split; [lia|]. split; [reflexivity | discriminate].
Qed.

End NameChars.

Section ModuleAssignments.

Lemma kept_name_no_definition (name rest : str) :
  In name KEEP_FILES ->
  startswith "def" (name ++ rest) || startswith "class" (name ++ rest) = false.
Proof.
  intros H. repeat (destruct H as [<-|H]; [reflexivity|]). destruct H.
Qed.

End ModuleAssignments.

(** A line at column 0 that is not blank always passes the watermark, and
    sets it to 0. *)
Lemma module_step_column0 ip st raw :
  code_of_line raw <> [] -> indent (code_of_line raw) = 0 ->
  module_step ip st raw
  = module_line ip (code_of_line raw) {| body := body st; skip_offset := 0 |}.
Proof.
  intros Hne Hi. unfold module_step.
  destruct (negb (Nat.eqb (skip_offset st) 0)
            && negb (Nat.eqb (length (code_of_line raw)) 0)) eqn:Hc.
  - rewrite Hi. apply andb_prop in Hc as [Hc _].
    apply negb_true_iff, Nat.eqb_neq in Hc.
    destruct (Nat.leb (skip_offset st) 0) eqn:Hle;
      [apply Nat.leb_le in Hle; lia | reflexivity].
  - apply andb_false_iff in Hc as [Hc|Hc]; apply negb_false_iff in Hc;
      apply Nat.eqb_eq in Hc.
    + destruct st as [b s]. simpl in Hc. now subst.
    + destruct (code_of_line raw); [contradiction | discriminate].
Qed.

Lemma module_line_assignment ip ln st name :
  contains "-" ip = false ->
  match_assignment ln = Some name ->
  module_line ip ln st
  = {| body := if bool_decide (name ∈ KEEP_FILES)
               then body st ++ [import_line ip name] else body st;
       skip_offset := skip_offset st |}.
Proof.
  intros Hip Hm. destruct (indent_of_name _ _ Hm) as (_ & Hl & _).
  unfold module_line. rewrite Hip, Hm.
  destruct (bool_decide (name ∈ KEEP_FILES)) eqn:Hk.
  - apply bool_decide_eq_true_1, list_elem_of_In in Hk. rewrite Hl.
    destruct (match_assignment_some _ _ Hm) as (rest & -> & _ & _).
    rewrite (kept_name_no_definition name _ Hk).
    now destruct (contains "import " _ && contains "-" _).
  - now destruct st.
Qed.

(** X7.  In a module file whose import path has no hyphen, a line that
    assigns to a name at column 0 is never held back by the skip watermark:
    it sets the watermark to 0, and it adds the re-export of the name
    exactly when the name is in the keep-list. *)
Theorem module_assignment ip st raw name :
  contains "-" ip = false ->
  match_assignment (code_of_line raw) = Some name ->
  module_step ip st raw
  = {| body := if bool_decide (name ∈ KEEP_FILES)
               then body st ++ [import_line ip name] else body st;
       skip_offset := 0 |}.
Proof.
  intros Hip Hm. destruct (indent_of_name _ _ Hm) as (Hi & _ & Hne).
  rewrite (module_step_column0 ip st raw Hne Hi).
  now rewrite (module_line_assignment ip _ _ name Hip Hm).
Qed.

Lemma module_assignment_witness :
  (contains "-" "pkg.mod" = false
   /\ match_assignment (code_of_line ("_logger = get()  # log" ++ nl))
      = Some ("_logger" : str))
  /\ module_step "pkg.mod" {| body := ["a" : str]; skip_offset := 8 |}
       ("_logger = get()  # log" ++ nl)
     = {| body := ["a" : str; import_line "pkg.mod" "_logger"];
          skip_offset := 0 |}.
Proof.
  split; [split; vm_compute; reflexivity|].
  apply (module_assignment "pkg.mod" {| body := ["a" : str]; skip_offset := 8 |}
           ("_logger = get()  # log" ++ nl) "_logger");
    vm_compute; reflexivity.
Defined.

Section Definitions.

(** A replacement leaves alone a text in which the first character of the
    search text does not occur. *)
Lemma replace_past_heads (h : ascii) (old' new a b : str) :
  ~ In h a ->
  replace (h :: old') new (a ++ b) = a ++ replace (h :: old') new b.
Proof.
  intros Ha. induction a as [|x a IH]; [reflexivity|].
  simpl app. rewrite replace_no_match; [|discriminate|].
  - f_equal. apply IH. intros H. apply Ha. now right.
  - cbn [startswith]. destruct (Ascii.eqb_spec h x) as [->|Hne];
      [|reflexivity].
    exfalso. apply Ha. now left.
Qed.

Lemma startswith_app_cases (p v rest : str) :
  startswith p (v ++ rest) = true ->
  (forall x, In x p -> In x v) \/ (forall x, In x v -> In x p).
Proof.
  intros H. apply startswith_split in H as [t Ht].
  apply app_eq_app in Ht as [m [[E1 E2]|[E1 E2]]].
  - left. intros x Hx. rewrite E1. apply in_or_app. now left.
  - right. intros x Hx. rewrite E1. apply in_or_app. now left.
Qed.

(** A replacement leaves alone a word, and the character after it, when
    the search text holds a character that is not in them and does not hold
    the character after the word. *)
Lemma replace_past_word (old new name : str) (z c : ascii) (b : str) :
  old <> [] -> In z old -> ~ In z name -> z <> c -> ~ In c old ->
  replace old new (name ++ c :: b) = name ++ c :: replace old new b.
Proof.
  intros Hne Hz Hzn Hzc Hc.
  assert (Hno : forall v, v <> [] -> (exists u, name ++ [c] = u ++ v) ->
                          startswith old (v ++ b) = false).
  { intros v Hv [u Hu].
    destruct (startswith old (v ++ b)) eqn:Hs; [exfalso|reflexivity].
    assert (Hcv : In c v).
    { destruct (exists_last Hv) as (v' & y & ->).
      rewrite app_assoc in Hu. apply app_inj_tail in Hu as [_ <-].
      apply in_or_app. right. now left. }
    assert (Hvn : forall x, In x v -> In x (name ++ [c])).
    { intros x Hx. rewrite Hu. apply in_or_app. now right. }
    apply startswith_app_cases in Hs as [Hs|Hs].
    - specialize (Hvn z (Hs z Hz)). apply in_app_or in Hvn as [Hn|[E|[]]];
        [now apply Hzn | now apply Hzc].
    - apply Hc. now apply Hs. }
  clear Hz Hzn Hzc Hc.
  induction name as [|x name IH].
  - simpl app. rewrite replace_no_match; [reflexivity | exact Hne |].
    apply (Hno [c]); [discriminate|]. now exists [].
  - simpl app. rewrite replace_no_match; [|exact Hne|].
    + f_equal. apply IH. intros v Hv [u Hu]. apply Hno; [exact Hv|].
      exists (x :: u). simpl. now rewrite Hu.
    + assert (Hx : startswith old ((x :: name ++ [c]) ++ b) = false).
      { apply Hno; [discriminate|]. now exists []. }
      cbn [app] in Hx. rewrite <- app_assoc in Hx. exact Hx.
Qed.

Lemma stop_index_later (s : ascii) (name y : str) :
  ~ In s name -> length name <= stop_index [s] (name ++ y).
Proof.
  intros Hs. unfold stop_index, contains, index.
  destruct (in_dec ascii_dec s y) as [Hy|Hy].
  - destruct (in_first_split s y Hy) as (y1 & y2 & -> & Hy1).
    rewrite app_assoc, find_char_first.
    + rewrite length_app. lia.
    + intros H. apply in_app_or in H as [H|H]; auto.
  - rewrite find_char_none.
    + rewrite length_app. lia.
    + intros H. apply in_app_or in H as [H|H]; auto.
Qed.

Lemma stop_index_here (s : ascii) (name y : str) :
  ~ In s name -> stop_index [s] (name ++ s :: y) = length name.
Proof.
  intros Hs. unfold stop_index, contains, index.
  now rewrite find_char_first.
Qed.

Lemma cut_name_word (name : str) (c : ascii) (y : str) :
  forallb is_word name = true -> c = "("%char \/ c = ":"%char ->
  cut_name (name ++ c :: y) = name.
Proof.
  intros Hw Hc. rewrite forallb_forall in Hw.
  assert (H1 : ~ In "("%char name)
    by (intros H; now destruct (word_not_stop _ (Hw _ H)) as (E & _)).
  assert (H2 : ~ In ")"%char name)
    by (intros H; now destruct (word_not_stop _ (Hw _ H)) as (_ & E & _)).
  assert (H3 : ~ In ":"%char name)
    by (intros H; now destruct (word_not_stop _ (Hw _ H)) as (_ & _ & E & _)).
  unfold cut_name.
  change (list_ascii_of_string "(") with ["("%char].
  change (list_ascii_of_string ")") with [")"%char].
  change (list_ascii_of_string ":") with [":"%char].
  pose proof (stop_index_later "(" name (c :: y) H1) as L1.
  pose proof (stop_index_later ")" name (c :: y) H2) as L2.
  pose proof (stop_index_later ":" name (c :: y) H3) as L3.
  assert (E : Nat.min (stop_index ["("%char] (name ++ c :: y))
                (Nat.min (stop_index [")"%char] (name ++ c :: y))
                   (stop_index [":"%char] (name ++ c :: y)))
              = length name).
  { destruct Hc as [-> | ->].
    - rewrite (stop_index_here "(" name y H1) in *. lia.
    - rewrite (stop_index_here ":" name y H3) in *. lia. }
  rewrite E, firstn_app, Nat.sub_diag, firstn_all. simpl.
  apply app_nil_r.
Qed.

(** The name that the loop cuts out of a line that defines [name]. *)
Lemma defined_name_of (ws kw name : str) (c : ascii) (rest : str) :
  forallb is_space ws = true ->
  kw = "def " \/ kw = "class " ->
  name <> [] -> forallb is_word name = true ->
  c = "("%char \/ c = ":"%char ->
  exists y, defined_name (ws ++ kw ++ name ++ c :: rest) = name ++ c :: y.
Proof.
  intros Hws Hkw Hne Hw Hc.
  assert (Hsp : forall h, is_space h = false -> ~ In h ws).
  { intros h Hh Hin. rewrite forallb_forall in Hws.
    rewrite (Hws h Hin) in Hh. discriminate. }
  assert (Hcs : is_space c = false) by (now destruct Hc as [-> | ->]).
  assert (Hn : ~ In " "%char name).
  { intros H. rewrite forallb_forall in Hw.
    now destruct (word_not_stop _ (Hw _ H)) as (_ & _ & _ & _ & E). }
  assert (Hsc : " "%char <> c) by (now destruct Hc as [-> | ->]).
  assert (Hcd : ~ In c (list_ascii_of_string "def "))
    by (destruct Hc as [-> | ->]; vm_compute; intuition discriminate).
  assert (Hcc : ~ In c (list_ascii_of_string "class "))
    by (destruct Hc as [-> | ->]; vm_compute; intuition discriminate).
  assert (Hd : forall b, replace "def " "" (name ++ c :: b)
                         = name ++ c :: replace "def " "" b).
  { intros b. apply (replace_past_word "def " "" name " " c b);
      [discriminate | vm_compute; tauto | exact Hn | exact Hsc | exact Hcd]. }
  assert (Hk : forall b, replace "class " "" (name ++ c :: b)
                         = name ++ c :: replace "class " "" b).
  { intros b. apply (replace_past_word "class " "" name " " c b);
      [discriminate | vm_compute; tauto | exact Hn | exact Hsc | exact Hcc]. }
  assert (E : exists y, replace "class " "" (replace "def " ""
                          (ws ++ kw ++ name ++ c :: rest))
                        = ws ++ name ++ c :: y).
  { destruct Hkw as [-> | ->].
    - exists (replace "class " "" (replace "def " "" rest)).
      change (list_ascii_of_string "def ") with ("d"%char :: "ef ").
      rewrite (replace_past_heads "d" "ef " "" ws _)
        by (apply Hsp; reflexivity).
      change ("d"%char :: list_ascii_of_string "ef ")
        with (list_ascii_of_string "def ").
      rewrite (replace_match "def " "" ltac:(discriminate)).
      change (list_ascii_of_string "") with (@nil ascii).
      rewrite app_nil_l, Hd.
      change (list_ascii_of_string "class ") with ("c"%char :: "lass ").
      rewrite (replace_past_heads "c" "lass " "" ws _)
        by (apply Hsp; reflexivity).
      change ("c"%char :: list_ascii_of_string "lass ")
        with (list_ascii_of_string "class ").
      now rewrite Hk.
    - exists (replace "class " "" (replace "def " "" rest)).
      rewrite (app_assoc ws).
      change (list_ascii_of_string "def ") with ("d"%char :: "ef ").
      rewrite (replace_past_heads "d" "ef " "" (ws ++ "class ") _).
      + change ("d"%char :: list_ascii_of_string "ef ")
          with (list_ascii_of_string "def ").
        rewrite Hd, <- app_assoc.
        change (list_ascii_of_string "class ") with ("c"%char :: "lass ") at 1.
        rewrite (replace_past_heads "c" "lass " "" ws _)
          by (apply Hsp; reflexivity).
        change ("c"%char :: list_ascii_of_string "lass ")
          with (list_ascii_of_string "class ").
        rewrite (replace_match "class " "" ltac:(discriminate)).
        change (list_ascii_of_string "") with (@nil ascii).
        now rewrite app_nil_l, Hk.
      + intros H. apply in_app_or in H as [H|H].
        * now apply (Hsp "d"%char).
        * vm_compute in H. intuition discriminate. }
  destruct E as [y E]. exists (rstrip y). unfold defined_name. rewrite E.
  unfold strip. rewrite app_assoc, rstrip_app_nonspace by exact Hcs.
  rewrite <- app_assoc. destruct name as [|n0 name]; [contradiction|].
  simpl in Hw. apply andb_prop in Hw as [Hn0 _].
  simpl app. rewrite lstrip_app_nonspace
    by (apply name_char_not_space, word_is_name_char, Hn0).
  now rewrite lstrip_all_space.
Qed.

Lemma definition_not_assignment (ws kw name : str) (c : ascii) (rest : str) :
  forallb is_space ws = true ->
  kw = "def " \/ kw = "class " ->
  name <> [] -> forallb is_word name = true ->
  match_assignment (ws ++ kw ++ name ++ c :: rest) = None.
Proof.
  intros Hws Hkw Hne Hw. unfold match_assignment.
  destruct ws as [|x ws].
  - destruct name as [|n0 name]; [contradiction|].
    simpl in Hw. apply andb_prop in Hw as [Hn0 _].
    assert (Hn : n0 <> "="%char)
      by (now destruct (word_not_stop _ Hn0) as (_ & _ & _ & E & _)).
    destruct Hkw as [-> | ->].
    + change ([] ++ "def " ++ (n0 :: name) ++ c :: rest)
        with ("def" ++ " "%char :: n0 :: name ++ c :: rest).
      rewrite span_all by reflexivity. cbn [list_ascii_of_string startswith].
      destruct (Ascii.eqb_spec "=" n0); [congruence | reflexivity].
    + change ([] ++ "class " ++ (n0 :: name) ++ c :: rest)
        with ("class" ++ " "%char :: n0 :: name ++ c :: rest).
      rewrite span_all by reflexivity. cbn [list_ascii_of_string startswith].
      destruct (Ascii.eqb_spec "=" n0); [congruence | reflexivity].
  - simpl in Hws. apply andb_prop in Hws as [Hx _].
    simpl. destruct (is_name_char x) eqn:Hn; [|reflexivity].
    apply name_char_not_space in Hn. congruence.
Qed.

Lemma definition_indent (ws kw : str) (b : str) :
  forallb is_space ws = true ->
  kw = "def " \/ kw = "class " ->
  lstrip (ws ++ kw ++ b) = kw ++ b /\ indent (ws ++ kw ++ b) = length ws.
Proof.
  intros Hws Hkw.
  assert (E : lstrip (ws ++ kw ++ b) = kw ++ b).
  { destruct Hkw as [-> | ->]; simpl app;
      rewrite lstrip_app_nonspace by reflexivity;
      now rewrite lstrip_all_space. }
  split; [exact E|]. unfold indent. rewrite E, length_app. lia.
Qed.

End Definitions.

(** What the loop makes of a line that defines [name], once the watermark
    has let it through. *)
Lemma module_line_defines ip st (ws kw name : str) (c : ascii) (rest : str) :
  contains "-" ip = false ->
  forallb is_space ws = true ->
  kw = "def " \/ kw = "class " ->
  name <> [] -> forallb is_word name = true ->
  c = "("%char \/ c = ":"%char ->
  startswith "__" name = false ->
  contains "import " (ws ++ kw ++ name ++ c :: rest)
  && contains "-" (ws ++ kw ++ name ++ c :: rest) = false ->
  contains "on_before_run" (defined_name (ws ++ kw ++ name ++ c :: rest))
  = false ->
  module_line ip (ws ++ kw ++ name ++ c :: rest) st
  = {| body := body st ++ [import_line ip name];
       skip_offset := length ws + 4 |}.
Proof.
  intros Hip Hws Hkw Hne Hw Hc Hp Himp Hobr.
  destruct (definition_indent ws kw (name ++ c :: rest) Hws Hkw) as [Hl Hi].
  destruct (defined_name_of ws kw name c rest Hws Hkw Hne Hw Hc) as [y Hy].
  rewrite (module_line_definition ip _ st name).
  - now rewrite Hi.
  - exact Hip.
  - now apply definition_not_assignment.
  - exact Himp.
  - rewrite Hl. now destruct Hkw as [-> | ->].
  - exact Hobr.
  - rewrite Hy. now apply cut_name_word.
  - rewrite Hp. cbn [orb].
    change (list_ascii_of_string "=") with ["="%char].
    destruct (contains ["="%char] name) eqn:He; [|reflexivity].
    apply contains_char in He. rewrite forallb_forall in Hw.
    now destruct (word_not_stop _ (Hw _ He)) as (_ & _ & _ & E & _).
Qed.

(** X8.  In a module file whose import path has no hyphen, a line
    [def name(] or [class name(], or [class name:], behind the white space
    [ws], that the watermark lets through, adds the re-export of [name] and
    sets the watermark four columns to the right of the keyword.  [name] is
    made of word characters and does not start with two underscores; the
    line is no import with a hyphen, and what the loop takes for the name
    does not mention [on_before_run]. *)
Theorem module_definition ip st raw (ws kw name : str) (c : ascii)
    (rest : str) :
  contains "-" ip = false ->
  code_of_line raw = ws ++ kw ++ name ++ c :: rest ->
  forallb is_space ws = true ->
  kw = "def " \/ kw = "class " ->
  name <> [] -> forallb is_word name = true ->
  c = "("%char \/ c = ":"%char ->
  skip_offset st = 0 \/ length ws < skip_offset st ->
  startswith "__" name = false ->
  contains "import " (code_of_line raw) && contains "-" (code_of_line raw)
  = false ->
  contains "on_before_run" (defined_name (code_of_line raw)) = false ->
  module_step ip st raw
  = {| body := body st ++ [import_line ip name];
       skip_offset := length ws + 4 |}.
Proof.
  intros Hip Hln Hws Hkw Hne Hw Hc Hst Hp Himp Hobr.
  destruct (definition_indent ws kw (name ++ c :: rest) Hws Hkw) as [_ Hi].
  assert (E : forall st', body st' = body st ->
            module_line ip (code_of_line raw) st'
            = {| body := body st ++ [import_line ip name];
                 skip_offset := length ws + 4 |}).
  { intros st' Hb. rewrite Hln in *.
    rewrite (module_line_defines ip st' ws kw name c rest); try assumption.
    now rewrite Hb. }
  unfold module_step.
  destruct (negb (Nat.eqb (skip_offset st) 0)
            && negb (Nat.eqb (length (code_of_line raw)) 0)) eqn:Hcnd.
  - rewrite Hln at 1. rewrite Hi.
    apply andb_prop in Hcnd as [Hs _].
    apply negb_true_iff, Nat.eqb_neq in Hs.
    destruct Hst as [Hst|Hst]; [contradiction|].
    destruct (Nat.leb (skip_offset st) (length ws)) eqn:Hle;
      [apply Nat.leb_le in Hle; lia|].
    now apply E.
  - now apply E.
Qed.

Lemma module_definition_witness :
  (contains "-" "pkg.mod" = false
   /\ code_of_line ("    class Trainer(Base):  # main" ++ nl)
      = "    " ++ "class " ++ "Trainer" ++ "("%char :: "Base):"
   /\ forallb is_space "    " = true
   /\ forallb is_word "Trainer" = true
   /\ startswith "__" "Trainer" = false
   /\ contains "import "
        (code_of_line ("    class Trainer(Base):  # main" ++ nl))
      && contains "-" (code_of_line ("    class Trainer(Base):  # main" ++ nl))
      = false
   /\ contains "on_before_run"
        (defined_name (code_of_line ("    class Trainer(Base):  # main" ++ nl)))
      = false)
  /\ module_step "pkg.mod" {| body := ["a" : str]; skip_offset := 8 |}
       ("    class Trainer(Base):  # main" ++ nl)
     = {| body := ["a" : str; import_line "pkg.mod" "Trainer"];
          skip_offset := 8 |}.
Proof.
  split; [repeat split; vm_compute; reflexivity|].
  apply (module_definition "pkg.mod" {| body := ["a" : str]; skip_offset := 8 |}
           ("    class Trainer(Base):  # main" ++ nl)
           "    " "class " "Trainer" "("%char "Base):");
    try (vm_compute; reflexivity).
  - now right.
  - discriminate.
  - now left.
  - right. vm_compute. lia.
Defined.

Section SkippedBlocks.

Lemma module_line_blank ip st : module_line ip [] st = st.
Proof.
  unfold module_line. destruct (contains "-" ip); [reflexivity|].
  now destruct st.
Qed.

Lemma module_step_skips ip st raw :
  skip_offset st <> 0 ->
  code_of_line raw = [] \/ skip_offset st <= indent (code_of_line raw) ->
  module_step ip st raw = st.
Proof.
  intros Hs [Hb|Hd]; unfold module_step.
  - rewrite Hb. cbn [length Nat.eqb negb]. rewrite andb_false_r.
    apply module_line_blank.
  - destruct (negb (Nat.eqb (skip_offset st) 0)
              && negb (Nat.eqb (length (code_of_line raw)) 0)) eqn:Hc.
    + apply Nat.leb_le in Hd. now rewrite Hd.
    + apply andb_false_iff in Hc as [Hc|Hc]; apply negb_false_iff in Hc;
        apply Nat.eqb_eq in Hc; [contradiction|].
      destruct (code_of_line raw); [|discriminate].
      apply module_line_blank.
Qed.

End SkippedBlocks.

(** X9.  While the skip watermark is active, a run of lines that are
    blank (or hold a comment only) or are indented at least as far as the
    watermark leaves the stub and the watermark as they are. *)
Theorem skipped_block ip st lines :
  skip_offset st <> 0 ->
  Forall (fun raw => code_of_line raw = []
                     \/ skip_offset st <= indent (code_of_line raw)) lines ->
  fold_left (module_step ip) lines st = st.
Proof.
  intros Hs Hall. induction Hall as [|raw lines Hraw _ IH]; [reflexivity|].
  cbn [fold_left]. now rewrite (module_step_skips ip st raw Hs Hraw).
Qed.

Lemma skipped_block_witness :
  (skip_offset {| body := ["a" : str]; skip_offset := 4 |} <> 0
   /\ Forall (fun raw => code_of_line raw = []
                         \/ skip_offset {| body := ["a" : str];
                                           skip_offset := 4 |}
                            <= indent (code_of_line raw))
        ["    x = 1" ++ nl; nl; "# note" ++ nl; "        def g():" ++ nl])
  /\ fold_left (module_step "pkg.mod")
       ["    x = 1" ++ nl; nl; "# note" ++ nl; "        def g():" ++ nl]
       {| body := ["a" : str]; skip_offset := 4 |}
     = {| body := ["a" : str]; skip_offset := 4 |}.
Proof.
  assert (Hs : skip_offset {| body := ["a" : str]; skip_offset := 4 |} <> 0)
    by discriminate.
  assert (Hall : Forall (fun raw => code_of_line raw = []
                           \/ skip_offset {| body := ["a" : str];
                                             skip_offset := 4 |}
                              <= indent (code_of_line raw))
                   ["    x = 1" ++ nl; nl; "# note" ++ nl;
                    "        def g():" ++ nl]).
  { constructor; [right; vm_compute; lia|].
    constructor; [left; vm_compute; reflexivity|].
    constructor; [left; vm_compute; reflexivity|].
    constructor; [right; vm_compute; lia | constructor]. }
  split; [split; assumption|].
  exact (skipped_block "pkg.mod" _ _ Hs Hall).
Defined.

Section ModuleParts.

Variable ip : str.
Hypothesis ip_plain : contains "-" ip = false.

Lemma module_line_neutral raw st :
  neutral raw ->
  body (module_line ip (code_of_line raw) st) = body st.
Proof.
  intros [Ha Hd]. unfold module_line. rewrite ip_plain, Hd.
  destruct (match_assignment (code_of_line raw)) as [name|] eqn:Hm.
  - rewrite bool_decide_eq_false_2; [reflexivity|].
    intros H. apply (Ha name eq_refl). now apply list_elem_of_In.
  - now destruct (contains "import " _ && contains "-" _).
Qed.

Lemma module_step_neutral raw st :
  neutral raw -> body (module_step ip st raw) = body st.
Proof.
  intros Hn. unfold module_step.
  destruct (negb (Nat.eqb (skip_offset st) 0) && _).
  - destruct (Nat.leb (skip_offset st) (indent (code_of_line raw)));
      [reflexivity|].
    now rewrite module_line_neutral.
  - now apply module_line_neutral.
Qed.

Lemma module_step_defines raw name st :
  defines raw name ->
  module_step ip st raw
  = {| body := body st ++ [import_line ip name]; skip_offset := 4 |}.
Proof.
  intros (kw & c & rest & E & Hkw & Hne & Hw & Hc & Hp & Hi & Ho).
  destruct (definition_indent [] kw (name ++ c :: rest) eq_refl Hkw)
    as [_ Hind].
  cbn [app] in Hind. rewrite module_step_column0.
  - rewrite E in *.
    now rewrite (module_line_defines ip _ [] kw name c rest).
  - rewrite E. now destruct Hkw as [-> | ->].
  - now rewrite E.
Qed.

Lemma module_block_skipped block st :
  skip_offset st = 4 -> Forall inside block ->
  fold_left (module_step ip) block st = st.
Proof.
  intros Hs Hall. induction Hall as [|raw block Hraw _ IH]; [reflexivity|].
  cbn [fold_left]. rewrite (module_step_skips ip st raw); [exact IH| |].
  - rewrite Hs. discriminate.
  - rewrite Hs. exact Hraw.
Qed.

Lemma module_part p st :
  well_parted p ->
  body (fold_left (module_step ip) (lines_of p) st)
  = body st ++ map (import_line ip) (exports_of p).
Proof.
  destruct p as [name raw block|name raw|raw]; cbn [lines_of exports_of].
  - intros [Hd Hb]. cbn [fold_left].
    rewrite (module_step_defines raw name st Hd).
    now rewrite module_block_skipped.
  - intros Hm. cbn [fold_left].
    destruct (indent_of_name _ _ Hm) as (Hi & _ & Hne).
    rewrite (module_step_column0 ip st raw Hne Hi).
    rewrite (module_line_assignment ip _ _ name ip_plain Hm). cbn [body].
    destruct (bool_decide (name ∈ KEEP_FILES)); [reflexivity|].
    cbn [map]. now rewrite app_nil_r.
  - intros Hn. cbn [fold_left map]. rewrite app_nil_r.
    now apply module_step_neutral.
Qed.

Lemma module_parts parts st :
  Forall well_parted parts ->
  body (fold_left (module_step ip) (flat_map lines_of parts) st)
  = body st ++ map (import_line ip) (flat_map exports_of parts).
Proof.
  intros Hall. revert st.
  induction Hall as [|p parts Hp _ IH]; intros st.
  - simpl. now rewrite app_nil_r.
  - cbn [flat_map]. rewrite fold_left_app, IH, (module_part p st Hp).
    now rewrite map_app, app_assoc.
Qed.

End ModuleParts.

(** X10.  The stub of a whole module file.  When the file is made of
    definitions at column 0, each with body lines that are blank or
    indented by four columns at least, of assignments at column 0, and of
    lines that neither assign to a keep-list name nor start with [def] or
    [class], and the import path has no hyphen, the stub holds, in the
    order of the file, one re-export for each definition and one for each
    assignment to a keep-list name, and nothing else. *)
Theorem module_of_parts pkg_name local_path (parts : list part) :
  contains "-" (module_import_path pkg_name local_path) = false ->
  Forall well_parted parts ->
  module_body pkg_name local_path (flat_map lines_of parts)
  = map (import_line (module_import_path pkg_name local_path))
      (flat_map exports_of parts).
Proof.
  intros Hip Hall. unfold module_body, module_scan.
  now rewrite (module_parts _ Hip parts _ Hall).
Qed.

Lemma module_of_parts_witness :
  (contains "-" (module_import_path "pkg" "core/api.py") = false
   /\ Forall well_parted module_example)
  /\ module_body "pkg" "core/api.py" (flat_map lines_of module_example)
     = map (import_line (module_import_path "pkg" "core/api.py"))
         (flat_map exports_of module_example)
  /\ map (import_line (module_import_path "pkg" "core/api.py"))
       (flat_map exports_of module_example)
     = ["from pkg.core.api import _logger  # noqa: F401" : str;
        "from pkg.core.api import Trainer  # noqa: F401" : str;
        "from pkg.core.api import run  # noqa: F401" : str].
Proof.
  assert (Hip : contains "-" (module_import_path "pkg" "core/api.py") = false)
    by (vm_compute; reflexivity).
  assert (Hn : forall raw,
            match_assignment (code_of_line raw) = None ->
            startswith "def" (lstrip (code_of_line raw))
            || startswith "class" (lstrip (code_of_line raw)) = false ->
            neutral raw).
  { intros raw Hm Hd. split; [|exact Hd]. intros name E. congruence. }
  assert (Hall : Forall well_parted module_example).
  { unfold module_example.
    constructor; [apply Hn; vm_compute; reflexivity|].
    constructor; [apply Hn; vm_compute; reflexivity|].
    constructor; [vm_compute; reflexivity|].
    constructor; [vm_compute; reflexivity|].
    constructor.
    { split.
      - exists (list_ascii_of_string "class "), "("%char,
          (list_ascii_of_string "Base):").
        split; [vm_compute; reflexivity|]. split; [now right|].
        split; [discriminate|]. split; [vm_compute; reflexivity|].
        split; [now left|]. split; [vm_compute; reflexivity|].
        split; vm_compute; reflexivity.
      - constructor; [right; vm_compute; lia|].
        constructor; [right; vm_compute; lia|].
        constructor; [left; vm_compute; reflexivity | constructor]. }
    constructor; [apply Hn; vm_compute; reflexivity|].
    constructor; [|constructor].
    split.
    - exists (list_ascii_of_string "def "), "("%char,
        (list_ascii_of_string "x):").
      split; [vm_compute; reflexivity|]. split; [now left|].
      split; [discriminate|]. split; [vm_compute; reflexivity|].
      split; [now left|]. split; [vm_compute; reflexivity|].
      split; vm_compute; reflexivity.
    - constructor; [right; vm_compute; lia | constructor]. }
  split; [split; assumption|]. split.
  - exact (module_of_parts "pkg" "core/api.py" module_example Hip Hall).
  - vm_compute; reflexivity.
Defined.


(** ** Entry files: the lines of the stub *)

Section EntryStub.

Lemma code_of_line_no_comment (raw : str) : ~ In "#"%char (code_of_line raw).
Proof.
  unfold code_of_line. intros H. apply in_rstrip in H.
  change (list_ascii_of_string "#") with ["#"%char] in H.
  destruct (contains ["#"%char] raw) eqn:Hc.
  - unfold contains, index in *.
    destruct (find ["#"%char] raw) as [i|] eqn:Hf; [|discriminate].
    pose proof (find_leftmost ["#"%char] ltac:(discriminate) raw i Hf) as Hl.
    assert (Hn : contains ["#"%char] (firstn i raw) = false)
      by (unfold contains; now rewrite Hl).
    apply contains_char in H. congruence.
  - apply contains_char in H. congruence.
Qed.

Lemma default_name_gone (t : str) :
  contains "lightning_app" (replace "lightning_app" "lightning.app" t) = false.
Proof.
  apply replaced_is_gone; [discriminate| |].
  - assert (H : forallb (fun w => implb (comparable w "lightning.app")
                                    (startswith w "lightning_app"))
                  (tails "lightning_app") = true)
      by (vm_compute; reflexivity).
    rewrite forallb_forall in H. intros w Hw Hc. specialize (H w Hw).
    now rewrite Hc in H.
  - assert (H : forallb (fun l => negb (comparable l "lightning_app"))
                  (tails "lightning.app") = true)
      by (vm_compute; reflexivity).
    rewrite forallb_forall in H. intros l Hl. specialize (H l Hl).
    now apply negb_true_iff.
Qed.

Lemma default_name_no_about (t : str) :
  contains "__about__" t = false ->
  contains "__about__" (replace "lightning_app" "lightning.app" t) = false.
Proof.
  apply no_new_occurrence; [discriminate | discriminate | |].
  - assert (H : forallb (fun w => implb (comparable w "lightning.app")
                                    (startswith w "lightning_app"))
                  (tails "__about__") = true)
      by (vm_compute; reflexivity).
    rewrite forallb_forall in H. intros w Hw Hc. specialize (H w Hw).
    now rewrite Hc in H.
  - assert (H : forallb (fun l => negb (comparable l "__about__"))
                  (tails "lightning.app") = true)
      by (vm_compute; reflexivity).
    rewrite forallb_forall in H. intros a l E Ha Hl Hc.
    assert (Hin : In l (tails "lightning.app"))
      by (apply in_tails; split; [exact Hl | now exists a]).
    specialize (H l Hin). rewrite Hc in H. discriminate.
Qed.

Lemma entry_step_lines local_path body raw s :
  In s (entry_step "lightning_app" "lightning.app" local_path body raw) ->
  In s body
  \/ (exists name, In name KEEP_FILES
                   /\ s = import_line
                            (entry_import_path "lightning_app" local_path) name)
  \/ (contains "lightning_app" s = false /\ contains "__about__" s = false
      /\ ~ In "#"%char s).
Proof.
  unfold entry_step.
  destruct (match_assignment (code_of_line raw)) as [name|].
  - destruct (bool_decide (name ∈ KEEP_FILES)) eqn:Hk; cbn [negb];
      [|now left].
    apply bool_decide_eq_true_1, list_elem_of_In in Hk.
    destruct (startswith "__" name && _); [now left|].
    intros H. apply in_app_or in H as [H|[<-|[]]]; [now left|].
    right. left. now exists name.
  - destruct (contains "import " (code_of_line raw)
              && contains "-" (code_of_line raw)); [now left|].
    destruct (contains "__about__" (code_of_line raw)) eqn:Ha; cbn [negb];
      [now left|].
    intros H. apply in_app_or in H as [H|[<-|[]]]; [now left|].
    right. right. split; [apply default_name_gone|].
    split; [now apply default_name_no_about|].
    intros H. apply in_replace in H; [|discriminate].
    destruct H as [H|H].
    + now apply (code_of_line_no_comment raw).
    + vm_compute in H. intuition discriminate.
Qed.

End EntryStub.

(** X11.  With the default names, every line of the stub of an entry
    file is either the re-export of a keep-list name from the package that
    holds the file, or a line of the file in which the old package name is
    replaced: such a line holds neither [lightning_app] nor [__about__],
    and no comment. *)
Theorem default_entry_stub_lines local_path lines s :
  In s (entry_body "lightning_app" "lightning.app" local_path lines) ->
  (exists name, In name KEEP_FILES
                /\ s = import_line
                         (entry_import_path "lightning_app" local_path) name)
  \/ (contains "lightning_app" s = false /\ contains "__about__" s = false
      /\ ~ In "#"%char s).
Proof.
  unfold entry_body.
  assert (G : forall body,
            (forall x, In x body ->
               (exists name, In name KEEP_FILES
                  /\ x = import_line
                           (entry_import_path "lightning_app" local_path)
                           name)
               \/ (contains "lightning_app" x = false
                   /\ contains "__about__" x = false /\ ~ In "#"%char x)) ->
            In s (fold_left (entry_step "lightning_app" "lightning.app"
                               local_path) lines body) ->
            (exists name, In name KEEP_FILES
               /\ s = import_line
                        (entry_import_path "lightning_app" local_path) name)
            \/ (contains "lightning_app" s = false
                /\ contains "__about__" s = false /\ ~ In "#"%char s)).
  { induction lines as [|raw lines IH]; intros body Hb H.
    - now apply Hb.
    - cbn [fold_left] in H. apply (IH _) in H; [exact H|].
      intros x Hx. apply entry_step_lines in Hx as [Hx|Hx]; auto. }
  apply G. intros x [].
Qed.

Lemma default_entry_stub_lines_witness :
  In ("import lightning.app.core" : str)
    (entry_body "lightning_app" "lightning.app" "__init__.py"
       (readlines init_source))
  /\ ((exists name, In name KEEP_FILES
         /\ ("import lightning.app.core" : str)
            = import_line (entry_import_path "lightning_app" "__init__.py")
                name)
      \/ (contains "lightning_app" "import lightning.app.core" = false
          /\ contains "__about__" "import lightning.app.core" = false
          /\ ~ In "#"%char (list_ascii_of_string "import lightning.app.core")))
  /\ entry_body "lightning_app" "lightning.app" "__init__.py"
       (readlines init_source)
     = ["from lightning_app import _logger  # noqa: F401" : str;
        "import lightning.app.core" : str].
Proof.
  assert (H : In ("import lightning.app.core" : str)
                (entry_body "lightning_app" "lightning.app" "__init__.py"
                   (readlines init_source)))
    by (vm_compute; tauto).
  split; [exact H|]. split.
  - exact (default_entry_stub_lines "__init__.py" (readlines init_source)
             "import lightning.app.core" H).
  - vm_compute; reflexivity.
Defined.


(** ** The loop over the files: stubs, copies and warnings *)

Section Paths.

Lemma join2_relative (a x : str) :
  startswith "/" x = false -> OsPath.join2 a x = OsPath.join2 a [] ++ x.
Proof.
  intros Hx. unfold OsPath.join2. rewrite Hx.
  change (startswith "/" []) with false. cbv iota.
  destruct a as [|c a]; [reflexivity|].
  destruct (endswith "/" (c :: a));
    now rewrite <- ?app_assoc, ?app_nil_r.
Qed.

Lemma startswith_trans (a b c : str) :
  startswith a b = true -> startswith b c = true -> startswith a c = true.
Proof.
  intros H1 H2. apply startswith_split in H1 as [t ->].
  apply startswith_split in H2 as [u ->]. rewrite <- app_assoc.
  apply startswith_app.
Qed.

Lemma join2_under (a x : str) :
  startswith "/" x = false -> startswith a (OsPath.join2 a x) = true.
Proof.
  intros Hx. unfold OsPath.join2. rewrite Hx.
  destruct a as [|c a]; [reflexivity|].
  destruct (endswith "/" (c :: a)); apply startswith_app.
Qed.

Lemma component_end (a d : str) :
  component d -> endswith "/" (a ++ d) = false.
Proof.
  intros [Hne Hs]. destruct (exists_last Hne) as (d' & z & ->).
  unfold endswith. rewrite app_assoc, rev_app_distr.
  cbn [rev app list_ascii_of_string startswith].
  destruct (Ascii.eqb_spec "/" z) as [<-|]; [|reflexivity].
  exfalso. apply Hs. apply in_or_app. right. now left.
Qed.

Lemma component_relative (d : str) : component d -> startswith "/" d = false.
Proof.
  intros [Hne Hs]. destruct d as [|c d]; [contradiction|].
  cbn [list_ascii_of_string startswith].
  destruct (Ascii.eqb_spec "/" c) as [<-|]; [|reflexivity].
  exfalso. apply Hs. now left.
Qed.

(** Joining a name to a path that ends in a component. *)
Lemma join2_component (a d x : str) :
  component d -> startswith "/" x = false ->
  OsPath.join2 (a ++ d) x = a ++ d ++ "/" ++ x.
Proof.
  intros Hd Hx. unfold OsPath.join2. rewrite Hx.
  rewrite (component_end a d Hd).
  destruct (a ++ d) eqn:E.
  - apply app_eq_nil in E as [_ E]. now destruct Hd.
  - rewrite <- E. now rewrite <- app_assoc.
Qed.

Lemma entry_name_plain n :
  In n entry_names ->
  OsPath.basename n = n /\ startswith "/" n = false /\ ~ In "/"%char n
  /\ contains "-" n = false /\ endswith ".py" n = true
  /\ startswith "." n = false /\ length n = 11.
Proof.
  intros [<-|[<-|[]]]; repeat split; try (vm_compute; reflexivity);
    vm_compute; intuition discriminate.
Qed.



Lemma split_first (c : ascii) (d rest : str) :
  ~ In c d -> split c (d ++ c :: rest) = d :: split c rest.
Proof.
  induction d as [|x d IH]; intros H; simpl.
  - now rewrite Ascii.eqb_refl.
  - destruct (Ascii.eqb_spec x c) as [->|Hne];
      [exfalso; apply H; now left|].
    rewrite IH by (intros Hin; apply H; now right). reflexivity.
Qed.


Lemma split_head_prefix (c : ascii) (s : str) :
  exists t, s = hd [] (split c s) ++ t.
Proof.
  induction s as [|x s [t IH]]; simpl; [now exists []|].
  destruct (Ascii.eqb x c); [now exists (x :: s)|].
  destruct (split c s) as [|p ps]; simpl in *.
  - exists s. reflexivity.
  - exists t. now rewrite <- IH.
Qed.

Lemma replace_char_absent (c : ascii) (new s : str) :
  ~ In c s -> replace [c] new s = s.
Proof.
  intros H. apply replace_absent; [discriminate|].
  destruct (contains [c] s) eqn:E; [|reflexivity].
  apply contains_char in E. contradiction.
Qed.

End Paths.

Section CopyEntries.

Variables folder new_pkg : str.

Lemma copy_keeps_files src dst w k :
  is_Some (files w !! k) -> is_Some (files (world_of (copy src dst w)) !! k).
Proof.
  intros H. unfold copy. destruct (files w !! src); [|exact H].
  destruct (bool_decide (src = dst)); [exact H|]. simpl.
  apply lookup_insert_is_Some. destruct (decide (dst = k)); auto.
Qed.

Lemma copy_entries_keeps_files py_files w k :
  is_Some (files w !! k) ->
  is_Some (files (world_of (copy_entries folder new_pkg py_files w)) !! k).
Proof.
  revert w. induction py_files as [|f rest IH]; intros w H; [exact H|].
  simpl. destruct (negb (bool_decide (OsPath.basename f ∈ entry_names)));
    [now apply IH|].
  pose proof (copy_keeps_files f
                (OsPath.join folder
                   [hd [] (split "." new_pkg); OsPath.basename f]) w k H)
    as Hc.
  destruct (copy f _ w) as [w'|e w']; simpl in *; [now apply IH | exact Hc].
Qed.

Lemma copy_entries_warnings py_files w :
  warnings (world_of (copy_entries folder new_pkg py_files w)) = warnings w.
Proof.
  apply (copy_entries_keeps folder new_pkg py_files w []).
  vm_compute. intuition discriminate.
Qed.

(** A file that the copies change is the target of a copy. *)
Lemma copy_entries_changes py_files w k :
  files (world_of (copy_entries folder new_pkg py_files w)) !! k
  <> files w !! k ->
  exists n, In n entry_names /\ k = copy_target folder new_pkg n.
Proof.
  revert w. induction py_files as [|f rest IH]; intros w H;
    [now contradiction H|].
  simpl in H.
  destruct (bool_decide (OsPath.basename f ∈ entry_names)) eqn:Hf;
    simpl in H; [|now apply (IH w)].
  apply bool_decide_eq_true_1, list_elem_of_In in Hf.
  destruct (decide (k = copy_target folder new_pkg (OsPath.basename f)))
    as [->|Hk]; [now exists (OsPath.basename f)|].
  assert (Hc : files (world_of (copy f (copy_target folder new_pkg
                                          (OsPath.basename f)) w)) !! k
               = files w !! k).
  { unfold copy. destruct (files w !! f); [|reflexivity].
    destruct (bool_decide _); [reflexivity|]. simpl.
    apply lookup_insert_ne. congruence. }
  unfold copy_target in Hc at 1.
  destruct (copy f _ w) as [w'|e w']; simpl in *.
  - apply (IH w'). now rewrite Hc.
  - now contradiction H.
Qed.



End CopyEntries.

Section Glob.


End Glob.

Section Run.

Variables package_dir folder new_pkg : str.

Lemma write_stub_warnings local_path body w :
  warnings (world_of (write_stub folder new_pkg local_path body w))
  = warnings w.
Proof. unfold write_stub. now rewrite copy_entries_warnings. Qed.

Lemma write_stub_keeps_files local_path body w k :
  is_Some (files w !! k) ->
  is_Some (files (world_of (write_stub folder new_pkg local_path body w))
             !! k).
Proof.
  intros H. unfold write_stub. apply copy_entries_keeps_files. cbn [files].
  apply lookup_insert_is_Some.
  destruct (decide (OsPath.join folder
                      [replace "." OsPath.sep new_pkg; local_path] = k)); auto.
Qed.

Lemma write_stub_changes local_path body w k :
  files (world_of (write_stub folder new_pkg local_path body w)) !! k
  <> files w !! k ->
  k = OsPath.join folder [replace "." OsPath.sep new_pkg; local_path]
  \/ exists n, In n entry_names /\ k = copy_target folder new_pkg n.
Proof.
  intros H. unfold write_stub in H.
  destruct (decide (k = OsPath.join folder
                          [replace "." OsPath.sep new_pkg; local_path]))
    as [->|Hk]; [now left|].
  right. cbv zeta in H.
  match type of H with
  | files (world_of (copy_entries _ _ ?l ?w0)) !! _ <> _ =>
      apply (copy_entries_changes folder new_pkg l w0 k)
  end.
  intros E. apply H. rewrite E. cbn [files].
  apply lookup_insert_ne. congruence.
Qed.

(** The four ways through the loop body, by the name of the file. *)
Lemma process_file_cases py_file w :
  (no_hyphen py_file = false
   /\ process_file package_dir folder new_pkg py_file w = Done w)
  \/ (no_hyphen py_file = true /\ unsupported py_file = true
      /\ process_file package_dir folder new_pkg py_file w
         = Done {| files := files w;
                   warnings := warnings w
                               ++ [unsupported_message package_dir py_file] |})
  \/ (no_hyphen py_file = true /\ unsupported py_file = false
      /\ files w !! py_file = None
      /\ process_file package_dir folder new_pkg py_file w
         = Raised (FileNotFoundError py_file) w)
  \/ (no_hyphen py_file = true /\ unsupported py_file = false
      /\ exists body,
           process_file package_dir folder new_pkg py_file w
           = write_stub folder new_pkg
               (replace (package_dir ++ OsPath.sep) "" py_file) body w).
Proof.
  unfold process_file, no_hyphen, unsupported, unsupported_message.
  cbv zeta.
  destruct (contains "-" (OsPath.basename py_file)); [now left|].
  right. cbn [negb andb].
  destruct (bool_decide (OsPath.basename py_file ∈ entry_names)) eqn:He.
  - right. cbn [negb].
    destruct (files w !! py_file) as [text|]; [right|left]; eauto.
  - cbn [negb].
    destruct (startswith "_" (OsPath.basename py_file)) eqn:Hu.
    + left. rewrite bool_decide_eq_false_2; [auto|].
      intros H. apply bool_decide_eq_false_1 in He. apply He.
      apply list_elem_of_In in H as [<-|[]].
      apply list_elem_of_In. right. now left.
    + right. cbn [andb].
      destruct (files w !! py_file) as [text|]; [right|left]; eauto.
Qed.

Lemma process_file_warnings py_file w :
  warnings (world_of (process_file package_dir folder new_pkg py_file w))
  = warnings w
    ++ (if unsupported py_file
        then [unsupported_message package_dir py_file] else []).
Proof.
  destruct (process_file_cases py_file w)
    as [[Hh ->]|[(Hh & Hu & ->)|[(Hh & Hu & _ & ->)|(Hh & Hu & body & ->)]]].
  - unfold no_hyphen in Hh. unfold unsupported.
    apply negb_false_iff in Hh. rewrite Hh. simpl. now rewrite app_nil_r.
  - now rewrite Hu.
  - rewrite Hu. simpl. now rewrite app_nil_r.
  - rewrite Hu, write_stub_warnings. now rewrite app_nil_r.
Qed.

Lemma process_file_keeps_files py_file w k :
  is_Some (files w !! k) ->
  is_Some (files (world_of (process_file package_dir folder new_pkg
                              py_file w)) !! k).
Proof.
  intros H. destruct (process_file_cases py_file w)
    as [[Hh ->]|[(Hh & Hu & ->)|[(Hh & Hu & _ & ->)|(Hh & Hu & body & ->)]]];
    try exact H.
  now apply write_stub_keeps_files.
Qed.

Lemma process_file_changes py_file w k :
  files (world_of (process_file package_dir folder new_pkg py_file w)) !! k
  <> files w !! k ->
  k = OsPath.join folder
        [replace "." OsPath.sep new_pkg;
         replace (package_dir ++ OsPath.sep) "" py_file]
  \/ exists n, In n entry_names /\ k = copy_target folder new_pkg n.
Proof.
  destruct (process_file_cases py_file w)
    as [[Hh ->]|[(Hh & Hu & ->)|[(Hh & Hu & _ & ->)|(Hh & Hu & body & ->)]]];
    try (intros H; now contradiction H).
  apply write_stub_changes.
Qed.

Lemma run_step py_file rest w :
  world_of (_create_meta_package package_dir folder new_pkg
              (py_file :: rest) w)
  = match process_file package_dir folder new_pkg py_file w with
    | Done w' =>
        world_of (_create_meta_package package_dir folder new_pkg rest w')
    | Raised _ w' => w'
    end.
Proof.
  cbn [_create_meta_package].
  now destruct (process_file package_dir folder new_pkg py_file w).
Qed.

Lemma under_prefix (a x y : str) :
  startswith "/" x = false -> startswith "/" y = false ->
  startswith (OsPath.join2 a []) (OsPath.join a [x; y]) = true.
Proof.
  intros Hx Hy. rewrite join_two, (join2_relative a x Hx).
  apply (startswith_trans _ (OsPath.join2 a [] ++ x)).
  - apply startswith_app.
  - now apply join2_under.
Qed.

Lemma target_under_folder n :
  startswith "/" new_pkg = false -> In n entry_names ->
  startswith (OsPath.join2 folder []) (copy_target folder new_pkg n) = true.
Proof.
  intros Hp Hn. unfold copy_target. apply under_prefix.
  - destruct (split_head_prefix "." new_pkg) as [t Ht].
    destruct (hd [] (split "." new_pkg)) as [|c top]; [reflexivity|].
    rewrite Ht in Hp. exact Hp.
  - now apply entry_name_plain.
Qed.

Lemma stub_dir_relative :
  startswith "." new_pkg = false -> startswith "/" new_pkg = false ->
  startswith "/" (replace "." OsPath.sep new_pkg) = false.
Proof.
  intros Hd Hs. destruct new_pkg as [|c s]; [reflexivity|].
  rewrite replace_no_match; [exact Hs | discriminate | exact Hd].
Qed.

Lemma stub_under_folder local_path :
  startswith "." new_pkg = false -> startswith "/" new_pkg = false ->
  startswith "/" local_path = false ->
  startswith (OsPath.join2 folder [])
    (OsPath.join folder [replace "." OsPath.sep new_pkg; local_path]) = true.
Proof.
  intros Hd Hs Hl. apply under_prefix; [now apply stub_dir_relative|exact Hl].
Qed.



(** X12.  Files whose name has a hyphen play no part: a run over the
    discovered files is the run over those whose name has none. *)
Theorem hyphenated_names_ignored py_files w :
  _create_meta_package package_dir folder new_pkg py_files w
  = _create_meta_package package_dir folder new_pkg
      (List.filter no_hyphen py_files) w.
Proof.
  revert w. induction py_files as [|f rest IH]; intros w; [reflexivity|].
  cbn [List.filter].
  destruct (process_file_cases f w)
    as [[Hh E]|[(Hh & _)|[(Hh & _)|(Hh & _)]]]; rewrite Hh.
  - cbn [_create_meta_package]. rewrite E. apply IH.
  - cbn [_create_meta_package].
    destruct (process_file package_dir folder new_pkg f w);
      [apply IH | reflexivity].
  - cbn [_create_meta_package].
    destruct (process_file package_dir folder new_pkg f w);
      [apply IH | reflexivity].
  - cbn [_create_meta_package].
    destruct (process_file package_dir folder new_pkg f w);
      [apply IH | reflexivity].
Qed.

(** X13.  A run that ends has logged one warning for each discovered
    file whose name starts with an underscore, has no hyphen and is no
    entry name, in the order of discovery, and nothing else. *)
Theorem one_warning_per_unsupported py_files w w' :
  _create_meta_package package_dir folder new_pkg py_files w = Done w' ->
  warnings w'
  = warnings w
    ++ map (unsupported_message package_dir)
         (List.filter unsupported py_files).
Proof.
  revert w. induction py_files as [|f rest IH]; intros w H.
  - injection H as <-. simpl. now rewrite app_nil_r.
  - cbn [_create_meta_package] in H.
    pose proof (process_file_warnings f w) as Hw.
    destruct (process_file package_dir folder new_pkg f w) as [w1|e w1];
      [|discriminate].
    rewrite (IH w1 H). cbn [world_of] in Hw. rewrite Hw.
    cbn [List.filter]. destruct (unsupported f); cbn [map];
      now rewrite <- app_assoc.
Qed.

(** X14.  The generator deletes nothing: a file that is there before a
    run is there after it, whether the run ends or raises (its content may
    be another, when a stub is written over it). *)
Theorem files_never_deleted py_files w k :
  is_Some (files w !! k) ->
  is_Some (files (world_of (_create_meta_package package_dir folder new_pkg
                              py_files w)) !! k).
Proof.
  revert w. induction py_files as [|f rest IH]; intros w H; [exact H|].
  rewrite run_step.
  pose proof (process_file_keeps_files f w k H) as Hk.
  destruct (process_file package_dir folder new_pkg f w) as [w1|e w1];
    [now apply IH | exact Hk].
Qed.

(** What a run changes: the stub of a discovered file, or the target of a
    copy. *)
Lemma run_changes py_files w k :
  files (world_of (_create_meta_package package_dir folder new_pkg
                     py_files w)) !! k
  <> files w !! k ->
  (exists f, In f py_files
             /\ k = OsPath.join folder
                      [replace "." OsPath.sep new_pkg;
                       replace (package_dir ++ OsPath.sep) "" f])
  \/ exists n, In n entry_names /\ k = copy_target folder new_pkg n.
Proof.
  revert w. induction py_files as [|f rest IH]; intros w H;
    [now contradiction H|].
  rewrite run_step in H.
  destruct (decide
              (files (world_of (process_file package_dir folder new_pkg f w))
                 !! k
               = files w !! k)) as [E|E].
  - destruct (process_file package_dir folder new_pkg f w) as [w1|e w1];
      cbn [world_of] in E; [|contradiction].
    destruct (IH w1) as [(f0 & Hf0 & ->)|Hn]; [now rewrite E| |now right].
    left. exists f0. split; [now right | reflexivity].
  - apply process_file_changes in E as [->|Hn]; [|now right].
    left. exists f. split; [now left | reflexivity].
Qed.

(** X15.  The generator writes under the output folder only: when the
    name of the new package starts neither with a dot nor with a separator
    and the relative path of every discovered file is relative, a file that
    a run creates or changes has a path that starts with
    [os.path.join(folder, '')]. *)
Theorem writes_under_folder py_files w k :
  startswith "." new_pkg = false -> startswith "/" new_pkg = false ->
  Forall (fun f => startswith "/" (replace (package_dir ++ OsPath.sep) "" f)
                   = false) py_files ->
  files (world_of (_create_meta_package package_dir folder new_pkg
                     py_files w)) !! k
  <> files w !! k ->
  startswith (OsPath.join folder ["" : str]) k = true.
Proof.
  intros Hd Hs Hall H.
  apply run_changes in H as [(f & Hf & ->)|(n & Hn & ->)].
  - rewrite List.Forall_forall in Hall. now apply stub_under_folder, Hall.
  - now apply target_under_folder.
Qed.


End Run.

Section Dotted.

Variables package_dir folder top sub : str.
Hypothesis top_component : component top.
Hypothesis top_no_dot : ~ In "."%char top.
Hypothesis sub_component : component sub.
Hypothesis sub_no_dot : ~ In "."%char sub.

Lemma dotted_dir :
  replace "." OsPath.sep (top ++ "." ++ sub) = top ++ "/" ++ sub.
Proof.
  change (list_ascii_of_string ".") with ["."%char].
  rewrite (replace_past_heads "." [] OsPath.sep top _ top_no_dot).
  rewrite (replace_match ["."%char] OsPath.sep ltac:(discriminate)).
  now rewrite replace_char_absent.
Qed.

Lemma dotted_top : hd [] (split "." (top ++ "." ++ sub)) = top.
Proof.
  change (list_ascii_of_string ".") with ["."%char]. cbn [app].
  now rewrite split_first.
Qed.

Lemma dotted_stub_dir :
  OsPath.join folder [replace "." OsPath.sep (top ++ "." ++ sub)]
  = (OsPath.join2 folder [] ++ top ++ "/") ++ sub.
Proof.
  rewrite dotted_dir. unfold OsPath.join. cbn [fold_left].
  rewrite join2_relative.
  - now rewrite <- !app_assoc.
  - destruct top_component as [Hne Hs]. destruct top as [|c t];
      [contradiction|]. apply (component_relative (c :: t)). now split.
Qed.


Lemma dotted_target n :
  In n entry_names ->
  copy_target folder (top ++ "." ++ sub) n
  = (OsPath.join2 folder [] ++ top ++ "/") ++ n.
Proof.
  intros Hn. unfold copy_target. rewrite dotted_top, join_two.
  rewrite (join2_relative folder top)
    by (now apply component_relative).
  rewrite join2_component;
    [|exact top_component | now apply entry_name_plain].
  now rewrite <- !app_assoc.
Qed.






End Dotted.

Section Undotted.

Variables package_dir folder new_pkg : str.
Hypothesis no_dot : ~ In "."%char new_pkg.



End Undotted.

Section RunExamples.




Lemma one_warning_per_unsupported_witness :
  _create_meta_package "src/lightning_app" "src" "lightning.app"
    package_files package_world
  = Done (world_of (_create_meta_package "src/lightning_app" "src"
                      "lightning.app" package_files package_world))
  /\ warnings (world_of (_create_meta_package "src/lightning_app" "src"
                           "lightning.app" package_files package_world))
     = warnings package_world
       ++ map (unsupported_message "src/lightning_app")
            (List.filter unsupported package_files)
  /\ map (unsupported_message "src/lightning_app")
       (List.filter unsupported package_files)
     = ["unsupported file: _helper.py" : str].
Proof.
  assert (E : _create_meta_package "src/lightning_app" "src" "lightning.app"
                package_files package_world
              = Done (world_of (_create_meta_package "src/lightning_app" "src"
                                  "lightning.app" package_files
                                  package_world)))
    by (vm_compute; reflexivity).
  split; [exact E|]. split.
  - exact (one_warning_per_unsupported "src/lightning_app" "src"
             "lightning.app" package_files package_world _ E).
  - vm_compute; reflexivity.
Defined.

Lemma files_never_deleted_witness :
  is_Some (files package_world !! ("src/lightning_app/core.py" : str))
  /\ is_Some (files (world_of (_create_meta_package "src/lightning_app" "src"
                                 "lightning_app"
                                 ["src/lightning_app/core.py" : str]
                                 package_world))
                !! ("src/lightning_app/core.py" : str))
  /\ files (world_of (_create_meta_package "src/lightning_app" "src"
                        "lightning_app" ["src/lightning_app/core.py" : str]
                        package_world))
       !! ("src/lightning_app/core.py" : str)
     = Some ("from lightning_app.core import foo  # noqa: F401" ++ nl).
Proof.
  assert (H : is_Some (files package_world
                         !! ("src/lightning_app/core.py" : str)))
    by (eexists; vm_compute; reflexivity).
  split; [exact H|]. split.
  - exact (files_never_deleted "src/lightning_app" "src" "lightning_app"
             ["src/lightning_app/core.py" : str] package_world _ H).
  - vm_compute; reflexivity.
Defined.

Lemma writes_under_folder_witness :
  (startswith "." "lightning.app" = false
   /\ startswith "/" "lightning.app" = false
   /\ Forall (fun f => startswith "/"
                         (replace ("src/lightning_app" ++ OsPath.sep) "" f)
                       = false) package_files
   /\ files (world_of (_create_meta_package "src/lightning_app" "src"
                         "lightning.app" package_files package_world))
        !! ("src/lightning/app/core.py" : str)
      <> files package_world !! ("src/lightning/app/core.py" : str))
  /\ startswith (OsPath.join "src" ["" : str]) "src/lightning/app/core.py"
     = true
  /\ OsPath.join "src" ["" : str] = "src/".
Proof.
  assert (Hall : Forall (fun f => startswith "/"
                           (replace ("src/lightning_app" ++ OsPath.sep) "" f)
                         = false) package_files)
    by (repeat constructor; vm_compute; reflexivity).
  assert (Hk : files (world_of (_create_meta_package "src/lightning_app" "src"
                                  "lightning.app" package_files
                                  package_world))
                 !! ("src/lightning/app/core.py" : str)
               <> files package_world !! ("src/lightning/app/core.py" : str))
    by (vm_compute; discriminate).
  split; [|split].
  - repeat split; try assumption; vm_compute; reflexivity.
  - apply (writes_under_folder "src/lightning_app" "src" "lightning.app"
             package_files package_world "src/lightning/app/core.py");
      try assumption; vm_compute; reflexivity.
  - vm_compute; reflexivity.
Defined.


End RunExamples.

Section Sources.

Variables folder pkg top sub : str.
Hypothesis pkg_component : component pkg.
Hypothesis top_component : component top.
Hypothesis top_no_dot : ~ In "."%char top.
Hypothesis sub_component : component sub.
Hypothesis sub_no_dot : ~ In "."%char sub.
Hypothesis other_name : top <> pkg.

Lemma first_component (c : ascii) (a b x y : str) :
  ~ In c a -> ~ In c b -> a ++ c :: x = b ++ c :: y -> a = b.
Proof.
  revert b. induction a as [|u a IH]; intros b Ha Hb E.
  - destruct b as [|v b]; [reflexivity|]. simpl in E. injection E as -> _.
    exfalso. apply Hb. now left.
  - destruct b as [|v b]; simpl in E.
    + injection E as -> _. exfalso. apply Ha. now left.
    + injection E as -> E. f_equal. apply (IH b); auto.
      * intros H. apply Ha. now right.
      * intros H. apply Hb. now right.
Qed.

Lemma not_under_package (x k : str) :
  k = (OsPath.join2 folder [] ++ top ++ "/") ++ x ->
  startswith (OsPath.join folder [pkg] ++ OsPath.sep) k = false.
Proof.
  intros ->.
  destruct (startswith (OsPath.join folder [pkg] ++ OsPath.sep) _) eqn:H;
    [exfalso|reflexivity].
  apply startswith_split in H as [t Ht]. unfold OsPath.join in Ht.
  cbn [fold_left] in Ht.
  rewrite (join2_relative folder pkg) in Ht
    by (now apply component_relative).
  rewrite <- !app_assoc in Ht. apply app_inv_head in Ht.
  apply other_name.
  apply (first_component "/" top pkg x t);
    [now destruct top_component | now destruct pkg_component | exact Ht].
Qed.

End Sources.

(** X20.  The sources are safe when the package directory is
    [folder/pkg] and the new package is [top.sub] with [top] another name
    than [pkg], as with the default names: no file under the package
    directory is created or changed by a run.  The relative path of every
    discovered file is relative. *)
Theorem sources_untouched (folder pkg top sub : str) py_files w k :
  component pkg -> component top -> ~ In "."%char top ->
  component sub -> ~ In "."%char sub -> top <> pkg ->
  Forall (fun f => startswith "/"
                     (replace (OsPath.join folder [pkg] ++ OsPath.sep) "" f)
                   = false) py_files ->
  startswith (OsPath.join folder [pkg] ++ OsPath.sep) k = true ->
  files (world_of (_create_meta_package (OsPath.join folder [pkg]) folder
                     (top ++ "." ++ sub) py_files w)) !! k
  = files w !! k.
Proof.
  intros Hpkg Htop Htd Hsub Hsd Hne Hall Hk.
  destruct (decide
              (files (world_of (_create_meta_package
                                  (OsPath.join folder [pkg]) folder
                                  (top ++ "." ++ sub) py_files w)) !! k
               = files w !! k)) as [E|E]; [exact E|exfalso].
  apply run_changes in E as [(f & Hf & E)|(n & Hn & E)].
  - rewrite List.Forall_forall in Hall. specialize (Hall f Hf).
    rewrite join_two in E.
    change (OsPath.join2 folder (replace "." OsPath.sep (top ++ "." ++ sub)))
      with (OsPath.join folder [replace "." OsPath.sep (top ++ "." ++ sub)])
      in E.
    rewrite (dotted_stub_dir folder top sub Htop Htd Hsd) in E.
    rewrite (join2_component _ sub _ Hsub Hall) in E.
    rewrite (not_under_package folder pkg top Hpkg Htop Hne _ k E) in Hk.
    discriminate.
  - rewrite (dotted_target folder top sub Htop Htd n Hn) in E.
    rewrite (not_under_package folder pkg top Hpkg Htop Hne _ k E) in Hk.
    discriminate.
Qed.

Lemma sources_untouched_witness :
  (component "lightning_app" /\ component "lightning"
   /\ ~ In "."%char (list_ascii_of_string "lightning")
   /\ component "app" /\ ~ In "."%char (list_ascii_of_string "app")
   /\ list_ascii_of_string "lightning" <> list_ascii_of_string "lightning_app"
   /\ Forall (fun f => startswith "/"
                         (replace (OsPath.join "src" ["lightning_app" : str]
                                   ++ OsPath.sep) "" f)
                       = false) package_files
   /\ startswith (OsPath.join "src" ["lightning_app" : str] ++ OsPath.sep)
        "src/lightning_app/__init__.py" = true)
  /\ files (world_of (_create_meta_package
                        (OsPath.join "src" ["lightning_app" : str]) "src"
                        ("lightning" ++ "." ++ "app") package_files
                        package_world))
       !! ("src/lightning_app/__init__.py" : str)
     = files package_world !! ("src/lightning_app/__init__.py" : str).
Proof.
  assert (C0 : component "lightning_app")
    by (split; [discriminate | vm_compute; intuition discriminate]).
  assert (C1 : component "lightning")
    by (split; [discriminate | vm_compute; intuition discriminate]).
  assert (C2 : ~ In "."%char (list_ascii_of_string "lightning"))
    by (vm_compute; intuition discriminate).
  assert (C3 : component "app")
    by (split; [discriminate | vm_compute; intuition discriminate]).
  assert (C4 : ~ In "."%char (list_ascii_of_string "app"))
    by (vm_compute; intuition discriminate).
  assert (C5 : list_ascii_of_string "lightning"
               <> list_ascii_of_string "lightning_app") by discriminate.
  assert (Hall : Forall (fun f => startswith "/"
                           (replace (OsPath.join "src" ["lightning_app" : str]
                                     ++ OsPath.sep) "" f)
                         = false) package_files)
    by (repeat constructor; vm_compute; reflexivity).
  assert (Hk : startswith (OsPath.join "src" ["lightning_app" : str]
                           ++ OsPath.sep)
                 "src/lightning_app/__init__.py" = true)
    by (vm_compute; reflexivity).
  split.
  - repeat split; try assumption; try (now destruct C0);
      try (now destruct C1); now destruct C3.
  - exact (sources_untouched "src" "lightning_app" "lightning" "app"
             package_files package_world "src/lightning_app/__init__.py"
             C0 C1 C2 C3 C4 C5 Hall Hk).
Defined.


(** ** The module constants *)

Section Roots.

Lemma dirname_of_child (a d name : str) :
  component d -> ~ In "/"%char name ->
  OsPath.dirname (a ++ d ++ "/" ++ name) = a ++ d.
Proof.
  intros Hd Hn. unfold OsPath.dirname.
  change (a ++ d ++ "/" ++ name) with (a ++ d ++ "/"%char :: name).
  rewrite app_assoc, split_last_sep by exact Hn. cbn [fst].
  rewrite not_all_sep by exact Hd. now apply rstrip_sep_component.
Qed.

(** X21.  The two module constants: for a module file at
    [.../proj/pkg/name], the package root is [.../proj/pkg], the project
    root is [.../proj], the default package name is [pkg], and the package
    root is the project root joined with that name. *)
Theorem default_roots (a proj pkg name : str) :
  component proj -> component pkg -> ~ In "/"%char name ->
  _PACKAGE_ROOT (a ++ proj ++ "/" ++ pkg ++ "/" ++ name)
  = a ++ proj ++ "/" ++ pkg
  /\ _PROJECT_ROOT (a ++ proj ++ "/" ++ pkg ++ "/" ++ name) = a ++ proj
  /\ OsPath.basename (_PACKAGE_ROOT (a ++ proj ++ "/" ++ pkg ++ "/" ++ name))
     = pkg
  /\ OsPath.join (_PROJECT_ROOT (a ++ proj ++ "/" ++ pkg ++ "/" ++ name)) [pkg]
     = _PACKAGE_ROOT (a ++ proj ++ "/" ++ pkg ++ "/" ++ name).
Proof.
  intros Hproj Hpkg Hname.
  assert (E1 : _PACKAGE_ROOT (a ++ proj ++ "/" ++ pkg ++ "/" ++ name)
               = a ++ proj ++ "/" ++ pkg).
  { unfold _PACKAGE_ROOT.
    replace (a ++ proj ++ "/" ++ pkg ++ "/" ++ name)
      with ((a ++ proj ++ "/") ++ pkg ++ "/" ++ name)
      by (now rewrite <- !app_assoc).
    rewrite dirname_of_child by assumption. now rewrite <- !app_assoc. }
  assert (E2 : _PROJECT_ROOT (a ++ proj ++ "/" ++ pkg ++ "/" ++ name)
               = a ++ proj).
  { unfold _PROJECT_ROOT. rewrite E1. apply dirname_of_child; [exact Hproj|].
    now destruct Hpkg. }
  rewrite E1, E2. repeat split.
  - change (a ++ proj ++ "/" ++ pkg) with (a ++ proj ++ "/"%char :: pkg).
    rewrite app_assoc, basename_after_sep.
    unfold OsPath.basename. destruct Hpkg as [_ Hs].
    now rewrite split_last_no_sep.
  - unfold OsPath.join. cbn [fold_left].
    rewrite join2_component;
      [reflexivity | exact Hproj | now apply component_relative].
Qed.

Lemma default_roots_witness :
  (component "src" /\ component "lightning_app"
   /\ ~ In "/"%char (list_ascii_of_string "_setup_tools.py"))
  /\ _PACKAGE_ROOT ("/home/u/" ++ "src" ++ "/" ++ "lightning_app" ++ "/"
                    ++ "_setup_tools.py")
     = "/home/u/" ++ "src" ++ "/" ++ "lightning_app"
  /\ _PROJECT_ROOT ("/home/u/" ++ "src" ++ "/" ++ "lightning_app" ++ "/"
                    ++ "_setup_tools.py")
     = "/home/u/" ++ "src".
Proof.
  assert (C1 : component "src")
    by (split; [discriminate | vm_compute; intuition discriminate]).
  assert (C2 : component "lightning_app")
    by (split; [discriminate | vm_compute; intuition discriminate]).
  assert (C3 : ~ In "/"%char (list_ascii_of_string "_setup_tools.py"))
    by (vm_compute; intuition discriminate).
  destruct (default_roots "/home/u/" "src" "lightning_app" "_setup_tools.py"
              C1 C2 C3) as (E1 & E2 & _).
  split; [repeat split; try assumption; try (now destruct C1);
          now destruct C2|].
  split; [exact E1 | exact E2].
Defined.

End Roots.
